(** * Validate-Branch extension: convention engine and hook lifecycle

    A shallow embedding of [src/extension.js]: the pattern tables, the
    in-process validators, the hook-script generators, and the
    install / detect / remove operations on the hooks directory.

    Conventions of the model.
    - A JavaScript string is a [string]; for ASCII text the two agree
      character by character.  Non-ASCII characters only occur inside
      fixed template text and are carried as the bytes found in the source
      file.
    - A JavaScript object literal used as a table is an association list
      looked up with [get_property], which also accounts for the names
      every object inherits from [Object.prototype].
    - The [RegExp] constructor and [JSON.parse] are built-ins of the host
      and enter as section variables.
    - [console.log] / [console.error] output is not modelled. *)

From Stdlib Require Import Ascii String List Bool Arith Lia.
From stdpp Require Import base option gmap strings list fin_maps.

Import ListNotations.
Local Open Scope list_scope.

(** ** Strings *)

Module Str.

Definition chars (s : string) : list ascii := list_ascii_of_string s.

  (** JavaScript truthiness of a string: non-empty. *)
Definition truthy (s : string) : bool :=
    match s with EmptyString => false | String _ _ => true end.

Fixpoint starts_with (needle hay : list ascii) : bool :=
    match needle, hay with
    | [], _ => true
    | _ :: _, [] => false
    | a :: n', b :: h' => Ascii.eqb a b && starts_with n' h'
    end.

Fixpoint includes_chars (hay needle : list ascii) : bool :=
    starts_with needle hay ||
    match hay with
    | [] => false
    | _ :: h' => includes_chars h' needle
    end.

  (** [String.prototype.includes]. *)
Definition includes (hay needle : string) : bool :=
    includes_chars (chars hay) (chars needle).

  (** [Array.prototype.join]. *)
Fixpoint join (sep : string) (l : list string) : string :=
    match l with
    | [] => ""
    | [x] => x
    | x :: l' => x +:+ sep +:+ join sep l'
    end.

  (** The characters removed by [String.prototype.trim], among the
      8-bit ones: TAB, LF, VT, FF, CR, SPACE and NBSP. *)
Definition is_whitespace (c : ascii) : bool :=
    let n := nat_of_ascii c in
    ((9 <=? n) && (n <=? 13)) || (n =? 32) || (n =? 160).

Definition leading_whitespace (s : string) : bool :=
    match chars s with
    | c :: _ => is_whitespace c
    | [] => false
    end.

Definition trailing_whitespace (s : string) : bool :=
    match rev (chars s) with
    | c :: _ => is_whitespace c
    | [] => false
    end.

End Str.

(** ** Regular expressions

    The fragment of ECMAScript regular expressions that the built-in
    patterns use.  [test] has the semantics of [RegExp.prototype.test]
    for a pattern without flags: it succeeds when the pattern matches at
    some start position of the subject. *)

Module Regex.

Inductive regex : Type :=
  | Eps
  | Chr (c : ascii)
  | Dot
  | Class (ranges : list (ascii * ascii))
  | Seq (r1 r2 : regex)
  | Alt (r1 r2 : regex)
  | Repeat (lo : nat) (hi : option nat) (r : regex)
  | Bol
  | Eol.

  (** [.] matches everything but a line terminator. *)
Definition is_line_terminator (c : ascii) : bool :=
    let n := nat_of_ascii c in (n =? 10) || (n =? 13).

Definition in_range (c : ascii) (r : ascii * ascii) : bool :=
    (nat_of_ascii (fst r) <=? nat_of_ascii c) &&
    (nat_of_ascii c <=? nat_of_ascii (snd r)).

Definition in_class (ranges : list (ascii * ascii)) (c : ascii) : bool :=
    existsb (in_range c) ranges.

Definition cont : Type := nat -> list ascii -> bool.

  (** The loop of a quantifier: between [lo] and [budget] further
      iterations of [step].  An iteration made once the minimum is met
      must consume at least one character (the empty check of
      RepeatMatcher). *)
Fixpoint iterate (step : cont -> cont) (budget lo : nat) (k : cont)
      (pos : nat) (s : list ascii) {struct budget} : bool :=
    ((lo =? 0) && k pos s) ||
    match budget with
    | 0 => false
    | S b =>
        step
          (fun pos' s' =>
             ((0 <? lo) || (pos <? pos')) && iterate step b (pred lo) k pos' s')
          pos s
    end.

  (** Backtracking matcher in continuation-passing style.  [pos] is the
      index of the next character, [s] the rest of the subject.  An
      unbounded quantifier needs no more iterations than its minimum plus
      the number of characters left. *)
Fixpoint rmatch (r : regex) (k : cont) (pos : nat) (s : list ascii) : bool :=
    match r with
    | Eps => k pos s
    | Chr c =>
        match s with
        | a :: t => Ascii.eqb a c && k (S pos) t
        | [] => false
        end
    | Dot =>
        match s with
        | a :: t => negb (is_line_terminator a) && k (S pos) t
        | [] => false
        end
    | Class ranges =>
        match s with
        | a :: t => in_class ranges a && k (S pos) t
        | [] => false
        end
    | Seq r1 r2 => rmatch r1 (rmatch r2 k) pos s
    | Alt r1 r2 => rmatch r1 k pos s || rmatch r2 k pos s
    | Repeat lo hi r1 =>
        iterate (rmatch r1)
                (match hi with Some h => h | None => lo + length s end)
                lo k pos s
    | Bol => (pos =? 0) && k pos s
    | Eol => match s with [] => k pos s | _ :: _ => false end
    end.

Definition accept : cont := fun _ _ => true.

Definition match_at (r : regex) (s : list ascii) (start : nat) : bool :=
    rmatch r accept start (drop start s).

Definition test (r : regex) (subject : string) : bool :=
    let s := Str.chars subject in
    existsb (match_at r s) (seq 0 (S (length s))).

  (** Building blocks for writing patterns. *)
Definition lit (s : string) : regex :=
    fold_right (fun c r => Seq (Chr c) r) Eps (Str.chars s).

Fixpoint seqs (l : list regex) : regex :=
    match l with
    | [] => Eps
    | [r] => r
    | r :: l' => Seq r (seqs l')
    end.

Fixpoint alts (l : list regex) : regex :=
    match l with
    | [] => Class []
    | [r] => r
    | r :: l' => Alt r (alts l')
    end.

Definition plus (r : regex) : regex := Repeat 1 None r.

(** The subject ends with a character that [.] refuses. *)
Definition trailing_line_terminator (subject : string) : bool :=
  match rev (Str.chars subject) with
  | c :: _ => is_line_terminator c
  | [] => false
  end.

  (** A matcher step that, whenever it succeeds, has consumed a prefix
      [m] of its input and handed the rest to its continuation. *)
Definition hands_over (step : cont -> cont) : Prop :=
    forall k pos s,
      step k pos s = true ->
      exists m s', s = m ++ s' /\ k (pos + length m) s' = true.

  (** The step of a pattern that matches exactly one character. *)
Definition one_char (P : ascii -> bool) : cont -> cont :=
    fun k pos s =>
      match s with
      | a :: t => P a && k (S pos) t
      | [] => false
      end.

End Regex.

Import Regex.

(** ** Property lookup on an object literal *)

(** The own properties of [Object.prototype]; every object literal
    inherits them, so [table[key]] is truthy for these keys as well. *)
Definition object_prototype_keys : list string :=
  [ "constructor"; "__defineGetter__"; "__defineSetter__"; "hasOwnProperty";
    "__lookupGetter__"; "__lookupSetter__"; "isPrototypeOf";
    "propertyIsEnumerable"; "toString"; "valueOf"; "__proto__";
    "toLocaleString" ].

Inductive property (A : Type) : Type :=
| Own (a : A)
| Inherited
| Missing.
Arguments Own {A} a.
Arguments Inherited {A}.
Arguments Missing {A}.

Fixpoint own_property {A : Type} (table : list (string * A)) (key : string)
  : option A :=
  match table with
  | [] => None
  | (k, v) :: table' => if String.eqb k key then Some v else own_property table' key
  end.

Definition is_prototype_key (key : string) : bool :=
  existsb (String.eqb key) object_prototype_keys.

(** [table[key]] *)
Definition get_property {A : Type} (table : list (string * A)) (key : string)
  : property A :=
  match own_property table key with
  | Some v => Own v
  | None => if is_prototype_key key then Inherited else Missing
  end.

(** [table[key] || fallback], for tables whose own values are truthy. *)
Definition or_default {A : Type} (p : property A) (fallback : A) : property A :=
  match p with
  | Missing => Own fallback
  | _ => p
  end.

(** ** Pattern tables *)

Definition upper : ascii * ascii := ("A"%char, "Z"%char).
Definition lower : ascii * ascii := ("a"%char, "z"%char).
Definition digit : ascii * ascii := ("0"%char, "9"%char).
Definition dash : ascii * ascii := ("-"%char, "-"%char).

(** [/^(feature|bugfix|hotfix|release|chore)\/[A-Z]+-[0-9]+-[a-z0-9-]+$/] *)
Definition jira_branch_regex : regex :=
  seqs [ Bol;
         alts [lit "feature"; lit "bugfix"; lit "hotfix"; lit "release"; lit "chore"];
         Chr "/";
         plus (Class [upper]); Chr "-";
         plus (Class [digit]); Chr "-";
         plus (Class [lower; digit; dash]);
         Eol ].

(** [/^\[[A-Z]+-[0-9]+\] (feat|fix|docs|style|refactor|test|chore)\([a-z0-9-]+\): .{1,80}$/] *)
Definition jira_commit_regex : regex :=
  seqs [ Bol;
         Chr "["; plus (Class [upper]); Chr "-"; plus (Class [digit]); Chr "]";
         Chr " ";
         alts [lit "feat"; lit "fix"; lit "docs"; lit "style"; lit "refactor";
               lit "test"; lit "chore"];
         Chr "("; plus (Class [lower; digit; dash]); Chr ")";
         Chr ":"; Chr " ";
         Repeat 1 (Some 80) Dot;
         Eol ].

Definition BRANCH_PATTERNS : list (string * regex) := [("jira", jira_branch_regex)].
Definition COMMIT_PATTERNS : list (string * regex) := [("jira", jira_commit_regex)].

(** ** Configuration *)

Record Config : Type := {
  branchPattern : string;
  commitPattern : string;
  enableBranchValidation : bool;
  enableCommitValidation : bool;
  customBranchPattern : string;
  customCommitPattern : string
}.

Definition defaultConfig : Config :=
  {| branchPattern := "jira";
     commitPattern := "jira";
     enableBranchValidation := true;
     enableCommitValidation := true;
     customBranchPattern := "";
     customCommitPattern := "" |}.

(** ** Outcomes of a call *)

Inductive exn : Type :=
| TypeError (what : string)
| FsError (code : string).

(** How a call completes: it returns, or an exception leaves it. *)
Inductive completion (A : Type) : Type :=
| Normal (a : A)
| Throw (e : exn).
Arguments Normal {A} a.
Arguments Throw {A} e.

Definition bind {A B : Type} (c : completion A) (k : A -> completion B)
  : completion B :=
  match c with
  | Normal a => k a
  | Throw e => Throw e
  end.

Notation "'let*' x ':=' c 'in' k" := (bind c (fun x => k))
  (at level 10, x name, c at level 100, k at level 200).

(** Messages surfaced through [vscode.window]. *)
Inductive notice : Type :=
| ErrorMessage (text : string)
| InformationMessage (text : string).

(** ** In-process validation *)

Section Validation.

  (** [new RegExp(text)]: the compiled expression, or [None] when the
      constructor throws a SyntaxError. *)
Variable RegExp_new : string -> option regex.

  (** [validateBranchName(branchName, pattern)], with the live
      configuration that [getConfig()] returns passed as [config].  The
      result pairs the messages shown with the completion. *)
Definition validateBranchName (config : Config) (branchName pattern : string)
    : list notice * completion bool :=
    if String.eqb pattern "custom" && Str.truthy (customBranchPattern config) then
      match RegExp_new (customBranchPattern config) with
      | Some regex => ([], Normal (test regex branchName))
      | None =>
          ([ErrorMessage "Invalid custom branch pattern in settings"], Normal false)
      end
    else
      match get_property BRANCH_PATTERNS pattern with
      | Own regex => ([], Normal (test regex branchName))
      | Missing => ([], Normal false)
      | Inherited => ([], Throw (TypeError "regex.test is not a function"))
      end.

  (** [validateCommitMessage(message, pattern)] *)
Definition validateCommitMessage (config : Config) (message pattern : string)
    : list notice * completion bool :=
    if String.eqb pattern "custom" && Str.truthy (customCommitPattern config) then
      match RegExp_new (customCommitPattern config) with
      | Some regex => ([], Normal (test regex message))
      | None =>
          ([ErrorMessage "Invalid custom commit pattern in settings"], Normal false)
      end
    else
      match get_property COMMIT_PATTERNS pattern with
      | Own regex => ([], Normal (test regex message))
      | Missing => ([], Normal false)
      | Inherited => ([], Throw (TypeError "regex.test is not a function"))
      end.

End Validation.

(** ** Examples *)

Definition jira_branch_examples : list string :=
  [ "feature/APC-2876-user-auth";
    "bugfix/APC-1234-login-fix";
    "hotfix/APC-5678-security-patch";
    "release/APC-9999-v2-release";
    "chore/APC-1111-update-deps" ].

Definition jira_commit_examples : list string :=
  [ "[APC-2356] feat(auth): Add Login Functionality";
    "[APC-1234] fix(ui): Resolve button alignment issue";
    "[APC-5678] docs(readme): Update installation guide";
    "[APC-9999] refactor(api): Simplify user service" ].

(** [getBranchExamples(pattern)]: [examples[pattern] || examples.jira].
    An inherited name yields a value that is not the array. *)
Definition getBranchExamples (pattern : string) : property (list string) :=
  or_default (get_property [("jira", jira_branch_examples)] pattern)
             jira_branch_examples.

(** [getCommitExamples(pattern)] *)
Definition getCommitExamples (pattern : string) : property (list string) :=
  or_default (get_property [("jira", jira_commit_examples)] pattern)
             jira_commit_examples.

(** ** Hook-script generation *)

(** The double quote, and template text written with [~] in its place
    (no template of the source contains a tilde). *)
Definition dq : ascii := "034"%char.

Fixpoint tpl (s : string) : string :=
  match s with
  | EmptyString => EmptyString
  | String c s' => String (if Ascii.eqb c "~" then dq else c) (tpl s')
  end.

Definition string_of_bool (b : bool) : string :=
  if b then "true" else "false".

(** The inner template literal of the example list. *)
Definition echo_example (ex : string) : string :=
  tpl "echo ~  " +:+ ex +:+ tpl "~".

Definition jira_branch_pattern_text : string :=
  "^(feature|bugfix|hotfix|release|chore)/[A-Z]+-[0-9]+-[a-z0-9-]+$".

(** The value of the string literal of the source, in which each
    backslash is written doubled. *)
Definition jira_commit_pattern_text : string :=
  "^\[[A-Z]+-[0-9]+\] (feat|fix|docs|style|refactor|test|chore)\([a-z0-9-]+\): .{1,80}$".

(** The pattern that [generateBranchValidationScript] embeds. *)
Definition branch_hook_pattern (config : Config) : property string :=
  if String.eqb (branchPattern config) "custom"
     && Str.truthy (customBranchPattern config)
  then Own (customBranchPattern config)
  else or_default
         (get_property [("jira", jira_branch_pattern_text)] (branchPattern config))
         jira_branch_pattern_text.

Definition branch_hook_examples (config : Config) : property (list string) :=
  if String.eqb (branchPattern config) "custom"
  then Own ["custom-pattern-example"]
  else or_default
         (get_property [("jira", jira_branch_examples)] (branchPattern config))
         jira_branch_examples.

(** The template literal of [generateBranchValidationScript]. *)
Definition branch_script_text (config : Config) (pattern : string)
    (exampleList : list string) : string :=
  tpl "
validate_branch_name() {
    local branch_name=~$1~
    local pattern=~"
    +:+ pattern
    +:+ tpl "~
    
    if ! echo ~$branch_name~ | grep -qE ~$pattern~; then
        echo ~‚ùå Branch name '$branch_name' doesn't follow the "
    +:+ branchPattern config
    +:+ tpl " convention.~
        echo ~~
        echo ~Examples:~
        "
    +:+ Str.join (tpl "
        ") (map echo_example exampleList)
    +:+ tpl "
        echo ~~
        echo ~Current pattern: $pattern~
        return 1
    fi
    return 0
}".

(** [generateBranchValidationScript(config)].  When the convention name
    is one that the tables inherit, [exampleList] is not an array and
    [exampleList.map] throws while the template is evaluated. *)
Definition generateBranchValidationScript (config : Config) : completion string :=
  match branch_hook_pattern config, branch_hook_examples config with
  | Own pattern, Own exampleList =>
      Normal (branch_script_text config pattern exampleList)
  | _, _ => Throw (TypeError "exampleList.map is not a function")
  end.

Definition commit_hook_pattern (config : Config) : property string :=
  if String.eqb (commitPattern config) "custom"
     && Str.truthy (customCommitPattern config)
  then Own (customCommitPattern config)
  else or_default
         (get_property [("jira", jira_commit_pattern_text)] (commitPattern config))
         jira_commit_pattern_text.

Definition commit_hook_examples (config : Config) : property (list string) :=
  if String.eqb (commitPattern config) "custom"
  then Own ["custom-pattern-example"]
  else or_default
         (get_property [("jira", jira_commit_examples)] (commitPattern config))
         jira_commit_examples.

(** The template literal of [generateCommitValidationScript]. *)
Definition commit_script_text (config : Config) (pattern : string)
    (exampleList : list string) : string :=
  tpl "
validate_commit_message() {
    local commit_message=~$1~
    local pattern=~"
    +:+ pattern
    +:+ tpl "~
    
    if ! echo ~$commit_message~ | grep -qE ~$pattern~; then
        echo ~‚ùå Commit message doesn't follow the "
    +:+ commitPattern config
    +:+ tpl " convention.~
        echo ~~
        echo ~Examples:~
        "
    +:+ Str.join (tpl "
        ") (map echo_example exampleList)
    +:+ tpl "
        echo ~~
        echo ~Current pattern: $pattern~
        return 1
    fi
    return 0
}".

(** [generateCommitValidationScript(config)] *)
Definition generateCommitValidationScript (config : Config) : completion string :=
  match commit_hook_pattern config, commit_hook_examples config with
  | Own pattern, Own exampleList =>
      Normal (commit_script_text config pattern exampleList)
  | _, _ => Throw (TypeError "exampleList.map is not a function")
  end.

(** ** The four hook files *)

Definition extensionSignature : string := "# VS Code Validate Branch Extension".

(** [config.enableBranchValidation ? generateBranchValidationScript(config) : ''] *)
Definition branch_validation_part (config : Config) : completion string :=
  if enableBranchValidation config
  then generateBranchValidationScript config
  else Normal "".

Definition commit_validation_part (config : Config) : completion string :=
  if enableCommitValidation config
  then generateCommitValidationScript config
  else Normal "".

Definition preCommitText (config : Config) (validation : string) : string :=
  tpl "#!/bin/sh
# VS Code Validate Branch Extension - Pre-commit hook
# This hook validates the current branch name before allowing commits

"
    +:+ validation
    +:+ tpl "

if [ ~"
    +:+ string_of_bool (enableBranchValidation config)
    +:+ tpl "~ = ~true~ ]; then
    current_branch=$(git branch --show-current 2>/dev/null || git rev-parse --abbrev-ref HEAD 2>/dev/null)
    
    if [ -n ~$current_branch~ ] && [ ~$current_branch~ != ~HEAD~ ]; then
        if ! validate_branch_name ~$current_branch~; then
            echo ~~
            echo ~üí° Tip: Use 'Validate Branch: Create New Branch' command in VS Code for guided branch creation.~
            echo ~üí° Or rename this branch: git branch -m <new-valid-name>~
            exit 1
        fi
    fi
fi

echo ~‚úÖ Branch name validation passed~
".

Definition commitMsgText (config : Config) (validation : string) : string :=
  tpl "#!/bin/sh
# VS Code Validate Branch Extension - Commit message hook
# This hook validates commit messages

"
    +:+ validation
    +:+ tpl "

if [ ~"
    +:+ string_of_bool (enableCommitValidation config)
    +:+ tpl "~ = ~true~ ]; then
    commit_message=$(cat ~$1~)
    
    if ! validate_commit_message ~$commit_message~; then
        echo ~~
        echo ~üí° Tip: Use 'Validate Branch: Create Commit' command in VS Code for guided commit creation.~
        exit 1
    fi
fi

echo ~‚úÖ Commit message validation passed~
".

(** In the source the sed expression is written with escaped slashes
    inside a template literal, which drops the backslashes. *)
Definition prePushText (config : Config) (validation : string) : string :=
  tpl "#!/bin/sh
# VS Code Validate Branch Extension - Pre-push hook
# This hook validates branch names before they are pushed to remote

"
    +:+ validation
    +:+ tpl "

if [ ~"
    +:+ string_of_bool (enableBranchValidation config)
    +:+ tpl "~ = ~true~ ]; then
    # Read from stdin: local_ref local_sha remote_ref remote_sha
    while read local_ref local_sha remote_ref remote_sha; do
        # Extract branch name from ref
        if [ ~$local_ref~ != ~(delete)~ ]; then
            branch_name=$(echo ~$local_ref~ | sed 's/refs/heads///')
            
            if [ -n ~$branch_name~ ]; then
                if ! validate_branch_name ~$branch_name~; then
                    echo ~~
                    echo ~üí° Tip: Rename your branch before pushing: git branch -m <new-valid-name>~
                    echo ~üí° Or use 'Validate Branch: Create New Branch' command in VS Code for guided branch creation.~
                    exit 1
                fi
            fi
        fi
    done
fi

echo ~‚úÖ Branch name validation passed for push~
".

Definition postCheckoutText (config : Config) (validation : string) : string :=
  tpl "#!/bin/sh
# VS Code Validate Branch Extension - Post-checkout hook
# This hook warns about invalid branch names after checkout or branch creation

"
    +:+ validation
    +:+ tpl "

# Arguments: previous_head new_head branch_flag
previous_head=$1
new_head=$2
branch_flag=$3

# Only validate if this is a branch checkout (branch_flag = 1)
if [ ~$branch_flag~ = ~1~ ] && [ ~"
    +:+ string_of_bool (enableBranchValidation config)
    +:+ tpl "~ = ~true~ ]; then
    current_branch=$(git branch --show-current 2>/dev/null || git rev-parse --abbrev-ref HEAD 2>/dev/null)
    
    if [ -n ~$current_branch~ ] && [ ~$current_branch~ != ~HEAD~ ]; then
        if ! validate_branch_name ~$current_branch~; then
            echo ~~
            echo ~‚ö†Ô∏è  WARNING: Branch name '$current_branch' doesn't follow naming conventions!~
            echo ~üí° This branch will be blocked from commits and pushes until renamed.~
            echo ~üí° To rename: git branch -m <new-valid-name>~
            echo ~üí° Or use 'Validate Branch: Create New Branch' command in VS Code for guided branch creation.~
            echo ~~
        else
            echo ~‚úÖ Branch name follows "
    +:+ branchPattern config
    +:+ tpl " convention~
        fi
    fi
fi
".

Definition preCommitContent (config : Config) : completion string :=
  let* validation := branch_validation_part config in
  Normal (preCommitText config validation).

Definition commitMsgContent (config : Config) : completion string :=
  let* validation := commit_validation_part config in
  Normal (commitMsgText config validation).

Definition prePushContent (config : Config) : completion string :=
  let* validation := branch_validation_part config in
  Normal (prePushText config validation).

Definition postCheckoutContent (config : Config) : completion string :=
  let* validation := branch_validation_part config in
  Normal (postCheckoutText config validation).

(** ** The file system

    The part of [fs] that the extension uses.  A path is the list of its
    components ([path.join] appends), the root is the empty path and is
    always a directory.  A call fails exactly when the kind of node it
    finds (file, directory, nothing) forbids it; access rights and device
    errors are outside the model. *)

Module Fs.

Abbreviation path := (list string).

Inductive node : Type :=
  | File (content : string) (mode : N)
  | Dir.

Abbreviation t := (gmap path node).

Definition is_dir (fs : t) (p : path) : bool :=
    match p with
    | [] => true
    | _ :: _ => match fs !! p with Some Dir => true | _ => false end
    end.

  (** The proper prefixes of a path, the root first. *)
Fixpoint ancestors (p : path) : list path :=
    match p with
    | [] => []
    | x :: p' => [] :: map (cons x) (ancestors p')
    end.

  (** Every directory on the way to [p] exists. *)
Definition reachable (fs : t) (p : path) : bool :=
    forallb (is_dir fs) (ancestors p).

Definition present (fs : t) (p : path) : bool :=
    match p with
    | [] => true
    | _ :: _ => match fs !! p with Some _ => true | None => false end
    end.

Definition existsSync (fs : t) (p : path) : bool :=
    reachable fs p && present fs p.

Definition readFileSync (fs : t) (p : path) : completion string :=
    if reachable fs p then
      match p, fs !! p with
      | _ :: _, Some (File content _) => Normal content
      | _ :: _, None => Throw (FsError "ENOENT")
      | _, _ => Throw (FsError "EISDIR")
      end
    else Throw (FsError "ENOENT").

  (** [fs.writeFileSync(p, content, { mode })]: the mode only applies to
      a file that the call creates. *)
Definition writeFileSync (p : path) (content : string) (mode : N) (fs : t)
    : t * completion unit :=
    if reachable fs p then
      match p, fs !! p with
      | _ :: _, Some (File _ old_mode) =>
          (<[p := File content old_mode]> fs, Normal tt)
      | _ :: _, None => (<[p := File content mode]> fs, Normal tt)
      | _, _ => (fs, Throw (FsError "EISDIR"))
      end
    else (fs, Throw (FsError "ENOENT")).

Definition unlinkSync (p : path) (fs : t) : t * completion unit :=
    if reachable fs p then
      match p, fs !! p with
      | _ :: _, Some (File _ _) => (delete p fs, Normal tt)
      | _ :: _, None => (fs, Throw (FsError "ENOENT"))
      | _, _ => (fs, Throw (FsError "EPERM"))
      end
    else (fs, Throw (FsError "ENOENT")).

Fixpoint mkdir_each (dirs : list path) (fs : t) : t * completion unit :=
    match dirs with
    | [] => (fs, Normal tt)
    | d :: dirs' =>
        match d, fs !! d with
        | [], _ => mkdir_each dirs' fs
        | _ :: _, None => mkdir_each dirs' (<[d := Dir]> fs)
        | _ :: _, Some Dir => mkdir_each dirs' fs
        | _ :: _, Some (File _ _) => (fs, Throw (FsError "ENOTDIR"))
        end
    end.

  (** [fs.mkdirSync(p, { recursive: true })] *)
Definition mkdirSync (p : path) (fs : t) : t * completion unit :=
    mkdir_each (ancestors p ++ [p]) fs.

End Fs.

(** The node at [p] is a file whose content contains the signature
    marker of the extension. *)
Definition signed (fs : Fs.t) (p : Fs.path) : bool :=
  Fs.reachable fs p &&
  match p, fs !! p with
  | _ :: _, Some (Fs.File content _) => Str.includes content extensionSignature
  | _, _ => false
  end.

(** A computation on the file system that may throw; the file system at
    the point of the throw is kept. *)
Definition fsop (A : Type) : Type := Fs.t -> Fs.t * completion A.

Definition fs_bind {A B : Type} (m : fsop A) (k : A -> fsop B) : fsop B :=
  fun fs =>
    match m fs with
    | (fs', Normal a) => k a fs'
    | (fs', Throw e) => (fs', Throw e)
    end.

Notation "m '>>>' k" := (fs_bind m (fun _ => k))
  (at level 65, right associativity).

Definition fs_skip : fsop unit := fun fs => (fs, Normal tt).

(** ** Hook configuration *)

(** A value of the settings object, as far as the configuration keys
    are typed: absent, a boolean or a string. *)
Inductive jsvalue : Type :=
| JUndefined
| JBool (b : bool)
| JString (s : string).

(** [value || fallback], the result used as a string. *)
Definition or_string (v : jsvalue) (fallback : string) : string :=
  match v with
  | JString s => if Str.truthy s then s else fallback
  | JBool true => "true"
  | _ => fallback
  end.

(** [value !== false] *)
Definition not_false (v : jsvalue) : bool :=
  match v with
  | JBool false => false
  | _ => true
  end.

Definition hooksDir (workspacePath : Fs.path) : Fs.path :=
  workspacePath ++ [".git"; "hooks"].
Definition preCommitHook (workspacePath : Fs.path) : Fs.path :=
  hooksDir workspacePath ++ ["pre-commit"].
Definition commitMsgHook (workspacePath : Fs.path) : Fs.path :=
  hooksDir workspacePath ++ ["commit-msg"].
Definition postCheckoutHook (workspacePath : Fs.path) : Fs.path :=
  hooksDir workspacePath ++ ["post-checkout"].
Definition prePushHook (workspacePath : Fs.path) : Fs.path :=
  hooksDir workspacePath ++ ["pre-push"].

Section Lifecycle.

  (** [JSON.parse(text)] followed by lookups [settings[key]]; [None] when
      parsing throws or yields a value without properties. *)
Variable JSON_parse : string -> option (string -> jsvalue).

  (** [getHookConfig(workspacePath)] *)
Definition getHookConfig (workspacePath : Fs.path) (fs : Fs.t) : Config :=
    let configPath := workspacePath ++ [".vscode"; "settings.json"] in
    if Fs.existsSync fs configPath then
      match Fs.readFileSync fs configPath with
      | Normal text =>
          match JSON_parse text with
          | Some settings =>
              {| branchPattern :=
                   or_string (settings "validateBranch.branchPattern") "jira";
                 commitPattern :=
                   or_string (settings "validateBranch.commitPattern") "jira";
                 enableBranchValidation :=
                   not_false (settings "validateBranch.enableBranchValidation");
                 enableCommitValidation :=
                   not_false (settings "validateBranch.enableCommitValidation");
                 customBranchPattern :=
                   or_string (settings "validateBranch.customBranchPattern") "";
                 customCommitPattern :=
                   or_string (settings "validateBranch.customCommitPattern") "" |}
          | None => defaultConfig
          end
      | Throw _ => defaultConfig
      end
    else defaultConfig.

  (** The four template literals of [installGitHooks], evaluated in the
      order of the source. *)
Definition hook_contents (config : Config)
    : completion (string * string * string * string) :=
    let* preCommit := preCommitContent config in
    let* commitMsg := commitMsgContent config in
    let* prePush := prePushContent config in
    let* postCheckout := postCheckoutContent config in
    Normal (preCommit, commitMsg, prePush, postCheckout).

  (** The body of the [try] block of [installGitHooks]. *)
Definition write_hooks (workspacePath : Fs.path)
      (contents : string * string * string * string) : fsop unit :=
    let '(preCommit, commitMsg, prePush, postCheckout) := contents in
    (fun fs =>
       if Fs.existsSync fs (hooksDir workspacePath) then fs_skip fs
       else Fs.mkdirSync (hooksDir workspacePath) fs) >>>
    Fs.writeFileSync (preCommitHook workspacePath) preCommit 493 >>>
    Fs.writeFileSync (commitMsgHook workspacePath) commitMsg 493 >>>
    Fs.writeFileSync (postCheckoutHook workspacePath) postCheckout 493 >>>
    Fs.writeFileSync (prePushHook workspacePath) prePush 493.

Definition install_ok : notice :=
    InformationMessage
      "‚úÖ Git hooks installed successfully! Terminal git commands will now be validated.".

Definition install_failed (e : exn) : notice :=
    ErrorMessage
      ("Failed to install git hooks: " +:+
       match e with TypeError m => m | FsError m => m end).

  (** [installGitHooks(workspacePath)]: the file system afterwards, the
      messages shown, and how the call completes. *)
Definition installGitHooks (workspacePath : Fs.path) (fs : Fs.t)
    : Fs.t * list notice * completion unit :=
    let config := getHookConfig workspacePath fs in
    match hook_contents config with
    | Throw e => (fs, [], Throw e)
    | Normal contents =>
        match write_hooks workspacePath contents fs with
        | (fs', Normal _) => (fs', [install_ok], Normal tt)
        | (fs', Throw e) => (fs', [install_failed e], Normal tt)
        end
    end.

  (** One round of the [forEach] of [removeGitHooks]. *)
Definition remove_hook (fs : Fs.t) (hookPath : Fs.path) : Fs.t :=
    if Fs.existsSync fs hookPath then
      match Fs.readFileSync fs hookPath with
      | Normal content =>
          if Str.includes content extensionSignature
          then fst (Fs.unlinkSync hookPath fs)
          else fs
      | Throw _ => fs
      end
    else fs.

Definition hook_paths (workspacePath : Fs.path) : list Fs.path :=
    [ preCommitHook workspacePath; commitMsgHook workspacePath;
      postCheckoutHook workspacePath; prePushHook workspacePath ].

  (** [removeGitHooks(workspacePath)] *)
Definition removeGitHooks (workspacePath : Fs.path) (fs : Fs.t) : Fs.t :=
    fold_left remove_hook (hook_paths workspacePath) fs.

  (** The local [hooksInstalled] of [updateStatusBar]. *)
Definition hooksInstalled (workspacePath : Fs.path) (fs : Fs.t) : bool :=
    if Fs.existsSync fs (preCommitHook workspacePath) then
      match Fs.readFileSync fs (preCommitHook workspacePath) with
      | Normal content => Str.includes content extensionSignature
      | Throw _ => false
      end
    else false.

Record StatusBarItem : Type := {
    text : string;
    tooltip : string;
    visible : bool
  }.

  (** [updateStatusBar()], with the result of [getWorkspacePath()]. *)
Definition updateStatusBar (workspacePath : option Fs.path) (fs : Fs.t)
    : StatusBarItem :=
    match workspacePath with
    | None =>
        {| text := "$(warning) VB: No Workspace";
           tooltip := "No workspace folder found";
           visible := true |}
    | Some workspacePath =>
        if hooksInstalled workspacePath fs then
          {| text := "$(check-all) VB: Active";
             tooltip := "Git hooks installed - Branch and commit validation active
Click to open settings";
             visible := true |}
        else
          {| text := "$(circle-outline) VB: Ready";
             tooltip := "Extension loaded - Click to install git hooks or open settings";
             visible := true |}
    end.

  (** The state that [deactivate] touches. *)
Record Extension : Type := {
    globalStatusBarItem : option StatusBarItem;
    files : Fs.t
  }.

  (** [deactivate()], with [vscode.workspace.workspaceFolders]. *)
Definition deactivate (workspaceFolders : option (list Fs.path))
      (ext : Extension) : Extension :=
    {| globalStatusBarItem := None;
       files :=
         match workspaceFolders with
         | Some folders =>
             fold_left (fun fs workspacePath => removeGitHooks workspacePath fs)
                       folders (files ext)
         | None => files ext
         end |}.

End Lifecycle.

(** ** Two sample file systems *)

(** A worktree checkout: the directory [repo] whose [.git] is a file. *)
Definition worktree : Fs.t :=
  <[ ["repo"] := Fs.Dir ]>
    (<[ ["repo"; ".git"] := Fs.File "gitdir: /main/.git/worktrees/repo" 420 ]> ∅).

(** An ordinary checkout: [repo/.git] is a directory. *)
Definition checkout : Fs.t :=
  <[ ["repo"] := Fs.Dir ]> (<[ ["repo"; ".git"] := Fs.Dir ]> ∅).


(** ** The shell that runs the hooks

    A model of the POSIX shell for the constructs of the generated
    scripts: quoting, parameter expansion and command substitution,
    simple commands, pipelines, [&&] and [||] lists, [if], function
    definitions, and the built-ins [echo], [[], [local], [return] and
    [exit].  Everything else ([git], [grep], [cat], ...) is an external
    command whose behaviour is a parameter.  A script outside this
    fragment is rejected, never guessed at. *)

Module Sh.

(** *** Words and tokens *)

(** A piece of a double-quoted string. *)
Inductive dpart : Type :=
| DLit (text : string)
| DVar (name : string)
| DCmd (script : string).

(** A piece of a word.  Quoted text is kept apart from unquoted text:
    only the latter can be a reserved word or an assignment. *)
Inductive part : Type :=
| Lit (text : string)
| Quoted (text : string)
| Dq (pieces : list dpart)
| Var (name : string)
| Cmd (script : string).

Inductive token : Type :=
| TWord (w : list part)
| TIo (fd : string)
| TOp (op : string)
| TNewline.

(** *** Tokenizer

    A state machine that reads one character at a time. *)

(** Quoting inside the text of a command substitution, which is only
    delimited here and parsed when it is run. *)
Inductive subquote : Type :=
| SubPlain
| SubEsc
| SubSq
| SubDq
| SubDqEsc.

Inductive mode : Type :=
| Top
| TopEsc
| Comment
| InSq
| InDq
| DqEsc
| Dollar (indq : bool)
| Name (indq : bool)
| CmdSub (indq : bool) (depth : nat) (q : subquote)
| OpPending (c : ascii)
| Failed.

Record lexer : Type := mkLexer {
  lmode : mode;
  toks : list token;      (* tokens so far, last first *)
  parts : list part;      (* pieces of the current word, last first *)
  dparts : list dpart;    (* pieces of the current double-quoted string *)
  lit : string;           (* literal text being read *)
  aux : string            (* name or command substitution being read *)
}.

Definition snoc (s : string) (c : ascii) : string := s +:+ String c EmptyString.

Definition is_digit (c : ascii) : bool :=
  let n := nat_of_ascii c in (48 <=? n) && (n <=? 57).

Definition is_name_start (c : ascii) : bool :=
  let n := nat_of_ascii c in
  ((65 <=? n) && (n <=? 90)) || ((97 <=? n) && (n <=? 122)) || (n =? 95).

Definition is_name_char (c : ascii) : bool := is_name_start c || is_digit c.

(** The special parameters: [@ * # ? - $ !]. *)
Definition is_special_param (c : ascii) : bool :=
  existsb (Ascii.eqb c) ["@"; "*"; "#"; "?"; "-"; "$"; "!"]%char.

Definition all_digits (s : string) : bool :=
  Str.truthy s && forallb is_digit (Str.chars s).

(** The pieces of the current word, with pending literal text added. *)
Definition flushed (l : lexer) : list part :=
  match lit l with
  | EmptyString => parts l
  | text => Lit text :: parts l
  end.

Definition dflushed (l : lexer) : list dpart :=
  match lit l with
  | EmptyString => dparts l
  | text => DLit text :: dparts l
  end.

(** The pieces of a double-quoted string at its closing quote: its
    text when it holds no expansion. *)
Definition quoted_pieces (l : lexer) : list dpart :=
  match dparts l with
  | [] => [DLit (lit l)]
  | _ => rev (dflushed l)
  end.

(** The tokens so far, the current word closed if there is one. *)
Definition closed (l : lexer) : list token :=
  match flushed l with
  | [] => toks l
  | ps => TWord (rev ps) :: toks l
  end.

Definition fresh (m : mode) (ts : list token) : lexer :=
  mkLexer m ts [] [] "" "".

(** Back to the text around an expansion, with one more piece. *)
Definition resume (indq : bool) (l : lexer) (p : part) (d : dpart) : lexer :=
  if indq
  then mkLexer InDq (toks l) (parts l) (d :: dflushed l) "" ""
  else mkLexer Top (toks l) (p :: flushed l) [] "" "".

(** One character outside quotes. *)
Definition step_top (l : lexer) (c : ascii) : lexer :=
  let n := nat_of_ascii c in
  if n =? 92 then mkLexer TopEsc (toks l) (parts l) [] (lit l) ""
  else if n =? 39 then mkLexer InSq (toks l) (flushed l) [] "" ""
  else if n =? 34 then mkLexer InDq (toks l) (flushed l) [] "" ""
  else if n =? 36 then mkLexer (Dollar false) (toks l) (parts l) [] (lit l) ""
  else if n =? 96 then fresh Failed (toks l)
  else if (n =? 35) && match flushed l with [] => true | _ => false end
       then fresh Comment (toks l)
  else if (n =? 32) || (n =? 9) then fresh Top (closed l)
  else if n =? 10 then fresh Top (TNewline :: closed l)
  else if (n =? 59) || (n =? 40) || (n =? 41)
       then fresh Top (TOp (String c "") :: closed l)
  else if (n =? 124) || (n =? 38) then fresh (OpPending c) (closed l)
  else if (n =? 60) || (n =? 62) then
    match parts l with
    | [] => if all_digits (lit l)
            then fresh Top (TOp (String c "") :: TIo (lit l) :: toks l)
            else fresh Top (TOp (String c "") :: closed l)
    | _ => fresh Top (TOp (String c "") :: closed l)
    end
  else mkLexer Top (toks l) (parts l) [] (snoc (lit l) c) "".

(** One character between double quotes. *)
Definition step_dq (l : lexer) (c : ascii) : lexer :=
  let n := nat_of_ascii c in
  if n =? 34
  then mkLexer Top (toks l) (Dq (quoted_pieces l) :: parts l) [] "" ""
  else if n =? 92 then mkLexer DqEsc (toks l) (parts l) (dparts l) (lit l) ""
  else if n =? 36
       then mkLexer (Dollar true) (toks l) (parts l) (dparts l) (lit l) ""
  else if n =? 96 then fresh Failed (toks l)
  else mkLexer InDq (toks l) (parts l) (dparts l) (snoc (lit l) c) "".

(** One character of the text of a command substitution; [None] at the
    closing parenthesis. *)
Definition step_sub (depth : nat) (q : subquote) (c : ascii)
  : option (nat * subquote) :=
  let n := nat_of_ascii c in
  match q with
  | SubPlain =>
      if n =? 41 then match depth with 0 => None | S d => Some (d, SubPlain) end
      else if n =? 40 then Some (S depth, SubPlain)
      else if n =? 92 then Some (depth, SubEsc)
      else if n =? 39 then Some (depth, SubSq)
      else if n =? 34 then Some (depth, SubDq)
      else Some (depth, SubPlain)
  | SubEsc => Some (depth, SubPlain)
  | SubSq => Some (depth, if n =? 39 then SubPlain else SubSq)
  | SubDq =>
      Some (depth, if n =? 34 then SubPlain
                   else if n =? 92 then SubDqEsc else SubDq)
  | SubDqEsc => Some (depth, SubDq)
  end.

Definition step (l : lexer) (c : ascii) : lexer :=
  let n := nat_of_ascii c in
  match lmode l with
  | Top => step_top l c
  | TopEsc =>
      if n =? 10 then mkLexer Top (toks l) (parts l) [] (lit l) ""
      else mkLexer Top (toks l) (Quoted (String c "") :: flushed l) [] "" ""
  | Comment =>
      if n =? 10 then fresh Top (TNewline :: toks l) else l
  | InSq =>
      if n =? 39
      then mkLexer Top (toks l) (Quoted (lit l) :: parts l) [] "" ""
      else mkLexer InSq (toks l) (parts l) [] (snoc (lit l) c) ""
  | InDq => step_dq l c
  | DqEsc =>
      if (n =? 36) || (n =? 96) || (n =? 34) || (n =? 92)
      then mkLexer InDq (toks l) (parts l) (dparts l) (snoc (lit l) c) ""
      else if n =? 10
      then mkLexer InDq (toks l) (parts l) (dparts l) (lit l) ""
      else mkLexer InDq (toks l) (parts l) (dparts l)
                   (snoc (snoc (lit l) "\") c) ""
  | Dollar indq =>
      if n =? 40
      then mkLexer (CmdSub indq 0 SubPlain) (toks l) (parts l) (dparts l) (lit l) ""
      else if n =? 123 then fresh Failed (toks l)
      else if is_name_start c
      then mkLexer (Name indq) (toks l) (parts l) (dparts l) (lit l) (String c "")
      else if is_digit c || is_special_param c
      then resume indq l (Var (String c "")) (DVar (String c ""))
      else
        let l' := mkLexer (if indq then InDq else Top) (toks l) (parts l)
                          (dparts l) (snoc (lit l) "$") "" in
        if indq then step_dq l' c else step_top l' c
  | Name indq =>
      if is_name_char c
      then mkLexer (Name indq) (toks l) (parts l) (dparts l) (lit l) (snoc (aux l) c)
      else
        let l' := resume indq l (Var (aux l)) (DVar (aux l)) in
        if indq then step_dq l' c else step_top l' c
  | CmdSub indq depth q =>
      match step_sub depth q c with
      | Some (depth', q') =>
          mkLexer (CmdSub indq depth' q') (toks l) (parts l) (dparts l) (lit l)
                  (snoc (aux l) c)
      | None => resume indq l (Cmd (aux l)) (DCmd (aux l))
      end
  | OpPending c0 =>
      if Ascii.eqb c c0
      then fresh Top (TOp (String c0 (String c "")) :: toks l)
      else step_top (fresh Top (TOp (String c0 "") :: toks l)) c
  | Failed => l
  end.

(** The tokens at the end of the input, unless a quotation or an
    expansion is left open. *)
Definition finish (l : lexer) : option (list token) :=
  match lmode l with
  | Top => Some (rev (closed l))
  | Comment => Some (rev (toks l))
  | Dollar false =>
      Some (rev (closed (mkLexer Top (toks l) (parts l) [] (snoc (lit l) "$") "")))
  | Name false => Some (rev (closed (resume false l (Var (aux l)) (DVar (aux l)))))
  | OpPending c0 => Some (rev (TOp (String c0 "") :: toks l))
  | _ => None
  end.

Definition scan (l : lexer) (text : list ascii) : lexer := fold_left step text l.

Definition tokenize (script : string) : option (list token) :=
  finish (scan (fresh Top []) (Str.chars script)).

(** *** Text that is inert between double quotes *)

(** After [$], the characters that start an expansion. *)
Definition expands (d : ascii) : bool :=
  let n := nat_of_ascii d in
  (n =? 40) || (n =? 123) || is_name_start d || is_digit d || is_special_param d.

(** The text that the shell reads for [cs] between double quotes, when
    [cs] holds nothing but literal text there: no closing quote, no
    expansion, no backslash left open at the end.  A backslash is
    dropped before [$], a back quote, a double quote, a backslash and a
    newline, and kept otherwise. *)
Fixpoint literal_dq (cs : list ascii) : option string :=
  match cs with
  | [] => Some EmptyString
  | c :: cs' =>
      let n := nat_of_ascii c in
      if (n =? 34) || (n =? 96) then None
      else if n =? 92 then
        match cs' with
        | [] => None
        | d :: cs'' =>
            let m := nat_of_ascii d in
            match literal_dq cs'' with
            | Some v =>
                Some (if (m =? 36) || (m =? 96) || (m =? 34) || (m =? 92)
                      then String d v
                      else if m =? 10 then v
                      else String c (String d v))
            | None => None
            end
        end
      else if n =? 36 then
        match cs' with
        | [] => Some (String c EmptyString)
        | d :: _ =>
            if expands d then None
            else
              match literal_dq cs' with
              | Some v => Some (String c v)
              | None => None
              end
        end
      else
        match literal_dq cs' with
        | Some v => Some (String c v)
        | None => None
        end
  end.

(** The value of [s] as the content of a double-quoted string. *)
Definition inert (s : string) : option string := literal_dq (Str.chars s).

(** *** Commands *)

Abbreviation word := (list part).

Inductive redir : Type :=
| Redir (fd : string) (op : string) (target : word).

#[warnings="-register-all"]
Inductive cmd : Type :=
| Simple (assigns : list (string * word)) (words : list word) (redirs : list redir)
| Pipeline (bang : bool) (stages : list cmd)
| AndThen (a b : cmd)
| OrElse (a b : cmd)
| Block (body : list cmd)
| If (cond yes no : list cmd)
| Fun (name : string) (body : cmd).

(** *** Parser *)

Definition reserved : list string :=
  [ "if"; "then"; "else"; "elif"; "fi"; "do"; "done"; "while"; "until";
    "for"; "case"; "esac"; "in"; "{"; "}"; "!" ].

Definition is_reserved (s : string) : bool := existsb (String.eqb s) reserved.

Definition is_name (s : string) : bool :=
  match Str.chars s with
  | c :: cs => is_name_start c && forallb is_name_char cs
  | [] => false
  end.

(** [name=rest] split at the first [=], when [name] is a name. *)
Fixpoint split_assign (name : string) (s : string) : option (string * string) :=
  match s with
  | EmptyString => None
  | String c s' =>
      if Ascii.eqb c "="
      then if is_name name then Some (name, s') else None
      else split_assign (snoc name c) s'
  end.

Definition as_assignment (w : word) : option (string * word) :=
  match w with
  | Lit text :: ps =>
      match split_assign "" text with
      | Some (name, EmptyString) => Some (name, ps)
      | Some (name, rest) => Some (name, Lit rest :: ps)
      | None => None
      end
  | _ => None
  end.

Definition is_redir_op (op : string) : bool :=
  String.eqb op "<" || String.eqb op ">".

(** A simple command: assignments, then words, with redirections
    anywhere; it ends at the first token that is neither. *)
Fixpoint parse_simple (ts : list token) (assigns : list (string * word))
    (words : list word) (redirs : list redir) : option (cmd * list token) :=
  let stop :=
    match assigns, words, redirs with
    | [], [], [] => None
    | _, _, _ => Some (Simple (rev assigns) (rev words) (rev redirs), ts)
    end in
  match ts with
  | TWord w :: ts' =>
      match words, as_assignment w with
      | [], Some a => parse_simple ts' (a :: assigns) words redirs
      | _, _ => parse_simple ts' assigns (w :: words) redirs
      end
  | TIo fd :: TOp op :: TWord w :: ts' =>
      if is_redir_op op
      then parse_simple ts' assigns words (Redir fd op w :: redirs)
      else None
  | TIo _ :: _ => None
  | TOp op :: ts' =>
      if is_redir_op op then
        match ts' with
        | TWord w :: ts'' =>
            parse_simple ts'' assigns words
              (Redir (if String.eqb op "<" then "0" else "1") op w :: redirs)
        | _ => None
        end
      else stop
  | _ => stop
  end.

Fixpoint skip_newlines (ts : list token) : list token :=
  match ts with
  | TNewline :: ts' => skip_newlines ts'
  | _ => ts
  end.

(** The reserved word at the head of the tokens, if any. *)
Definition keyword (ts : list token) : option string :=
  match ts with
  | TWord [Lit s] :: _ => if is_reserved s then Some s else None
  | _ => None
  end.

(** A list of commands ends before a closing reserved word, a closing
    parenthesis, or at the end of the input. *)
Definition at_closer (ts : list token) : bool :=
  match ts with
  | [] => true
  | TOp ")" :: _ => true
  | _ =>
      match keyword ts with
      | Some k => existsb (String.eqb k) ["then"; "else"; "elif"; "fi"; "do"; "done"; "}"]
      | None => false
      end
  end.

Definition expect (k : string) (ts : list token) : option (list token) :=
  match ts with
  | TWord [Lit s] :: ts' => if String.eqb s k then Some ts' else None
  | _ => None
  end.

Definition nonempty {A : Type} (r : option (list A * list token))
  : option (list A * list token) :=
  match r with
  | Some ([], _) => None
  | _ => r
  end.

(** Recursive descent; [n] bounds the depth of the descent. *)
Fixpoint parse_list (n : nat) (ts : list token) {struct n}
  : option (list cmd * list token) :=
  match n with
  | 0 => None
  | S n =>
      let ts := skip_newlines ts in
      if at_closer ts then Some ([], ts)
      else
        match parse_and_or n ts with
        | Some (c, rest) =>
            let more :=
              match rest with
              | TOp ";" :: rest' => Some rest'
              | TNewline :: rest' => Some rest'
              | _ => if at_closer rest then Some rest else None
              end in
            match more with
            | Some rest' =>
                match parse_list n rest' with
                | Some (cs, rest'') => Some (c :: cs, rest'')
                | None => None
                end
            | None => None
            end
        | None => None
        end
  end

with parse_and_or (n : nat) (ts : list token) {struct n}
  : option (cmd * list token) :=
  match n with
  | 0 => None
  | S n =>
      match parse_pipeline n ts with
      | Some (c, rest) => parse_and_or_rest n c rest
      | None => None
      end
  end

with parse_and_or_rest (n : nat) (left : cmd) (ts : list token) {struct n}
  : option (cmd * list token) :=
  match n with
  | 0 => None
  | S n =>
      match ts with
      | TOp "&&" :: rest =>
          match parse_pipeline n (skip_newlines rest) with
          | Some (c, rest') => parse_and_or_rest n (AndThen left c) rest'
          | None => None
          end
      | TOp "||" :: rest =>
          match parse_pipeline n (skip_newlines rest) with
          | Some (c, rest') => parse_and_or_rest n (OrElse left c) rest'
          | None => None
          end
      | _ => Some (left, ts)
      end
  end

with parse_pipeline (n : nat) (ts : list token) {struct n}
  : option (cmd * list token) :=
  match n with
  | 0 => None
  | S n =>
      let '(bang, ts) :=
        match ts with
        | TWord [Lit "!"] :: rest => (true, rest)
        | _ => (false, ts)
        end in
      match parse_stages n ts with
      | Some ([c], rest) =>
          Some (if bang then Pipeline true [c] else c, rest)
      | Some (cs, rest) => Some (Pipeline bang cs, rest)
      | None => None
      end
  end

with parse_stages (n : nat) (ts : list token) {struct n}
  : option (list cmd * list token) :=
  match n with
  | 0 => None
  | S n =>
      match parse_command n ts with
      | Some (c, TOp "|" :: rest) =>
          match parse_stages n (skip_newlines rest) with
          | Some (cs, rest') => Some (c :: cs, rest')
          | None => None
          end
      | Some (c, rest) => Some ([c], rest)
      | None => None
      end
  end

with parse_command (n : nat) (ts : list token) {struct n}
  : option (cmd * list token) :=
  match n with
  | 0 => None
  | S n =>
      match ts with
      | TWord [Lit name] :: TOp "(" :: TOp ")" :: rest =>
          if is_reserved name || negb (is_name name) then None
          else
            match parse_command n (skip_newlines rest) with
            | Some (Block body, rest') => Some (Fun name (Block body), rest')
            | Some (If c y e, rest') => Some (Fun name (If c y e), rest')
            | _ => None
            end
      | TOp _ :: _ => None
      | _ =>
          match keyword ts with
          | Some "if" => parse_if n (tl ts)
          | Some "{" =>
              match nonempty (parse_list n (tl ts)) with
              | Some (body, rest) =>
                  match expect "}" rest with
                  | Some rest' => Some (Block body, rest')
                  | None => None
                  end
              | None => None
              end
          | Some _ => None
          | None => parse_simple ts [] [] []
          end
      end
  end

(** After [if] or [elif]. *)
with parse_if (n : nat) (ts : list token) {struct n}
  : option (cmd * list token) :=
  match n with
  | 0 => None
  | S n =>
      match nonempty (parse_list n ts) with
      | Some (cond, rest) =>
          match expect "then" rest with
          | Some rest =>
              match nonempty (parse_list n rest) with
              | Some (yes, rest) =>
                  match keyword rest with
                  | Some "fi" => Some (If cond yes [], tl rest)
                  | Some "else" =>
                      match nonempty (parse_list n (tl rest)) with
                      | Some (no, rest) =>
                          match expect "fi" rest with
                          | Some rest => Some (If cond yes no, rest)
                          | None => None
                          end
                      | None => None
                      end
                  | Some "elif" =>
                      match parse_if n (tl rest) with
                      | Some (nested, rest) => Some (If cond yes [nested], rest)
                      | None => None
                      end
                  | _ => None
                  end
              | None => None
              end
          | None => None
          end
      | None => None
      end
  end.

(** The commands of a script; [None] when it is not in the fragment. *)
Definition parse (script : string) : option (list cmd) :=
  match tokenize script with
  | Some ts =>
      match parse_list (8 + 8 * length ts) ts with
      | Some (cs, []) => Some cs
      | _ => None
      end
  | None => None
  end.

(** *** Execution *)

(** The shell's own state.  [locals] records, for the function being
    run, the variables declared with [local] and what they held before. *)
Record shell : Type := mkShell {
  vars : list (string * string);
  funs : list (string * cmd);
  positional : list string;
  locals : list (string * option string);
  last : nat
}.

(** How a command ends: normally, by [return], or by [exit]. *)
Inductive flow : Type :=
| Next
| Returning
| Exiting.

(** The effects of a command: its exit status, the shell afterwards, what
    it wrote to standard output, and every external command run so far
    (the oldest first). *)
Record result : Type := mkResult {
  flow_of : flow;
  status : nat;
  shell_of : shell;
  out : string;
  history : list (list string)
}.

Inductive outcome (A : Type) : Type :=
| Done (a : A)
| OutOfFuel
| Unsupported.
Arguments Done {A} a.
Arguments OutOfFuel {A}.
Arguments Unsupported {A}.

Definition andThen {A B : Type} (o : outcome A) (k : A -> outcome B) : outcome B :=
  match o with
  | Done a => k a
  | OutOfFuel => OutOfFuel
  | Unsupported => Unsupported
  end.

Notation "'do' x '<-' o ';' k" := (andThen o (fun x => k))
  (at level 10, x name, o at level 100, k at level 200).

Fixpoint assoc {A : Type} (key : string) (l : list (string * A)) : option A :=
  match l with
  | [] => None
  | (k, v) :: l' => if String.eqb k key then Some v else assoc key l'
  end.

Fixpoint unset {A : Type} (key : string) (l : list (string * A)) : list (string * A) :=
  match l with
  | [] => []
  | (k, v) :: l' => if String.eqb k key then unset key l' else (k, v) :: unset key l'
  end.

Definition set_var (name value : string) (sh : shell) : shell :=
  mkShell ((name, value) :: unset name (vars sh)) (funs sh) (positional sh)
          (locals sh) (last sh).

Definition digit_value (c : ascii) : nat := nat_of_ascii c - 48.

Fixpoint nat_of_digits (acc : nat) (cs : list ascii) : option nat :=
  match cs with
  | [] => Some acc
  | c :: cs' =>
      if is_digit c then nat_of_digits (10 * acc + digit_value c) cs' else None
  end.

Definition parse_nat (s : string) : option nat :=
  match Str.chars s with
  | [] => None
  | cs => nat_of_digits 0 cs
  end.

Fixpoint digits_of_nat (fuel n : nat) (acc : string) : string :=
  match fuel with
  | 0 => acc
  | S fuel' =>
      let acc' := String (ascii_of_nat (48 + n mod 10)) acc in
      if n <? 10 then acc' else digits_of_nat fuel' (n / 10) acc'
  end.

Definition string_of_nat (n : nat) : string := digits_of_nat (S n) n "".

(** The value of a parameter; an unset one expands to nothing. *)
Definition parameter (sh : shell) (name : string) : outcome string :=
  match Str.chars name with
  | [c] =>
      if is_digit c then
        match digit_value c with
        | 0 => Unsupported
        | S i => Done (nth i (positional sh) "")
        end
      else if Ascii.eqb c "?" then Done (string_of_nat (last sh))
      else if Ascii.eqb c "#" then Done (string_of_nat (length (positional sh)))
      else if is_special_param c then Unsupported
      else Done (match assoc name (vars sh) with Some v => v | None => "" end)
  | _ => Done (match assoc name (vars sh) with Some v => v | None => "" end)
  end.

(** Command substitution drops the trailing newlines of the output. *)
Fixpoint drop_newlines (rev_text : list ascii) : list ascii :=
  match rev_text with
  | c :: t => if Nat.eqb (nat_of_ascii c) 10 then drop_newlines t else rev_text
  | [] => []
  end.

Definition chomp (s : string) : string :=
  string_of_list_ascii (rev (drop_newlines (rev (Str.chars s)))).

(** Comparison of two strings by the test built-in. *)
Definition same_text (a b : string) : bool := String.eqb a b.

(** The test built-in, for the operators of the scripts. *)
Definition test_builtin (args : list string) : outcome nat :=
  let status (b : bool) := Done (if b then 0 else 1) in
  match args with
  | [] => status false
  | [s] => status (Str.truthy s)
  | [op; s] =>
      if String.eqb op "-n" then status (Str.truthy s)
      else if String.eqb op "-z" then status (negb (Str.truthy s))
      else if String.eqb op "!" then status (negb (Str.truthy s))
      else Unsupported
  | [a; op; b] =>
      if String.eqb op "=" then status (same_text a b)
      else if String.eqb op "!=" then status (negb (same_text a b))
      else Unsupported
  | _ => Unsupported
  end.

Definition bracket_builtin (args : list string) : outcome nat :=
  match rev args with
  | "]"%string :: rev_args => test_builtin (rev rev_args)
  | _ => Unsupported
  end.

Definition echo_builtin (args : list string) : string :=
  match args with
  | "-n"%string :: args' => Str.join " " args'
  | _ => Str.join " " args +:+ String "010" ""
  end.

(** [local name=value] or [local name], on expanded arguments. *)
Fixpoint split_at_equals (name : string) (s : string) : string * option string :=
  match s with
  | EmptyString => (name, None)
  | String c s' =>
      if Ascii.eqb c "=" then (name, Some s') else split_at_equals (snoc name c) s'
  end.

Definition declare_local (sh : shell) (arg : string) : outcome shell :=
  let '(name, value) := split_at_equals "" arg in
  if is_name name then
    let saved := (name, assoc name (vars sh)) :: locals sh in
    let value := match value with Some v => v | None => "" end in
    Done (mkShell ((name, value) :: unset name (vars sh)) (funs sh)
                  (positional sh) saved (last sh))
  else Unsupported.

Fixpoint declare_locals (sh : shell) (args : list string) : outcome shell :=
  match args with
  | [] => Done sh
  | a :: args' => do sh' <- declare_local sh a; declare_locals sh' args'
  end.

(** Undo the [local] declarations of a function that returns. *)
Fixpoint restore (saved : list (string * option string))
    (vs : list (string * string)) : list (string * string) :=
  match saved with
  | [] => vs
  | (name, Some v) :: saved' => restore saved' ((name, v) :: unset name vs)
  | (name, None) :: saved' => restore saved' (unset name vs)
  end.

(** An exit status given as argument, or the last one. *)
Definition status_arg (sh : shell) (args : list string) : outcome nat :=
  match args with
  | [] => Done (last sh)
  | [s] => match parse_nat s with Some n => Done (n mod 256) | None => Unsupported end
  | _ => Unsupported
  end.

(** Only [2>target] is accepted: standard error is not modelled. *)
Definition harmless (r : redir) : bool :=
  match r with
  | Redir fd op _ => String.eqb fd "2" && String.eqb op ">"
  end.

Definition negated (n : nat) : nat := match n with 0 => 1 | _ => 0 end.

(** What an external command answers. *)
Record reply : Type := mkReply {
  reply_output : string;
  reply_status : nat
}.

Section Exec.

(** An external command: from the commands run before, its arguments
    (the name first) and its standard input, to its output and status. *)
Variable ext : list (list string) -> list string -> string -> reply.

(** What an expansion has produced so far. *)
Record expansion : Type := mkExpansion {
  text_of : string;
  calls_of : list (list string);
  sub_status : option nat
}.

(** The interpreter is written in continuation-passing style: every
    function takes what to do with its result, and the answer is that of
    the whole run: its exit status, its output and the external commands
    it ran. *)
Definition answer : Type := outcome (nat * string * list (list string)).

Definition with_value {A : Type} (o : outcome A) (k : A -> answer) : answer :=
  match o with
  | Done a => k a
  | OutOfFuel => OutOfFuel
  | Unsupported => Unsupported
  end.

Section Level.

(** [run cs sh stdin calls k] runs a list of commands one level down. *)
Variable run :
  list cmd -> shell -> string -> list (list string) -> (result -> answer) -> answer.

Definition substitute (script : string) (sh : shell) (stdin : string)
    (e : expansion) (k : expansion -> answer) : answer :=
  match parse script with
  | None => Unsupported
  | Some cs =>
      run cs sh stdin (calls_of e)
          (fun r => k (mkExpansion (text_of e +:+ chomp (out r)) (history r)
                                   (Some (status r))))
  end.

Definition add_text (e : expansion) (text : string) : expansion :=
  mkExpansion (text_of e +:+ text) (calls_of e) (sub_status e).

Fixpoint expand_dq (ds : list dpart) (sh : shell) (stdin : string)
    (e : expansion) (k : expansion -> answer) : answer :=
  match ds with
  | [] => k e
  | DLit text :: ds' => expand_dq ds' sh stdin (add_text e text) k
  | DVar name :: ds' =>
      with_value (parameter sh name)
        (fun v => expand_dq ds' sh stdin (add_text e v) k)
  | DCmd script :: ds' =>
      substitute script sh stdin e (fun e' => expand_dq ds' sh stdin e' k)
  end.

(** The expansion of a word to one field.  Outside an assignment an
    unquoted expansion would be split into fields, which is not
    modelled. *)
Fixpoint expand (splitting : bool) (w : word) (sh : shell) (stdin : string)
    (e : expansion) (k : expansion -> answer) : answer :=
  match w with
  | [] => k e
  | Lit text :: w' | Quoted text :: w' =>
      expand splitting w' sh stdin (add_text e text) k
  | Dq ds :: w' =>
      expand_dq ds sh stdin e (fun e' => expand splitting w' sh stdin e' k)
  | Var name :: w' =>
      if splitting then Unsupported
      else
        with_value (parameter sh name)
          (fun v => expand splitting w' sh stdin (add_text e v) k)
  | Cmd script :: w' =>
      if splitting then Unsupported
      else
        substitute script sh stdin e
          (fun e' => expand splitting w' sh stdin e' k)
  end.

(** The fields of the words of a command, left to right. *)
Fixpoint expand_words (ws : list word) (sh : shell) (stdin : string)
    (calls : list (list string)) (sub : option nat)
    (k : list string -> list (list string) -> option nat -> answer) : answer :=
  match ws with
  | [] => k [] calls sub
  | w :: ws' =>
      expand true w sh stdin (mkExpansion "" calls sub)
        (fun e =>
           expand_words ws' sh stdin (calls_of e) (sub_status e)
             (fun fields => k (text_of e :: fields)))
  end.

Fixpoint assign_all (assigns : list (string * word)) (sh : shell) (stdin : string)
    (calls : list (list string)) (sub : option nat)
    (k : shell -> list (list string) -> option nat -> answer) : answer :=
  match assigns with
  | [] => k sh calls sub
  | (name, w) :: assigns' =>
      expand false w sh stdin (mkExpansion "" calls sub)
        (fun e =>
           assign_all assigns' (set_var name (text_of e) sh) stdin
                      (calls_of e) (sub_status e) k)
  end.

(** A function call: the arguments become the positional parameters;
    on return they and the variables declared [local] are restored. *)
Definition call (body : cmd) (args : list string) (sh : shell) (stdin : string)
    (calls : list (list string)) (k : result -> answer) : answer :=
  run [body] (mkShell (vars sh) (funs sh) args [] (last sh)) stdin calls
      (fun r =>
         let sh' := shell_of r in
         k (mkResult (match flow_of r with Exiting => Exiting | _ => Next end)
                     (status r)
                     (mkShell (restore (locals sh') (vars sh')) (funs sh')
                              (positional sh) (locals sh) (last sh'))
                     (out r) (history r))).

(** A command name with its arguments. *)
Definition dispatch (name : string) (args : list string) (sh : shell)
    (stdin : string) (calls : list (list string)) (k : result -> answer)
  : answer :=
  if String.eqb name "exit" then
    with_value (status_arg sh args) (fun n => k (mkResult Exiting n sh "" calls))
  else if String.eqb name "return" then
    with_value (status_arg sh args) (fun n => k (mkResult Returning n sh "" calls))
  else if String.eqb name "local" then
    with_value (declare_locals sh args)
               (fun sh' => k (mkResult Next 0 sh' "" calls))
  else
    match assoc name (funs sh) with
    | Some body => call body args sh stdin calls k
    | None =>
        if String.eqb name "echo" then
          k (mkResult Next 0 sh (echo_builtin args) calls)
        else if String.eqb name "[" then
          with_value (bracket_builtin args)
                     (fun n => k (mkResult Next n sh "" calls))
        else if String.eqb name "test" then
          with_value (test_builtin args)
                     (fun n => k (mkResult Next n sh "" calls))
        else
          let answered := ext calls (name :: args) stdin in
          k (mkResult Next (reply_status answered) sh (reply_output answered)
                      (calls ++ [name :: args]))
    end.

(** The stages of a pipeline, each in a copy of the shell, the output
    of one being the input of the next. *)
Fixpoint pipe (stages : list cmd) (sh : shell) (stdin : string)
    (calls : list (list string)) (st : nat) (k : result -> answer) : answer :=
  match stages with
  | [] => k (mkResult Next st sh stdin calls)
  | c :: stages' =>
      run [c] sh stdin calls
          (fun r => pipe stages' sh (out r) (history r) (status r) k)
  end.

(** The result of two commands run one after the other. *)
Definition after (ra rb : result) : result :=
  mkResult (flow_of rb) (status rb) (shell_of rb) (out ra +:+ out rb)
           (history rb).

(** One command. *)
Definition exec1 (c : cmd) (sh : shell) (stdin : string)
    (calls : list (list string)) (k : result -> answer) : answer :=
  match c with
  | Simple assigns words redirs =>
      if forallb harmless redirs then
        expand_words words sh stdin calls None
          (fun fields calls1 sub1 =>
             match fields with
             | [] =>
                 assign_all assigns sh stdin calls1 sub1
                   (fun sh' calls2 sub2 =>
                      k (mkResult Next
                                  (match sub2 with Some n => n | None => 0 end)
                                  sh' "" calls2))
             | name :: args =>
                 match assigns with
                 | [] => dispatch name args sh stdin calls1 k
                 | _ :: _ => Unsupported
                 end
             end)
      else Unsupported
  | Pipeline bang [c'] =>
      run [c'] sh stdin calls
          (fun r =>
             k (match flow_of r with
                | Next =>
                    mkResult Next (if bang then negated (status r) else status r)
                             (shell_of r) (out r) (history r)
                | _ => r
                end))
  | Pipeline bang stages =>
      pipe stages sh stdin calls 0
           (fun r =>
              k (mkResult Next (if bang then negated (status r) else status r)
                          sh (out r) (history r)))
  | AndThen a b =>
      run [a] sh stdin calls
          (fun ra =>
             match flow_of ra, status ra with
             | Next, 0 =>
                 run [b] (shell_of ra) stdin (history ra)
                     (fun rb => k (after ra rb))
             | _, _ => k ra
             end)
  | OrElse a b =>
      run [a] sh stdin calls
          (fun ra =>
             match flow_of ra, status ra with
             | Next, S _ =>
                 run [b] (shell_of ra) stdin (history ra)
                     (fun rb => k (after ra rb))
             | _, _ => k ra
             end)
  | Block body => run body sh stdin calls k
  | If cond yes no =>
      run cond sh stdin calls
          (fun rc =>
             match flow_of rc with
             | Next =>
                 match status rc, no with
                 | 0, _ =>
                     run yes (shell_of rc) stdin (history rc)
                         (fun rb => k (after rc rb))
                 | S _, [] =>
                     k (mkResult Next 0 (shell_of rc) (out rc) (history rc))
                 | S _, _ =>
                     run no (shell_of rc) stdin (history rc)
                         (fun rb => k (after rc rb))
                 end
             | _ => k rc
             end)
  | Fun name body =>
      k (mkResult Next 0
           (mkShell (vars sh) ((name, body) :: unset name (funs sh))
                    (positional sh) (locals sh) (last sh))
           "" calls)
  end.

(** The shell after a command, its status recorded. *)
Definition settled (r : result) : shell :=
  mkShell (vars (shell_of r)) (funs (shell_of r)) (positional (shell_of r))
          (locals (shell_of r)) (status r).

(** A list of commands, one after the other, until one of them returns
    or exits. *)
Fixpoint exec_list (cs : list cmd) (sh : shell) (stdin : string)
    (calls : list (list string)) (st : nat) (output : string)
    (k : result -> answer) : answer :=
  match cs with
  | [] => k (mkResult Next st sh output calls)
  | c :: cs' =>
      exec1 c sh stdin calls
        (fun r =>
           match flow_of r with
           | Next =>
               exec_list cs' (settled r) stdin (history r) (status r)
                         (output +:+ out r) k
           | fl =>
               k (mkResult fl (status r) (settled r) (output +:+ out r)
                           (history r))
           end)
  end.

End Level.

(** [fuel] bounds the nesting of commands, calls and substitutions. *)
Fixpoint exec (fuel : nat) (cs : list cmd) (sh : shell) (stdin : string)
    (calls : list (list string)) (k : result -> answer) : answer :=
  match fuel with
  | 0 => OutOfFuel
  | S fuel' => exec_list (exec fuel') cs sh stdin calls (last sh) "" k
  end.

(** Running a script with arguments. *)
Definition run_script (fuel : nat) (script : string) (args : list string)
    (stdin : string) : answer :=
  match parse script with
  | None => Unsupported
  | Some cs =>
      exec fuel cs (mkShell [] [] args [] 0) stdin []
           (fun r => Done (status r, out r, history r))
  end.

End Exec.

(** The exit status of a run that ends. *)
Definition exit_status (o : outcome (nat * string * list (list string)))
  : option nat :=
  match o with
  | Done (st, _, _) => Some st
  | _ => None
  end.

(** A run that ends, and whose status and external commands satisfy [P]. *)
Definition run_satisfies (P : nat -> list (list string) -> Prop)
    (o : outcome (nat * string * list (list string))) : Prop :=
  match o with
  | Done (st, _, calls) => P st calls
  | _ => False
  end.

(** The external commands of a run that ends. *)
Definition commands_run (o : outcome (nat * string * list (list string)))
  : option (list (list string)) :=
  match o with
  | Done (_, _, calls) => Some calls
  | _ => None
  end.

(** *** Comparing runs

    Used to show that more fuel changes nothing. *)

(** [k'] answers whenever [k] does, and the same. *)
Definition refines {A : Type} (k k' : A -> answer) : Prop :=
  forall x a, k x = Done a -> k' x = Done a.

Definition refines3 {A B C : Type} (k k' : A -> B -> C -> answer) : Prop :=
  forall x y z a, k x y z = Done a -> k' x y z = Done a.

Definition run_refines
    (run run' : list cmd -> shell -> string -> list (list string) ->
                (result -> answer) -> answer) : Prop :=
  forall cs sh stdin calls k k',
    refines k k' ->
    forall a, run cs sh stdin calls k = Done a ->
              run' cs sh stdin calls k' = Done a.

End Sh.

(** ** The hooks as the shell runs them *)

(** The external commands of the templates that validate a branch name:
    [git], to read the name, and [grep] with the expression [e]. *)
Definition branch_hook_command (e : string) (argv : list string) : Prop :=
  argv = ["git"; "branch"; "--show-current"] \/
  argv = ["git"; "rev-parse"; "--abbrev-ref"; "HEAD"] \/
  argv = ["grep"; "-qE"; e].

(** Those of the commit-msg template: [cat] on the message file given as
    first argument, and [grep] with the expression [e]. *)
Definition commit_hook_command (args : list string) (e : string)
    (argv : list string) : Prop :=
  argv = ["cat"; nth 0 args ""] \/ argv = ["grep"; "-qE"; e].

(** What is shown of a run of the post-checkout hook: it exits 0 and
    runs nothing but the commands of its template. *)
Definition warns_only (e : string) (st : nat) (calls : list (list string))
  : Prop :=
  st = 0 /\ Forall (branch_hook_command e) calls.

(** Of the pre-commit hook: it exits 0 or 1. *)
Definition branch_gate (e : string) (st : nat) (calls : list (list string))
  : Prop :=
  (st = 0 \/ st = 1) /\ Forall (branch_hook_command e) calls.

(** Of the commit-msg hook. *)
Definition commit_gate (args : list string) (e : string) (st : nat)
    (calls : list (list string)) : Prop :=
  (st = 0 \/ st = 1) /\ Forall (commit_hook_command args e) calls.

(** Fuel enough for the hooks. *)
Definition hook_fuel : nat := 30.

(** A custom branch pattern that closes the quotation it is put in. *)
Definition quoting_config : Config :=
  {| branchPattern := "custom";
     commitPattern := "jira";
     enableBranchValidation := true;
     enableCommitValidation := true;
     customBranchPattern := tpl "wip~; touch /tmp/pwned; exit 3; ~";
     customCommitPattern := "" |}.

(** A repository on branch [main], where [grep] finds no match. *)
Definition on_main (calls : list (list string)) (argv : list string)
    (stdin : string) : Sh.reply :=
  match argv with
  | "git"%string :: _ => Sh.mkReply (String.append "main" (String "010" "")) 0
  | _ => Sh.mkReply "" 1
  end.

(** The text of a hook, empty when its generation throws. *)
Definition rendered (c : completion string) : string :=
  match c with
  | Normal text => text
  | Throw _ => ""
  end.

(** ** Scenarios for the hooks *)

Definition newline : string := String "010" EmptyString.

(** [git branch --show-current] prints the branch [b]. *)
Definition on_branch (ext : list (list string) -> list string -> string -> Sh.reply)
    (b : string) : Prop :=
  forall calls stdin,
    ext calls ["git"; "branch"; "--show-current"] stdin
    = Sh.mkReply (b +:+ newline) 0.

(** What [grep -qE e] answers when it reads the output of
    [echo subject], after the commands [calls]. *)
Definition grep_status (ext : list (list string) -> list string -> string -> Sh.reply)
    (calls : list (list string)) (e subject : string) : nat :=
  Sh.reply_status (ext calls ["grep"; "-qE"; e] (Sh.echo_builtin [subject])).

(** The status of a hook that blocks on a mismatch. *)
Definition blocked_unless (grep : nat) : nat :=
  match grep with 0 => 0 | S _ => 1 end.

(** A run that ends with status 0 without any external command. *)
Definition idle (st : nat) (calls : list (list string)) : Prop :=
  st = 0 /\ calls = [].

(** ** The shape of the names that the built-in rules accept *)

(** Every character of [s] is in one of the ranges. *)
Definition every (ranges : list (ascii * ascii)) (s : string) : bool :=
  forallb (Regex.in_class ranges) (Str.chars s).

(** Not empty, and every character in one of the ranges. *)
Definition some_of (ranges : list (ascii * ascii)) (s : string) : Prop :=
  s <> "" /\ every ranges s = true.


(** [kind/KEY-123-slug] *)
Definition jira_branch_shape (subject : string) : Prop :=
  exists kind key number slug : string,
    subject = kind +:+ "/" +:+ key +:+ "-" +:+ number +:+ "-" +:+ slug /\
    In kind ["feature"; "bugfix"; "hotfix"; "release"; "chore"] /\
    some_of [upper] key /\
    some_of [digit] number /\
    some_of [lower; digit; dash] slug.


(** ** The commands of the extension *)

(** [getWorkspacePath()], with [vscode.workspace.workspaceFolders]: the
    first folder, [None] standing for [null]. *)
Definition getWorkspacePath (workspaceFolders : option (list Fs.path))
  : option Fs.path :=
  match workspaceFolders with
  | Some (folder :: _) => Some folder
  | _ => None
  end.

Fixpoint drop_while (P : ascii -> bool) (l : list ascii) : list ascii :=
  match l with
  | a :: l' => if P a then drop_while P l' else l
  | [] => []
  end.

(** [String.prototype.trim] *)
Definition trim (s : string) : string :=
  string_of_list_ascii
    (rev (drop_while Str.is_whitespace
            (rev (drop_while Str.is_whitespace (Str.chars s))))).

(** How [child_process.exec] calls back: with an error, or with the
    standard output of the command. *)
Inductive exec_result : Type :=
| ExecError (message : string)
| ExecOutput (stdout : string).

(** A settled promise; a rejection carries the message of its error. *)
Inductive promise (A : Type) : Type :=
| Resolved (a : A)
| Rejected (message : string).
Arguments Resolved {A} a.
Arguments Rejected {A} message.

(** What a command does to its surroundings. *)
Inductive effect : Type :=
| ShowError (message : string) (items : list string)
| ShowInformation (message : string) (items : list string)
| InputBox (prompt placeHolder : string)
| Run (command : string) (cwd : Fs.path)
| ExecuteCommand (command : string) (argument : string).

Definition shown (n : notice) : effect :=
  match n with
  | ErrorMessage message => ShowError message []
  | InformationMessage message => ShowInformation message []
  end.


(** The [length] of the value that an object literal inherits under
    [key]: the number of parameters of a method, nothing for
    [__proto__]. *)
Definition inherited_length (key : string) : option nat :=
  if String.eqb key "__proto__" then None
  else if existsb (String.eqb key) ["toString"; "valueOf"; "toLocaleString"]
  then Some 0
  else if existsb (String.eqb key) ["__defineGetter__"; "__defineSetter__"]
  then Some 2
  else Some 1.

(** [examples[0] || fallback] *)
Definition first_example (examples : property (list string)) (fallback : string)
  : string :=
  match examples with
  | Own (example :: _) => if Str.truthy example then example else fallback
  | _ => fallback
  end.

Section Commands.

Variable RegExp_new : string -> option regex.

(** [child_process.exec(command, { cwd }, callback)] *)
Variable exec : string -> Fs.path -> exec_result.

(** What the user enters in an input box with this prompt and place
    holder; [None] when the box is dismissed. *)
Variable input : string -> string -> option string.

(** The item that the user picks in a message; [None] when the message
    is dismissed. *)
Variable pick : string -> list string -> option string.

(** [executeGitCommand(command, workspacePath)] *)
Definition executeGitCommand (command : string) (workspacePath : Fs.path)
  : promise string :=
  match exec command workspacePath with
  | ExecError message => Rejected message
  | ExecOutput stdout => Resolved (trim stdout)
  end.

(** An error message with the item that opens the settings, and what
    follows when the user picks it. *)
Definition offer_settings (message : string) : list effect :=
  ShowError message ["Open Settings"] ::
  match pick message ["Open Settings"] with
  | Some selection =>
      if String.eqb selection "Open Settings"
      then [ExecuteCommand "workbench.action.openSettings" "validateBranch"]
      else []
  | None => []
  end.

(** The local [exampleText] of the two functions below. *)
Definition exampleText (examples : list string) : string :=
  if 0 <? length examples
  then "

Examples:
" +:+ Str.join "
" examples
  else "".

(** [showBranchValidationError(branchName, pattern)].  Under a name that
    the table inherits, [examples] is a method or the prototype: its
    [length] decides whether [examples.join] is called, which throws. *)
Definition showBranchValidationError (branchName pattern : string)
  : list effect * completion unit :=
  let message (exampleText : string) :=
    tpl "‚ùå Branch name ~" +:+ branchName +:+ tpl "~ doesn't follow the " +:+ pattern +:+ " convention." +:+ exampleText in
  match getBranchExamples pattern with
  | Own examples => (offer_settings (message (exampleText examples)), Normal tt)
  | _ =>
      match inherited_length pattern with
      | Some (S _) => ([], Throw (TypeError "examples.join is not a function"))
      | _ => (offer_settings (message ""), Normal tt)
      end
  end.

(** [showCommitValidationError(message, pattern)] *)
Definition showCommitValidationError (message pattern : string)
  : list effect * completion unit :=
  let text (exampleText : string) :=
    "‚ùå Commit message doesn't follow the " +:+ pattern +:+ " convention." +:+ exampleText in
  match getCommitExamples pattern with
  | Own examples => (offer_settings (text (exampleText examples)), Normal tt)
  | _ =>
      match inherited_length pattern with
      | Some (S _) => ([], Throw (TypeError "examples.join is not a function"))
      | _ => (offer_settings (text ""), Normal tt)
      end
  end.

Definition no_workspace : effect := ShowError "No workspace folder found" [].



(** The command [validate-branch.createBranch].  [config] is what
    [getConfig()] returns when the command starts, [later] what it
    returns inside [validateBranchName], once the input box has closed.
    An exception of the validation leaves the command. *)
Definition createBranch (workspaceFolders : option (list Fs.path))
    (config later : Config) : list effect * completion unit :=
  match getWorkspacePath workspaceFolders with
  | None => ([no_workspace], Normal tt)
  | Some workspacePath =>
      if negb (enableBranchValidation config)
      then ([ShowInformation "Branch validation is disabled" []], Normal tt)
      else
        let prompt :=
          "Enter branch name (" +:+ branchPattern config +:+ " convention)" in
        let placeHolder :=
          first_example (getBranchExamples (branchPattern config))
                        "feature/APC-2876-user-auth" in
        match input prompt placeHolder with
        | None => ([InputBox prompt placeHolder], Normal tt)
        | Some branchName =>
            if negb (Str.truthy branchName)
            then ([InputBox prompt placeHolder], Normal tt)
            else
              let '(notices, valid) :=
                validateBranchName RegExp_new later branchName
                                   (branchPattern config) in
              let before := InputBox prompt placeHolder :: map shown notices in
              match valid with
              | Throw e => (before, Throw e)
              | Normal false =>
                  let '(effects, completed) :=
                    showBranchValidationError branchName (branchPattern config) in
                  (before ++ effects, completed)
              | Normal true =>
                  let command := "git checkout -b " +:+ branchName in
                  (before ++
                   Run command workspacePath ::
                   match executeGitCommand command workspacePath with
                   | Resolved _ =>
                       [ShowInformation
                          (tpl "‚úÖ Branch ~" +:+ branchName +:+ tpl "~ created successfully!") []]
                   | Rejected message =>
                       [ShowError
                          ("Failed to create branch: " +:+ message) []]
                   end,
                   Normal tt)
              end
        end
  end.

(** The command [validate-branch.validateCommit], which looks for the
    workspace only after the message has been validated. *)
Definition validateCommit (workspaceFolders : option (list Fs.path))
    (config later : Config) : list effect * completion unit :=
  if negb (enableCommitValidation config)
  then ([ShowInformation "Commit validation is disabled" []], Normal tt)
  else
    let prompt :=
      "Enter commit message (" +:+ commitPattern config +:+ " convention)" in
    let placeHolder :=
      first_example (getCommitExamples (commitPattern config))
                    "[APC-2356] feat(auth): Add Login Functionality" in
    match input prompt placeHolder with
    | None => ([InputBox prompt placeHolder], Normal tt)
    | Some commitMessage =>
        if negb (Str.truthy commitMessage)
        then ([InputBox prompt placeHolder], Normal tt)
        else
          let '(notices, valid) :=
            validateCommitMessage RegExp_new later commitMessage
                                  (commitPattern config) in
          let before := InputBox prompt placeHolder :: map shown notices in
          match valid with
          | Throw e => (before, Throw e)
          | Normal false =>
              let '(effects, completed) :=
                showCommitValidationError commitMessage (commitPattern config) in
              (before ++ effects, completed)
          | Normal true =>
              match getWorkspacePath workspaceFolders with
              | None => (before ++ [no_workspace], Normal tt)
              | Some workspacePath =>
                  let command :=
                    tpl "git commit -m ~" +:+ commitMessage +:+ tpl "~" in
                  (before ++
                   Run command workspacePath ::
                   match executeGitCommand command workspacePath with
                   | Resolved _ => [ShowInformation ("‚úÖ Commit created successfully!") []]
                   | Rejected message =>
                       [ShowError
                          ("Failed to commit: " +:+ message) []]
                   end,
                   Normal tt)
              end
          end
    end.

(** The commands run by [Run] effects, in order. *)
Fixpoint commands_of (effects : list effect) : list string :=
  match effects with
  | [] => []
  | Run command _ :: effects' => command :: commands_of effects'
  | _ :: effects' => commands_of effects'
  end.

Variable JSON_parse : string -> option (string -> jsvalue).

(** The command [validate-branch.installGitHooks]: the file system and
    the messages afterwards, and the status bar item that the timer
    sets, the file system being as the command left it. *)
Definition installHooks (workspaceFolders : option (list Fs.path)) (fs : Fs.t)
  : Fs.t * list notice * completion unit * option StatusBarItem :=
  match getWorkspacePath workspaceFolders with
  | None => (fs, [ErrorMessage "No workspace folder found"], Normal tt, None)
  | Some workspacePath =>
      match installGitHooks JSON_parse workspacePath fs with
      | (fs', notices, Normal _) =>
          (fs', notices, Normal tt,
           Some (updateStatusBar (getWorkspacePath workspaceFolders) fs'))
      | (fs', notices, Throw e) => (fs', notices, Throw e, None)
      end
  end.

Definition remove_done : notice :=
  InformationMessage
    "‚úÖ Git hooks removed successfully! Terminal git commands will no longer be validated.".

(** The command [validate-branch.removeGitHooks] *)
Definition removeHooks (workspaceFolders : option (list Fs.path)) (fs : Fs.t)
  : Fs.t * list notice * option StatusBarItem :=
  match getWorkspacePath workspaceFolders with
  | None => (fs, [ErrorMessage "No workspace folder found"], None)
  | Some workspacePath =>
      let fs' := removeGitHooks workspacePath fs in
      (fs', [remove_done],
       Some (updateStatusBar (getWorkspacePath workspaceFolders) fs'))
  end.

End Commands.

(** ** Command lines as the shell reads them *)

(** The characters of the names that the built-in branch rule accepts. *)
Definition plain_char (c : ascii) : bool :=
  Regex.in_class [upper; lower; digit; dash; ("/"%char, "/"%char)] c.

(** Text without double quote, back quote, dollar or backslash. *)
Definition quiet (s : string) : bool :=
  forallb (fun c => negb (existsb (Ascii.eqb c) [dq; "`"; "$"; "\"]%char))
          (Str.chars s).

(** ** What an installation leaves on disk *)

(** The mode of a hook file after an installation: that of the file that
    was there, [0o755] for a file that the installation creates. *)
Definition hook_mode (fs : Fs.t) (hookPath : Fs.path) : N :=
  match fs !! hookPath with
  | Some (Fs.File _ mode) => mode
  | _ => 493%N
  end.

(** The directories that the installation may create. *)
Definition hook_chain (workspacePath : Fs.path) : list Fs.path :=
  Fs.ancestors (hooksDir workspacePath) ++ [hooksDir workspacePath].

(** A convention name for which the generators throw: one that the
    tables inherit, for a validation that is switched on. *)
Definition unusable_convention (config : Config) : bool :=
  (enableBranchValidation config && is_prototype_key (branchPattern config))
  || (enableCommitValidation config && is_prototype_key (commitPattern config)).

(** ** The test runner

    [src/test-runner.js]: its own tables of patterns, and the tests that
    it runs on them. *)

Module TestRunner.

(** [\d] *)
Definition d : regex := Class [digit].

(** [.+] *)
Definition some_chars : regex := plus Dot.

(** [(\(.+\))?] *)
Definition optional_scope : regex :=
  Repeat 0 (Some 1) (seqs [Chr "("; some_chars; Chr ")"]).

(** [/^(feature|bugfix|hotfix|release)\/[a-z0-9-]+$/] *)
Definition gitflow_branch : regex :=
  seqs [ Bol;
         alts [Regex.lit "feature"; Regex.lit "bugfix"; Regex.lit "hotfix";
               Regex.lit "release"];
         Chr "/"; plus (Class [lower; digit; dash]); Eol ].

(** [/^(feat|fix|docs|style|refactor|test|chore)\/[a-z0-9-]+$/] *)
Definition conventional_branch : regex :=
  seqs [ Bol;
         alts [Regex.lit "feat"; Regex.lit "fix"; Regex.lit "docs";
               Regex.lit "style"; Regex.lit "refactor"; Regex.lit "test";
               Regex.lit "chore"];
         Chr "/"; plus (Class [lower; digit; dash]); Eol ].

(** [/^(feature|bugfix|hotfix)\/[A-Z]+-\d+-.+$/] *)
Definition jira_branch : regex :=
  seqs [ Bol;
         alts [Regex.lit "feature"; Regex.lit "bugfix"; Regex.lit "hotfix"];
         Chr "/"; plus (Class [upper]); Chr "-"; plus d; Chr "-"; some_chars;
         Eol ].

(** [/^[a-z0-9-]+$/] *)
Definition simple_branch : regex :=
  seqs [ Bol; plus (Class [lower; digit; dash]); Eol ].

(** [/^(feat|fix|docs|style|refactor|perf|test|chore)(\(.+\))?: .{1,50}/] *)
Definition conventional_commit : regex :=
  seqs [ Bol;
         alts [Regex.lit "feat"; Regex.lit "fix"; Regex.lit "docs";
               Regex.lit "style"; Regex.lit "refactor"; Regex.lit "perf";
               Regex.lit "test"; Regex.lit "chore"];
         optional_scope; Chr ":"; Chr " "; Repeat 1 (Some 50) Dot ].

(** [/^(build|ci|docs|feat|fix|perf|refactor|style|test)(\(.+\))?: .{1,50}/] *)
Definition angular_commit : regex :=
  seqs [ Bol;
         alts [Regex.lit "build"; Regex.lit "ci"; Regex.lit "docs";
               Regex.lit "feat"; Regex.lit "fix"; Regex.lit "perf";
               Regex.lit "refactor"; Regex.lit "style"; Regex.lit "test"];
         optional_scope; Chr ":"; Chr " "; Repeat 1 (Some 50) Dot ].

(** [/^.{10,72}$/] *)
Definition simple_commit : regex :=
  seqs [ Bol; Repeat 10 (Some 72) Dot; Eol ].

Definition BRANCH_PATTERNS : list (string * regex) :=
  [ ("gitflow", gitflow_branch); ("conventional", conventional_branch);
    ("jira", jira_branch); ("simple", simple_branch) ].

Definition COMMIT_PATTERNS : list (string * regex) :=
  [ ("conventional", conventional_commit); ("angular", angular_commit);
    ("simple", simple_commit) ].

(** One [assert.strictEqual(pattern.test(subject), expected)]. *)
Record check : Type := expect {
  pattern : regex;
  subject : string;
  expected : bool
}.

Definition holds (c : check) : bool :=
  Bool.eqb (test (pattern c) (subject c)) (expected c).

(** [runTest(testName, testFunction)] on the counters [testsPassed] and
    [testsFailed]: the test function throws at its first assertion that
    fails. *)
Definition runTest (counters : nat * nat) (testFunction : list check)
  : nat * nat :=
  let '(testsPassed, testsFailed) := counters in
  if forallb holds testFunction
  then (S testsPassed, testsFailed)
  else (testsPassed, S testsFailed).

(** The tests, in the order of the file. *)
Definition suite : list (string * list check) :=
  [ ("Conventional pattern - valid branch names",
     [ expect conventional_branch "feat/user-authentication" true;
       expect conventional_branch "fix/login-bug" true;
       expect conventional_branch "docs/readme-update" true;
       expect conventional_branch "style/button-colors" true;
       expect conventional_branch "refactor/api-cleanup" true;
       expect conventional_branch "test/user-validation" true;
       expect conventional_branch "chore/dependency-update" true ]);
    ("Conventional pattern - invalid branch names",
     [ expect conventional_branch "feature/user-auth" false;
       expect conventional_branch "my-feature" false;
       expect conventional_branch "feat/User-Auth" false;
       expect conventional_branch "feat/user_auth" false;
       expect conventional_branch "feat/" false;
       expect conventional_branch "FEAT/user-auth" false ]);
    ("GitFlow pattern - valid branch names",
     [ expect gitflow_branch "feature/user-authentication" true;
       expect gitflow_branch "bugfix/login-error" true;
       expect gitflow_branch "hotfix/security-patch" true;
       expect gitflow_branch "release/v1-2-0" true ]);
    ("JIRA pattern - valid branch names",
     [ expect jira_branch "feature/PROJ-123-user-login" true;
       expect jira_branch "bugfix/PROJ-456-fix-crash" true;
       expect jira_branch "hotfix/ABC-789-security-fix" true ]);
    ("Conventional pattern - valid commit messages",
     [ expect conventional_commit "feat: add user authentication" true;
       expect conventional_commit "fix: resolve login button issue" true;
       expect conventional_commit "docs: update README with setup instructions" true;
       expect conventional_commit "style: improve button styling" true;
       expect conventional_commit "refactor(auth): simplify login logic" true;
       expect conventional_commit "perf: optimize database queries" true;
       expect conventional_commit "test: add user validation tests" true;
       expect conventional_commit "chore: update dependencies" true ]);
    ("Conventional pattern - invalid commit messages",
     [ expect conventional_commit "added new feature" false;
       expect conventional_commit "feat added feature" false;
       expect conventional_commit "feature: add user auth" false;
       expect conventional_commit "feat:add feature" false;
       expect conventional_commit "feat: " false;
       expect conventional_commit "FEAT: add feature" false ]);
    ("Angular pattern - valid commit messages",
     [ expect angular_commit "feat(auth): add user login functionality" true;
       expect angular_commit "fix(ui): resolve button alignment issue" true;
       expect angular_commit "docs: update contributing guidelines" true;
       expect angular_commit "test(auth): add login unit tests" true;
       expect angular_commit "build: update webpack configuration" true;
       expect angular_commit "ci: add GitHub Actions workflow" true ]);
    ("Branch names with numbers and hyphens",
     [ expect conventional_branch "feat/feature-123" true;
       expect conventional_branch "fix/bug-fix-2024" true;
       expect conventional_branch "docs/api-v2-documentation" true;
       expect conventional_branch "feat/feature--double-hyphen" true ]);
    ("Commit messages with scopes",
     [ expect conventional_commit "feat(auth): add login" true;
       expect conventional_commit "fix(ui/components): resolve issue" true;
       expect conventional_commit "docs(api-v2): update endpoints" true;
       expect conventional_commit "feat(): empty scope" false;
       expect conventional_commit "feat: no scope" true ]) ].

(** The counters at the end of the run. *)
Definition counters : nat * nat :=
  fold_left (fun c t => runTest c (snd t)) suite (0, 0).

(** The status that the script exits with. *)
Definition exit_code : nat :=
  match counters with
  | (_, 0) => 0
  | _ => 1
  end.

End TestRunner.

(** A pattern without [$]. *)
Fixpoint eol_free (r : regex) : bool :=
  match r with
  | Eol => false
  | Seq r1 r2 | Alt r1 r2 => eol_free r1 && eol_free r2
  | Repeat _ _ r1 => eol_free r1
  | _ => true
  end.

(** [k'] accepts, with [t] added to the input, whatever [k] accepts. *)
Definition extends (t : list ascii) (k k' : cont) : Prop :=
  forall pos s, k pos s = true -> k' pos (s ++ t) = true.
(** * Properties *)

(** ** The matcher *)

Example jira_branch_ok :
  test jira_branch_regex "feature/APC-2876-user-auth" = true.
Proof. reflexivity. Qed.

Example jira_branch_ko :
  test jira_branch_regex "my-feature" = false.
Proof. reflexivity. Qed.

Example jira_commit_ok :
  test jira_commit_regex "[ABC-12] feat(auth): add login" = true.
Proof. reflexivity. Qed.

Example jira_commit_ko :
  test jira_commit_regex "fix login" = false.
Proof. reflexivity. Qed.

Module RegexFacts.

Lemma iterate_hands_over step :
    hands_over step -> forall budget lo, hands_over (iterate step budget lo).
Proof.
    intros Hstep budget.
    induction budget as [|b IH]; intros lo k pos s H; simpl in H.
    - rewrite orb_false_r in H. apply andb_prop in H as [_ H].
      exists [], s. rewrite Nat.add_0_r. auto.
    - apply orb_prop in H as [H|H].
      + apply andb_prop in H as [_ H].
        exists [], s. rewrite Nat.add_0_r. auto.
      + apply Hstep in H as (m1 & s1 & -> & H).
        apply andb_prop in H as [_ H].
        apply IH in H as (m2 & s2 & -> & H).
        exists (m1 ++ m2), s2. split.
        * now rewrite <- app_assoc.
        * now rewrite length_app, Nat.add_assoc.
Qed.

Lemma rmatch_hands_over r : hands_over (rmatch r).
Proof.
    induction r as [|c| |ranges|r1 IH1 r2 IH2|r1 IH1 r2 IH2|lo hi r1 IH1| |];
      intros k pos s H; simpl in H.
    - exists [], s. rewrite Nat.add_0_r. auto.
    - destruct s as [|a t]; [discriminate|]. apply andb_prop in H as [_ H].
      exists [a], t. simpl. rewrite Nat.add_1_r. auto.
    - destruct s as [|a t]; [discriminate|]. apply andb_prop in H as [_ H].
      exists [a], t. simpl. rewrite Nat.add_1_r. auto.
    - destruct s as [|a t]; [discriminate|]. apply andb_prop in H as [_ H].
      exists [a], t. simpl. rewrite Nat.add_1_r. auto.
    - apply IH1 in H as (m1 & s1 & -> & H).
      apply IH2 in H as (m2 & s2 & -> & H).
      exists (m1 ++ m2), s2. split.
      + now rewrite <- app_assoc.
      + now rewrite length_app, Nat.add_assoc.
    - apply orb_prop in H as [H|H]; [apply IH1 in H | apply IH2 in H]; exact H.
    - eapply iterate_hands_over; eauto.
    - apply andb_prop in H as [_ H].
      exists [], s. rewrite Nat.add_0_r. auto.
    - destruct s; [|discriminate].
      exists [], []. rewrite Nat.add_0_r. auto.
Qed.

Lemma iterate_one_char P budget :
    forall lo k pos s,
      iterate (one_char P) budget lo k pos s = true ->
      exists m s',
        s = m ++ s' /\ forallb P m = true /\ lo <= length m /\
        k (pos + length m) s' = true.
Proof.
    induction budget as [|b IH]; intros lo k pos s H; simpl in H.
    - rewrite orb_false_r in H. apply andb_prop in H as [Hlo H].
      apply Nat.eqb_eq in Hlo. subst lo.
      exists [], s. rewrite Nat.add_0_r. simpl. auto with arith.
    - apply orb_prop in H as [H|H].
      + apply andb_prop in H as [Hlo H].
        apply Nat.eqb_eq in Hlo. subst lo.
        exists [], s. rewrite Nat.add_0_r. simpl. auto with arith.
      + unfold one_char in H at 1. destruct s as [|a t]; [discriminate|].
        apply andb_prop in H as [Ha H]. apply andb_prop in H as [_ H].
        apply IH in H as (m & s' & -> & Hm & Hlen & H).
        exists (a :: m), s'. simpl. rewrite Ha, Hm.
        repeat split; [lia|].
        now rewrite <- Nat.add_succ_comm.
Qed.

Lemma seqs_cons r l :
    l <> [] -> seqs (r :: l) = Seq r (seqs l).
Proof. destruct l; [congruence|reflexivity]. Qed.

  (** A successful match of a sequence reaches its last parts on a
      suffix of the input. *)
Lemma seqs_reaches l1 l2 :
    l2 <> [] ->
    forall k pos s,
      rmatch (seqs (l1 ++ l2)) k pos s = true ->
      exists m s', s = m ++ s' /\ rmatch (seqs l2) k (pos + length m) s' = true.
Proof.
    intros Hl2. induction l1 as [|r l1 IH]; intros k pos s H.
    - exists [], s. rewrite Nat.add_0_r. auto.
    - change ((r :: l1) ++ l2) with (r :: (l1 ++ l2)) in H.
      rewrite seqs_cons in H by (destruct l1; simpl; congruence).
      simpl in H.
      apply rmatch_hands_over in H as (m1 & s1 & -> & H).
      apply IH in H as (m2 & s2 & -> & H).
      exists (m1 ++ m2), s2. split.
      + now rewrite <- app_assoc.
      + now rewrite length_app, Nat.add_assoc.
Qed.

  (** A pattern that begins with [^] can only match at position 0. *)
Lemma test_anchored r subject :
    test (Seq Bol r) subject = rmatch r accept 0 (Str.chars subject).
Proof.
    unfold test. cbn zeta. set (s := Str.chars subject).
    change (seq 0 (S (length s))) with (0 :: seq 1 (length s)).
    cbn [existsb]. unfold match_at at 1. rewrite drop_0.
    cbn [rmatch Nat.eqb andb].
    replace (existsb _ _) with false; [apply orb_false_r|].
    symmetry. apply not_true_is_false. intros H.
    apply existsb_exists in H as (n & Hn & H).
    apply in_seq in Hn. unfold match_at in H. cbn [rmatch] in H.
    destruct n; [lia|]. discriminate.
Qed.

Lemma rev_app_nonempty {A : Type} (l m : list A) :
    m <> [] ->
    exists y rest, rev (l ++ m) = y :: rest /\ In y m.
Proof.
    intros Hm. destruct (exists_last Hm) as (m' & y & ->).
    exists y, (rev (l ++ m')). split.
    - now rewrite app_assoc, rev_app_distr.
    - apply in_or_app. right. now left.
Qed.

  (** What a match says about the last character, when the pattern ends
      with a quantified one-character class followed by [$]. *)
Lemma ends_in_class l1 P budget lo r k pos s :
    0 < lo ->
    rmatch (seqs (l1 ++ [r; Eol])) k pos s = true ->
    (forall k pos s, rmatch r k pos s = iterate (one_char P) (budget s) lo k pos s) ->
    exists c rest, rev s = c :: rest /\ P c = true.
Proof.
    intros Hlo H Hr.
    apply seqs_reaches in H as (m & s' & -> & H); [|congruence].
    cbn [seqs rmatch] in H. rewrite Hr in H.
    apply iterate_one_char in H as (m2 & s2 & -> & HP & Hlen & H).
    destruct s2; [|discriminate]. rewrite app_nil_r.
    destruct m2 as [|x m2]; [simpl in Hlen; lia|].
    destruct (rev_app_nonempty m (x :: m2)) as (y & rest & Hy & Hin);
      [congruence|].
    exists y, rest. split; [exact Hy|].
    rewrite forallb_forall in HP. now apply HP.
Qed.

Lemma whitespace_cases c :
    Str.is_whitespace c = true ->
    In c ["009"; "010"; "011"; "012"; "013"; " "; "160"]%char.
Proof.
    destruct c as [[] [] [] [] [] [] [] []]; intros H;
      try discriminate H; simpl; tauto.
Qed.

End RegexFacts.

(** ** The built-in rules and white space *)

Lemma jira_branch_rejects_outer_whitespace subject :
  Str.leading_whitespace subject || Str.trailing_whitespace subject = true ->
  test jira_branch_regex subject = false.
Proof.
  intros Hws. apply not_true_is_false. intros H.
  unfold jira_branch_regex in H. rewrite RegexFacts.seqs_cons in H by discriminate.
  rewrite RegexFacts.test_anchored in H.
  apply orb_prop in Hws as [Hws|Hws].
  - unfold Str.leading_whitespace in Hws.
    destruct (Str.chars subject) as [|c t]; [discriminate|].
    apply RegexFacts.whitespace_cases in Hws. simpl in Hws.
    repeat (destruct Hws as [<-|Hws]; [vm_compute in H; discriminate|]).
    exact Hws.
  - unfold Str.trailing_whitespace in Hws.
    eapply (RegexFacts.ends_in_class
              [ alts [lit "feature"; lit "bugfix"; lit "hotfix"; lit "release";
                      lit "chore"];
                Chr "/"; plus (Class [upper]); Chr "-";
                plus (Class [digit]); Chr "-" ]
              (in_class [lower; digit; dash])
              (fun s => 1 + length s) 1) in H;
      [|lia|reflexivity].
    destruct H as (c & rest & Hrev & Hc). rewrite Hrev in Hws.
    apply RegexFacts.whitespace_cases in Hws. simpl in Hws.
    repeat (destruct Hws as [<-|Hws]; [vm_compute in Hc; discriminate|]).
    exact Hws.
Qed.

Lemma jira_commit_rejects_whitespace subject :
  Str.leading_whitespace subject || trailing_line_terminator subject = true ->
  test jira_commit_regex subject = false.
Proof.
  intros Hws. apply not_true_is_false. intros H.
  unfold jira_commit_regex in H. rewrite RegexFacts.seqs_cons in H by discriminate.
  rewrite RegexFacts.test_anchored in H.
  apply orb_prop in Hws as [Hws|Hws].
  - unfold Str.leading_whitespace in Hws.
    destruct (Str.chars subject) as [|c t]; [discriminate|].
    apply RegexFacts.whitespace_cases in Hws. simpl in Hws.
    repeat (destruct Hws as [<-|Hws]; [vm_compute in H; discriminate|]).
    exact Hws.
  - unfold trailing_line_terminator in Hws.
    eapply (RegexFacts.ends_in_class
              [ Chr "["; plus (Class [upper]); Chr "-"; plus (Class [digit]);
                Chr "]"; Chr " ";
                alts [lit "feat"; lit "fix"; lit "docs"; lit "style";
                      lit "refactor"; lit "test"; lit "chore"];
                Chr "("; plus (Class [lower; digit; dash]); Chr ")";
                Chr ":"; Chr " " ]
              (fun a => negb (is_line_terminator a))
              (fun _ => 80) 1) in H;
      [|lia|reflexivity].
    destruct H as (c & rest & Hrev & Hc). rewrite Hrev in Hws.
    rewrite Hws in Hc. discriminate.
Qed.

(** C2 (as the code has it).  Validation applies the rule to the subject
    exactly as given, without trimming.  Under the built-in branch rule a
    subject with leading or trailing white space never validates; under
    the built-in commit rule a subject with leading white space or a
    trailing line terminator never validates; a custom rule is the
    compiled expression tested on the untrimmed subject. *)
Theorem validation_does_not_trim
    (RegExp_new : string -> option regex) (config : Config) (subject : string) :
  (Str.leading_whitespace subject || Str.trailing_whitespace subject = true ->
   validateBranchName RegExp_new config subject "jira" = ([], Normal false)) /\
  (Str.leading_whitespace subject || trailing_line_terminator subject = true ->
   validateCommitMessage RegExp_new config subject "jira" = ([], Normal false)) /\
  (forall regex,
     Str.truthy (customBranchPattern config) = true ->
     RegExp_new (customBranchPattern config) = Some regex ->
     validateBranchName RegExp_new config subject "custom"
     = ([], Normal (test regex subject))) /\
  (forall regex,
     Str.truthy (customCommitPattern config) = true ->
     RegExp_new (customCommitPattern config) = Some regex ->
     validateCommitMessage RegExp_new config subject "custom"
     = ([], Normal (test regex subject))).
Proof.
  repeat split.
  - intros H. unfold validateBranchName. simpl.
    now rewrite jira_branch_rejects_outer_whitespace.
  - intros H. unfold validateCommitMessage. simpl.
    now rewrite jira_commit_rejects_whitespace.
  - intros regex Ht Hre. unfold validateBranchName. simpl.
    now rewrite Ht, Hre.
  - intros regex Ht Hre. unfold validateCommitMessage. simpl.
    now rewrite Ht, Hre.
Qed.

Lemma validation_does_not_trim_witness :
  validateBranchName (fun _ => Some (lit "fix")) 
    {| branchPattern := "custom"; commitPattern := "custom";
       enableBranchValidation := true; enableCommitValidation := true;
       customBranchPattern := "fix"; customCommitPattern := "fix" |}
    " fix it" "jira" = ([], Normal false) /\
  validateCommitMessage (fun _ => Some (lit "fix"))
    {| branchPattern := "custom"; commitPattern := "custom";
       enableBranchValidation := true; enableCommitValidation := true;
       customBranchPattern := "fix"; customCommitPattern := "fix" |}
    " fix it" "custom" = ([], Normal true).
Proof.
  pose proof (validation_does_not_trim (fun _ => Some (lit "fix"))
    {| branchPattern := "custom"; commitPattern := "custom";
       enableBranchValidation := true; enableCommitValidation := true;
       customBranchPattern := "fix"; customCommitPattern := "fix" |}
    " fix it") as (Hb & _ & _ & Hc).
  split.
  - apply Hb. reflexivity.
  - apply (Hc (lit "fix")); reflexivity.
Defined.

(** C2 refuted as stated: a commit message with a trailing space
    validates under the built-in rule, the space being one of the
    characters of the description. *)
Lemma trailing_space_commit_validates :
  Str.trailing_whitespace "[APC-1] feat(a): x " = true /\
  validateCommitMessage (fun _ => None) defaultConfig
    "[APC-1] feat(a): x " "jira" = ([], Normal true).
Proof. split; reflexivity. Qed.

(** ** Conventions, examples and resolution *)

Lemma registered_branch_convention c regex :
  own_property BRANCH_PATTERNS c = Some regex ->
  c = "jira" /\ regex = jira_branch_regex.
Proof.
  cbv [BRANCH_PATTERNS COMMIT_PATTERNS own_property].
  destruct (String.eqb_spec "jira" c) as [<-|]; [|discriminate].
  intros [= <-]. auto.
Qed.

Lemma registered_commit_convention c regex :
  own_property COMMIT_PATTERNS c = Some regex ->
  c = "jira" /\ regex = jira_commit_regex.
Proof.
  cbv [BRANCH_PATTERNS COMMIT_PATTERNS own_property].
  destruct (String.eqb_spec "jira" c) as [<-|]; [|discriminate].
  intros [= <-]. auto.
Qed.

(** C5.  For every convention of the pattern tables, each of its
    examples satisfies its rule, and validating the example under that
    convention returns true; for the branch table and the commit table. *)
Theorem examples_satisfy_their_rule
    (RegExp_new : string -> option regex) (config : Config) (c : string) :
  (forall regex exs e,
     own_property BRANCH_PATTERNS c = Some regex ->
     getBranchExamples c = Own exs ->
     In e exs ->
     test regex e = true /\
     validateBranchName RegExp_new config e c = ([], Normal true)) /\
  (forall regex exs e,
     own_property COMMIT_PATTERNS c = Some regex ->
     getCommitExamples c = Own exs ->
     In e exs ->
     test regex e = true /\
     validateCommitMessage RegExp_new config e c = ([], Normal true)).
Proof.
  split; intros regex exs e Hc Hex Hin.
  - apply registered_branch_convention in Hc as [-> ->].
    injection Hex as <-. simpl in Hin.
    repeat (destruct Hin as [<-|Hin]; [split; reflexivity|]).
    contradiction.
  - apply registered_commit_convention in Hc as [-> ->].
    injection Hex as <-. simpl in Hin.
    repeat (destruct Hin as [<-|Hin]; [split; reflexivity|]).
    contradiction.
Qed.

Lemma examples_satisfy_their_rule_witness :
  validateBranchName (fun _ => None) defaultConfig
    "release/APC-9999-v2-release" "jira" = ([], Normal true) /\
  validateCommitMessage (fun _ => None) defaultConfig
    "[APC-5678] docs(readme): Update installation guide" "jira"
  = ([], Normal true).
Proof.
  destruct (examples_satisfy_their_rule (fun _ => None) defaultConfig "jira")
    as [Hb Hc].
  split.
  - apply (Hb jira_branch_regex jira_branch_examples); try reflexivity.
    simpl. tauto.
  - apply (Hc jira_commit_regex jira_commit_examples); try reflexivity.
    simpl. tauto.
Defined.

Lemma unknown_key_is_missing {A : Type} (table : list (string * A)) key :
  own_property table key = None ->
  is_prototype_key key = false ->
  get_property table key = Missing.
Proof. intros H1 H2. unfold get_property. now rewrite H1, H2. Qed.

(** C3 (as the code has it).  For a convention name that is not
    "custom", is in neither pattern table and is not a name inherited
    from Object.prototype: the example lookups and both script generators
    fall back to the default convention's examples and pattern, whereas
    in-process validation returns false for every subject, without
    raising. *)
Theorem unknown_convention_resolution
    (RegExp_new : string -> option regex) (id : string) :
  id <> "custom" ->
  own_property BRANCH_PATTERNS id = None ->
  own_property COMMIT_PATTERNS id = None ->
  is_prototype_key id = false ->
  getBranchExamples id = Own jira_branch_examples /\
  getCommitExamples id = Own jira_commit_examples /\
  (forall config,
     branchPattern config = id ->
     generateBranchValidationScript config
     = Normal (branch_script_text config jira_branch_pattern_text
                                  jira_branch_examples)) /\
  (forall config,
     commitPattern config = id ->
     generateCommitValidationScript config
     = Normal (commit_script_text config jira_commit_pattern_text
                                  jira_commit_examples)) /\
  (forall config subject,
     validateBranchName RegExp_new config subject id = ([], Normal false)) /\
  (forall config subject,
     validateCommitMessage RegExp_new config subject id = ([], Normal false)).
Proof.
  intros Hcustom Hb Hc Hproto.
  assert (Heqb : String.eqb id "custom" = false) by now apply String.eqb_neq.
  assert (Hjira : String.eqb "jira" id = false).
  { cbv [BRANCH_PATTERNS own_property] in Hb.
    destruct (String.eqb "jira" id); [discriminate|reflexivity]. }
  repeat split.
  - unfold getBranchExamples, get_property. cbn [own_property].
    now rewrite Hjira, Hproto.
  - unfold getCommitExamples, get_property. cbn [own_property].
    now rewrite Hjira, Hproto.
  - intros config <-.
    unfold generateBranchValidationScript, branch_hook_pattern,
      branch_hook_examples, get_property.
    cbn [own_property]. now rewrite Heqb, Hjira, Hproto.
  - intros config <-.
    unfold generateCommitValidationScript, commit_hook_pattern,
      commit_hook_examples, get_property.
    cbn [own_property]. now rewrite Heqb, Hjira, Hproto.
  - intros config subject. unfold validateBranchName.
    rewrite Heqb. cbn [andb]. now rewrite (unknown_key_is_missing _ _ Hb Hproto).
  - intros config subject. unfold validateCommitMessage.
    rewrite Heqb. cbn [andb]. now rewrite (unknown_key_is_missing _ _ Hc Hproto).
Qed.

Lemma unknown_convention_resolution_witness :
  getBranchExamples "gitflow" = Own jira_branch_examples /\
  validateBranchName (fun _ => None) defaultConfig "feature/login" "gitflow"
  = ([], Normal false).
Proof.
  destruct (unknown_convention_resolution (fun _ => None) "gitflow")
    as (He & _ & _ & _ & Hv & _);
    [discriminate | reflexivity | reflexivity | reflexivity |].
  split; [exact He | apply Hv].
Defined.

(** C3 refuted as stated: under an unknown convention name the
    in-process validator rejects a branch name that the default
    convention accepts. *)
Lemma unknown_convention_rejects_valid_branch :
  own_property BRANCH_PATTERNS "gitflow" = None /\
  validateBranchName (fun _ => None) defaultConfig
    "feature/APC-2876-user-auth" "gitflow" = ([], Normal false) /\
  validateBranchName (fun _ => None) defaultConfig
    "feature/APC-2876-user-auth" "jira" = ([], Normal true).
Proof. repeat split; reflexivity. Qed.

(** A name inherited from Object.prototype makes both paths throw. *)
Lemma inherited_convention_throws :
  validateBranchName (fun _ => None) defaultConfig "feature/x" "constructor"
  = ([], Throw (TypeError "regex.test is not a function")) /\
  generateBranchValidationScript
    {| branchPattern := "constructor"; commitPattern := "jira";
       enableBranchValidation := true; enableCommitValidation := true;
       customBranchPattern := ""; customCommitPattern := "" |}
  = Throw (TypeError "exampleList.map is not a function").
Proof. split; reflexivity. Qed.

(** C4 (as the code has it).  With the convention "custom": a non-empty
    pattern that does not compile makes in-process validation show the
    message "Invalid custom ... pattern in settings" and return false; an
    empty pattern makes it return false with no message at all; the
    script generators never compile the pattern, they embed a non-empty
    one as it is and replace an empty one by the default pattern. *)
Theorem custom_pattern_resolution
    (RegExp_new : string -> option regex) (config : Config) (subject : string) :
  (Str.truthy (customBranchPattern config) = true ->
   RegExp_new (customBranchPattern config) = None ->
   validateBranchName RegExp_new config subject "custom"
   = ([ErrorMessage "Invalid custom branch pattern in settings"], Normal false)) /\
  (Str.truthy (customCommitPattern config) = true ->
   RegExp_new (customCommitPattern config) = None ->
   validateCommitMessage RegExp_new config subject "custom"
   = ([ErrorMessage "Invalid custom commit pattern in settings"], Normal false)) /\
  (customBranchPattern config = "" ->
   validateBranchName RegExp_new config subject "custom" = ([], Normal false)) /\
  (customCommitPattern config = "" ->
   validateCommitMessage RegExp_new config subject "custom" = ([], Normal false)) /\
  (branchPattern config = "custom" ->
   generateBranchValidationScript config
   = Normal (branch_script_text config
               (if Str.truthy (customBranchPattern config)
                then customBranchPattern config
                else jira_branch_pattern_text)
               ["custom-pattern-example"])) /\
  (commitPattern config = "custom" ->
   generateCommitValidationScript config
   = Normal (commit_script_text config
               (if Str.truthy (customCommitPattern config)
                then customCommitPattern config
                else jira_commit_pattern_text)
               ["custom-pattern-example"])).
Proof.
  repeat split.
  - intros Ht Hre. unfold validateBranchName. simpl. now rewrite Ht, Hre.
  - intros Ht Hre. unfold validateCommitMessage. simpl. now rewrite Ht, Hre.
  - intros He. unfold validateBranchName. now rewrite He.
  - intros He. unfold validateCommitMessage. now rewrite He.
  - intros Hc.
    unfold generateBranchValidationScript, branch_hook_pattern,
      branch_hook_examples.
    rewrite Hc. simpl. now destruct (Str.truthy (customBranchPattern config)).
  - intros Hc.
    unfold generateCommitValidationScript, commit_hook_pattern,
      commit_hook_examples.
    rewrite Hc. simpl. now destruct (Str.truthy (customCommitPattern config)).
Qed.

Lemma custom_pattern_resolution_witness :
  validateBranchName (fun _ => None)
    {| branchPattern := "custom"; commitPattern := "custom";
       enableBranchValidation := true; enableCommitValidation := true;
       customBranchPattern := "(feature"; customCommitPattern := "" |}
    "feature/x" "custom"
  = ([ErrorMessage "Invalid custom branch pattern in settings"], Normal false) /\
  validateCommitMessage (fun _ => None)
    {| branchPattern := "custom"; commitPattern := "custom";
       enableBranchValidation := true; enableCommitValidation := true;
       customBranchPattern := "(feature"; customCommitPattern := "" |}
    "feature/x" "custom"
  = ([], Normal false).
Proof.
  destruct (custom_pattern_resolution (fun _ => None)
    {| branchPattern := "custom"; commitPattern := "custom";
       enableBranchValidation := true; enableCommitValidation := true;
       customBranchPattern := "(feature"; customCommitPattern := "" |}
    "feature/x") as (Hb & _ & _ & Hc & _).
  split; [apply Hb | apply Hc]; reflexivity.
Defined.

(** C4 refuted as stated: with the convention "custom" and an empty
    pattern no error is reported; validation returns false as for an
    ordinary mismatch, and the generated script silently uses the default
    pattern. *)
Lemma empty_custom_pattern_is_silent :
  validateBranchName (fun _ => None)
    {| branchPattern := "custom"; commitPattern := "jira";
       enableBranchValidation := true; enableCommitValidation := true;
       customBranchPattern := ""; customCommitPattern := "" |}
    "feature/APC-1-x" "custom"
  = ([], Normal false) /\
  branch_hook_pattern
    {| branchPattern := "custom"; commitPattern := "jira";
       enableBranchValidation := true; enableCommitValidation := true;
       customBranchPattern := ""; customCommitPattern := "" |}
  = Own jira_branch_pattern_text.
Proof. split; reflexivity. Qed.

(** ** The file system *)

Module FsFacts.

Import Fs.

Lemma is_dir_insert_file fs p content mode a :
  is_dir fs p = false ->
  is_dir (<[p := File content mode]> fs) a = is_dir fs a.
Proof.
  intros Hp. destruct a as [|x a]; [reflexivity|].
  destruct (decide (p = x :: a)) as [->|Hne].
  - rewrite Hp. unfold is_dir. now rewrite lookup_insert_eq.
  - unfold is_dir. now rewrite lookup_insert_ne.
Qed.

Lemma reachable_ext fs fs' p :
  (forall a, is_dir fs' a = is_dir fs a) -> reachable fs' p = reachable fs p.
Proof.
  intros H. unfold reachable.
  induction (ancestors p) as [|a l IH]; [reflexivity|].
  simpl. now rewrite H, IH.
Qed.

(** A write that succeeds stores a file at its path and changes no
    other node, nor which paths are directories. *)
Lemma writeFileSync_ok p content mode fs fs' :
  writeFileSync p content mode fs = (fs', Normal tt) ->
  reachable fs p = true /\
  (exists mode', fs' = <[p := File content mode']> fs) /\
  (forall a, is_dir fs' a = is_dir fs a).
Proof.
  unfold writeFileSync. destruct (reachable fs p) eqn:Hr; [|discriminate].
  destruct p as [|x p]; [destruct (fs !! []) as [[]|]; discriminate|].
  destruct (fs !! (x :: p)) as [[c m|]|] eqn:Hl; intros [= <-];
    (split; [reflexivity|split; [eauto|]]); intros a;
    apply is_dir_insert_file; unfold is_dir; now rewrite Hl.
Qed.

Lemma is_dir_delete_file fs p content mode a :
  fs !! p = Some (File content mode) ->
  is_dir (delete p fs) a = is_dir fs a.
Proof.
  intros Hp. destruct a as [|x a]; [reflexivity|]. unfold is_dir.
  destruct (decide (p = x :: a)) as [->|Hne].
  - now rewrite lookup_delete_eq, Hp.
  - now rewrite lookup_delete_ne.
Qed.

Lemma ancestors_shorter p a : In a (ancestors p) -> length a < length p.
Proof.
  revert a. induction p as [|x p IH]; intros a Ha; [destruct Ha|].
  simpl in Ha. destruct Ha as [<-|Ha]; [simpl; lia|].
  apply in_map_iff in Ha as (a' & <- & Ha'). apply IH in Ha'. simpl. lia.
Qed.

End FsFacts.

Lemma starts_with_app needle hay rest :
  Str.starts_with needle hay = true ->
  Str.starts_with needle (hay ++ rest) = true.
Proof.
  revert hay. induction needle as [|a n IH]; intros hay H; [reflexivity|].
  destruct hay as [|b h]; [discriminate|]. simpl in *.
  apply andb_prop in H as [-> H]. now rewrite IH.
Qed.

Lemma includes_chars_app hay rest needle :
  Str.includes_chars hay needle = true ->
  Str.includes_chars (hay ++ rest) needle = true.
Proof.
  induction hay as [|b h IH]; intros H.
  - simpl in H. rewrite orb_false_r in H.
    destruct needle; [|discriminate]. now destruct rest.
  - simpl in H. apply orb_prop in H as [H|H]; simpl.
    + change (b :: h ++ rest) with ((b :: h) ++ rest).
      now rewrite starts_with_app.
    + rewrite IH by assumption. apply orb_true_r.
Qed.

Lemma chars_append a b : Str.chars (a +:+ b) = Str.chars a ++ Str.chars b.
Proof.
  unfold Str.chars. induction a as [|c a IH]; [reflexivity|].
  simpl. now rewrite IH.
Qed.

Lemma includes_append hay rest needle :
  Str.includes hay needle = true ->
  Str.includes (hay +:+ rest) needle = true.
Proof.
  unfold Str.includes. rewrite chars_append. apply includes_chars_app.
Qed.

(** ** Removing hooks *)

Lemma signed_is_file fs p :
  signed fs p = true ->
  exists content mode, fs !! p = Some (Fs.File content mode).
Proof.
  unfold signed. intros H. apply andb_prop in H as [_ H].
  destruct p as [|x p]; [discriminate|].
  destruct (fs !! (x :: p)) as [[content mode|]|]; try discriminate. eauto.
Qed.

Lemma remove_hook_spec fs p :
  remove_hook fs p = if signed fs p then delete p fs else fs.
Proof.
  unfold remove_hook, signed, Fs.existsSync, Fs.readFileSync, Fs.unlinkSync,
    Fs.present.
  destruct (Fs.reachable fs p); [|reflexivity]. cbn [andb].
  destruct p as [|x p]; [reflexivity|].
  destruct (fs !! (x :: p)) as [[content mode|]|]; reflexivity.
Qed.

Lemma remove_hook_is_dir fs p a :
  Fs.is_dir (remove_hook fs p) a = Fs.is_dir fs a.
Proof.
  rewrite remove_hook_spec. destruct (signed fs p) eqn:Hs; [|reflexivity].
  apply signed_is_file in Hs as (content & mode & Hp).
  eapply FsFacts.is_dir_delete_file; eauto.
Qed.

Lemma signed_ext fs fs' q :
  (forall a, Fs.is_dir fs' a = Fs.is_dir fs a) ->
  fs' !! q = fs !! q ->
  signed fs' q = signed fs q.
Proof.
  intros Hd Hq. unfold signed.
  rewrite (FsFacts.reachable_ext _ _ _ Hd).
  destruct q as [|x q]; [reflexivity|]. now rewrite Hq.
Qed.

Lemma sweep_is_dir targets :
  forall fs a, Fs.is_dir (fold_left remove_hook targets fs) a = Fs.is_dir fs a.
Proof.
  induction targets as [|p ts IH]; intros fs a; [reflexivity|].
  simpl. now rewrite IH, remove_hook_is_dir.
Qed.

(** The effect of a sweep over a list of paths on any node: the files
    among the targets that carry the signature are gone, every other node
    is as before. *)
Lemma sweep_lookup targets :
  forall (fs : Fs.t) (q : Fs.path),
    fold_left remove_hook targets fs !! q
    = if bool_decide (q ∈ targets) && signed fs q then None else fs !! q.
Proof.
  induction targets as [|p ts IH]; intros fs q.
  - cbn [fold_left].
    rewrite (bool_decide_eq_false_2 (q ∈ [])) by apply not_elem_of_nil.
    reflexivity.
  - cbn [fold_left]. rewrite IH. rewrite remove_hook_spec.
    destruct (signed fs p) eqn:Hp.
    + destruct (decide (q = p)) as [->|Hne].
      * rewrite lookup_delete_eq, Hp.
        rewrite (bool_decide_eq_true_2 (p ∈ p :: ts)) by apply list_elem_of_here.
        cbn [andb]. now destruct (_ && _).
      * rewrite lookup_delete_ne by congruence.
        assert (Hs : signed (delete p fs) q = signed fs q).
        { apply signed_is_file in Hp as (content & mode & Hfile).
          apply signed_ext.
          - intros a. eapply FsFacts.is_dir_delete_file; eauto.
          - apply lookup_delete_ne. congruence. }
        rewrite Hs.
        assert (Hin : bool_decide (q ∈ p :: ts) = bool_decide (q ∈ ts)).
        { apply bool_decide_ext. rewrite elem_of_cons. tauto. }
        now rewrite Hin.
    + destruct (decide (q = p)) as [->|Hne].
      * rewrite Hp, !andb_false_r. reflexivity.
      * assert (Hin : bool_decide (q ∈ p :: ts) = bool_decide (q ∈ ts)).
        { apply bool_decide_ext. rewrite elem_of_cons. tauto. }
        now rewrite Hin.
Qed.

Lemma sweep_signed targets fs q :
  signed (fold_left remove_hook targets fs) q
  = signed fs q && negb (bool_decide (q ∈ targets)).
Proof.
  destruct q as [|x q].
  - unfold signed. now rewrite !andb_false_r.
  - assert (Hunf : forall fs0 : Fs.t,
               signed fs0 (x :: q)
               = Fs.reachable fs0 (x :: q) &&
                 match fs0 !! (x :: q) with
                 | Some (Fs.File content _) =>
                     Str.includes content extensionSignature
                 | _ => false
                 end) by reflexivity.
    rewrite (Hunf (fold_left remove_hook targets fs)), sweep_lookup.
    rewrite (FsFacts.reachable_ext _ _ _ (sweep_is_dir targets fs)).
    destruct (bool_decide (x :: q ∈ targets));
      destruct (signed fs (x :: q)) eqn:Hs; cbn [andb negb];
      rewrite ?andb_false_r; try reflexivity; now rewrite <- Hunf.
Qed.

Lemma hooksInstalled_signed workspacePath fs :
  hooksInstalled workspacePath fs = signed fs (preCommitHook workspacePath).
Proof.
  unfold hooksInstalled, signed, Fs.existsSync, Fs.readFileSync, Fs.present.
  generalize (preCommitHook workspacePath). intros p.
  destruct (Fs.reachable fs p); [|reflexivity]. cbn [andb].
  destruct p as [|x p]; [reflexivity|].
  destruct (fs !! (x :: p)) as [[content mode|]|]; reflexivity.
Qed.

(** C7.  For every workspace directory and every state of the file
    system, after [removeGitHooks] the detection used by the status bar
    reports false. *)
Theorem remove_then_detect (workspacePath : Fs.path) (fs : Fs.t) :
  hooksInstalled workspacePath (removeGitHooks workspacePath fs) = false.
Proof.
  rewrite hooksInstalled_signed. unfold removeGitHooks.
  rewrite sweep_signed.
  rewrite (bool_decide_eq_true_2 (preCommitHook workspacePath ∈ _)).
  - apply andb_false_r.
  - apply list_elem_of_here.
Qed.

(** ** Installing hooks *)

Lemma hook_paths_distinct workspacePath :
  NoDup (hook_paths workspacePath).
Proof.
  unfold hook_paths, preCommitHook, commitMsgHook, postCheckoutHook, prePushHook.
  repeat (apply NoDup_cons; split); try apply NoDup_nil_2;
    rewrite ?not_elem_of_cons; repeat split; try apply not_elem_of_nil;
    intros H; apply app_inv_head in H; discriminate.
Qed.

Lemma hook_texts_signed config validation :
  Str.includes (preCommitText config validation) extensionSignature = true /\
  Str.includes (commitMsgText config validation) extensionSignature = true /\
  Str.includes (prePushText config validation) extensionSignature = true /\
  Str.includes (postCheckoutText config validation) extensionSignature = true.
Proof.
  repeat split; apply includes_append; reflexivity.
Qed.

Lemma hook_contents_signed config preCommit commitMsg prePush postCheckout :
  hook_contents config = Normal (preCommit, commitMsg, prePush, postCheckout) ->
  Forall (fun content => Str.includes content extensionSignature = true)
         [preCommit; commitMsg; prePush; postCheckout].
Proof.
  unfold hook_contents, preCommitContent, commitMsgContent, prePushContent,
    postCheckoutContent, bind.
  destruct (branch_validation_part config) as [vb|]; [|discriminate].
  destruct (commit_validation_part config) as [vc|]; [|discriminate].
  intros [= <- <- <- <-].
  repeat constructor; apply hook_texts_signed.
Qed.

Lemma hook_path_not_root (workspacePath p : Fs.path) :
  In p (hook_paths workspacePath) -> p <> [].
Proof.
  unfold hook_paths, preCommitHook, commitMsgHook, postCheckoutHook,
    prePushHook, hooksDir.
  intros H Hp. subst p. simpl in H.
  repeat destruct H as [H|H]; try (destruct workspacePath; discriminate H).
  exact H.
Qed.

(** When the [try] block of [installGitHooks] runs to its end, each of
    the four hook paths holds the text written to it. *)
Lemma write_hooks_ok (workspacePath : Fs.path)
    (preCommit commitMsg prePush postCheckout : string) (fs fs' : Fs.t) :
  write_hooks workspacePath (preCommit, commitMsg, prePush, postCheckout) fs
  = (fs', Normal tt) ->
  Forall2 (fun hookPath content =>
             Fs.reachable fs' hookPath = true /\
             exists mode, fs' !! hookPath = Some (Fs.File content mode))
          (hook_paths workspacePath)
          [preCommit; commitMsg; postCheckout; prePush].
Proof.
  unfold write_hooks, fs_bind.
  destruct (if Fs.existsSync fs (hooksDir workspacePath) then fs_skip fs
            else Fs.mkdirSync (hooksDir workspacePath) fs) as [fs0 [[]|]];
    [|discriminate].
  destruct (Fs.writeFileSync (preCommitHook workspacePath) preCommit 493 fs0)
    as [fs1 [[]|]] eqn:H1; [|discriminate].
  destruct (Fs.writeFileSync (commitMsgHook workspacePath) commitMsg 493 fs1)
    as [fs2 [[]|]] eqn:H2; [|discriminate].
  destruct (Fs.writeFileSync (postCheckoutHook workspacePath) postCheckout 493 fs2)
    as [fs3 [[]|]] eqn:H3; [|discriminate].
  intros H4.
  apply FsFacts.writeFileSync_ok in H1 as (R1 & (m1 & ->) & D1).
  apply FsFacts.writeFileSync_ok in H2 as (R2 & (m2 & ->) & D2).
  apply FsFacts.writeFileSync_ok in H3 as (R3 & (m3 & ->) & D3).
  apply FsFacts.writeFileSync_ok in H4 as (R4 & (m4 & ->) & D4).
  assert (N12 : preCommitHook workspacePath <> commitMsgHook workspacePath)
    by (intros H; apply app_inv_head in H; discriminate).
  assert (N13 : preCommitHook workspacePath <> postCheckoutHook workspacePath)
    by (intros H; apply app_inv_head in H; discriminate).
  assert (N14 : preCommitHook workspacePath <> prePushHook workspacePath)
    by (intros H; apply app_inv_head in H; discriminate).
  assert (N23 : commitMsgHook workspacePath <> postCheckoutHook workspacePath)
    by (intros H; apply app_inv_head in H; discriminate).
  assert (N24 : commitMsgHook workspacePath <> prePushHook workspacePath)
    by (intros H; apply app_inv_head in H; discriminate).
  assert (N34 : postCheckoutHook workspacePath <> prePushHook workspacePath)
    by (intros H; apply app_inv_head in H; discriminate).
  unfold hook_paths.
  repeat constructor.
  - rewrite (FsFacts.reachable_ext _ _ _ D4), (FsFacts.reachable_ext _ _ _ D3),
      (FsFacts.reachable_ext _ _ _ D2), (FsFacts.reachable_ext _ _ _ D1).
    exact R1.
  - exists m1. rewrite !lookup_insert_ne by congruence. apply lookup_insert_eq.
  - rewrite (FsFacts.reachable_ext _ _ _ D4), (FsFacts.reachable_ext _ _ _ D3),
      (FsFacts.reachable_ext _ _ _ D2).
    exact R2.
  - exists m2. rewrite !lookup_insert_ne by congruence. apply lookup_insert_eq.
  - rewrite (FsFacts.reachable_ext _ _ _ D4), (FsFacts.reachable_ext _ _ _ D3).
    exact R3.
  - exists m3. rewrite !lookup_insert_ne by congruence. apply lookup_insert_eq.
  - rewrite (FsFacts.reachable_ext _ _ _ D4). exact R4.
  - exists m4. apply lookup_insert_eq.
Qed.

Section InstallFacts.

Variable JSON_parse : string -> option (string -> jsvalue).

(** After an installation that reports success, every hook path holds a
    file that carries the signature. *)
Lemma install_signs_hooks (workspacePath : Fs.path) (fs fs' : Fs.t) :
  installGitHooks JSON_parse workspacePath fs = (fs', [install_ok], Normal tt) ->
  forall hookPath, In hookPath (hook_paths workspacePath) ->
                   signed fs' hookPath = true.
Proof.
  unfold installGitHooks.
  destruct (hook_contents _) as [[[[pc cm] pp] po]|] eqn:Hc; [|discriminate].
  destruct (write_hooks _ _ fs) as [fs1 [[]|e]] eqn:Hw; [|discriminate].
  intros [= <-].
  apply hook_contents_signed in Hc. apply write_hooks_ok in Hw.
  assert (Hall : Forall (fun hookPath => signed fs1 hookPath = true)
                        (hook_paths workspacePath)).
  { unfold hook_paths in *.
    repeat match goal with
           | H : Forall2 _ (_ :: _) _ |- _ =>
               apply Forall2_cons_1 in H as [[? [? ?]] H]
           | H : Forall _ (_ :: _) |- _ => apply Forall_cons_1 in H as [? H]
           end.
    unfold preCommitHook, commitMsgHook, postCheckoutHook, prePushHook,
      hooksDir in *.
    repeat constructor; unfold signed;
      match goal with
      | R : Fs.reachable _ ?p = true, L : _ !! ?p = Some _
        |- Fs.reachable _ ?p && _ = true =>
          rewrite R; cbn [andb];
          destruct p eqn:Hp; [now destruct workspacePath|];
          rewrite L; assumption
      end. }
  intros hookPath Hin. rewrite Forall_forall in Hall.
  apply Hall. now apply list_elem_of_In.
Qed.

End InstallFacts.

(** ** Install, detect, remove *)

(** C6 (as the code has it).  Whenever [installGitHooks] reports
    success, detection on the same directory reports true. *)
Theorem install_then_detect
    (JSON_parse : string -> option (string -> jsvalue))
    (workspacePath : Fs.path) (fs fs' : Fs.t) :
  installGitHooks JSON_parse workspacePath fs = (fs', [install_ok], Normal tt) ->
  hooksInstalled workspacePath fs' = true.
Proof.
  intros H. rewrite hooksInstalled_signed.
  eapply install_signs_hooks; eauto.
  unfold hook_paths. now left.
Qed.

Lemma install_then_detect_witness :
  hooksInstalled ["repo"]
    (fst (fst (installGitHooks (fun _ => None) ["repo"] checkout))) = true.
Proof.
  apply (install_then_detect (fun _ => None) ["repo"] checkout).
  vm_compute. reflexivity.
Defined.

(** C6 refuted as stated: in a worktree checkout the hooks directory
    cannot be created, the installation reports the failure, and
    detection reports false. *)
Lemma install_fails_in_worktree :
  installGitHooks (fun _ => None) ["repo"] worktree
  = (worktree, [install_failed (FsError "ENOTDIR")], Normal tt) /\
  hooksInstalled ["repo"] worktree = false.
Proof. split; vm_compute; reflexivity. Qed.

(** C8.  [removeGitHooks] deletes each of the four hook files that is
    present with the signature marker, and changes no other node: not a
    hook file without the marker, and nothing outside the four paths.  In
    particular, after a successful installation and an edit that replaces
    one hook file by a text without the marker, removal leaves that file
    as edited and deletes the other three. *)
Theorem remove_deletes_exactly_signed_hooks
    (JSON_parse : string -> option (string -> jsvalue))
    (workspacePath : Fs.path) (fs : Fs.t) :
  (forall hookPath,
     In hookPath (hook_paths workspacePath) ->
     signed fs hookPath = true ->
     removeGitHooks workspacePath fs !! hookPath = None) /\
  (forall p : Fs.path,
     signed fs p = false ->
     removeGitHooks workspacePath fs !! p = fs !! p) /\
  (forall p : Fs.path,
     ~ In p (hook_paths workspacePath) ->
     removeGitHooks workspacePath fs !! p = fs !! p) /\
  (forall (fs0 : Fs.t) (edited : Fs.path) (content : string) (mode : N),
     installGitHooks JSON_parse workspacePath fs0 = (fs, [install_ok], Normal tt) ->
     In edited (hook_paths workspacePath) ->
     Str.includes content extensionSignature = false ->
     removeGitHooks workspacePath (<[edited := Fs.File content mode]> fs) !! edited
     = Some (Fs.File content mode) /\
     forall other,
       In other (hook_paths workspacePath) ->
       other <> edited ->
       removeGitHooks workspacePath (<[edited := Fs.File content mode]> fs) !! other
       = None).
Proof.
  unfold removeGitHooks. repeat split.
  - intros hookPath Hin Hs. rewrite sweep_lookup, Hs.
    rewrite bool_decide_eq_true_2; [reflexivity|]. now apply list_elem_of_In.
  - intros p Hs. now rewrite sweep_lookup, Hs, andb_false_r.
  - intros p Hin. rewrite sweep_lookup.
    rewrite bool_decide_eq_false_2; [reflexivity|]. now rewrite list_elem_of_In.
  - rename H into Hinst, H0 into Hin, H1 into Hc.
    pose proof (install_signs_hooks _ _ _ _ Hinst edited Hin) as Hs.
    rewrite sweep_lookup.
    replace (signed (<[edited:=Fs.File content mode]> fs) edited) with false.
    + rewrite andb_false_r. apply lookup_insert_eq.
    + unfold signed. destruct edited as [|x e]; [now rewrite andb_false_r|].
      now rewrite lookup_insert_eq, Hc, andb_false_r.
  - intros other Hin' Hne.
    rename H into Hinst, H0 into Hin, H1 into Hc.
    pose proof (install_signs_hooks _ _ _ _ Hinst edited Hin) as Hs.
    pose proof (install_signs_hooks _ _ _ _ Hinst other Hin') as Hs'.
    rewrite sweep_lookup.
    rewrite bool_decide_eq_true_2 by now apply list_elem_of_In.
    replace (signed (<[edited:=Fs.File content mode]> fs) other) with true;
      [reflexivity|].
    rewrite <- Hs'. symmetry. apply signed_ext.
    + intros a. apply FsFacts.is_dir_insert_file.
      apply signed_is_file in Hs as (c & m & Hl).
      destruct edited; [now apply hook_path_not_root in Hin|].
      unfold Fs.is_dir. now rewrite Hl.
    + now apply lookup_insert_ne.
Qed.

Lemma remove_deletes_exactly_signed_hooks_witness :
  let installed := fst (fst (installGitHooks (fun _ => None) ["repo"] checkout)) in
  let edited := <[ commitMsgHook ["repo"] := Fs.File "#!/bin/sh" 493 ]> installed in
  removeGitHooks ["repo"] edited !! commitMsgHook ["repo"]
  = Some (Fs.File "#!/bin/sh" 493) /\
  removeGitHooks ["repo"] edited !! preCommitHook ["repo"] = None /\
  removeGitHooks ["repo"] installed !! prePushHook ["repo"] = None /\
  removeGitHooks ["repo"] edited !! ["repo"; ".git"] = edited !! ["repo"; ".git"].
Proof.
  intros installed edited.
  destruct (remove_deletes_exactly_signed_hooks (fun _ => None) ["repo"] installed)
    as (Hdel & _ & _ & Hscenario).
  destruct (remove_deletes_exactly_signed_hooks (fun _ => None) ["repo"] edited)
    as (_ & _ & Hother & _).
  destruct (Hscenario checkout (commitMsgHook ["repo"]) "#!/bin/sh" 493%N)
    as [Hedited Hothers];
    [vm_compute; reflexivity | vm_compute; tauto | reflexivity |].
  split; [|split; [|split]].
  - exact Hedited.
  - apply Hothers; [vm_compute; tauto | discriminate].
  - apply Hdel; [vm_compute; tauto | vm_compute; reflexivity].
  - apply Hother. vm_compute. intros [H|[H|[H|[H|[]]]]]; discriminate.
Defined.

(** ** Deactivation *)

Lemma deactivate_is_a_sweep (folders : list Fs.path) :
  forall fs : Fs.t,
    fold_left (fun fs workspacePath => removeGitHooks workspacePath fs) folders fs
    = fold_left remove_hook (concat (map hook_paths folders)) fs.
Proof.
  induction folders as [|w ws IH]; intros fs; [reflexivity|].
  cbn [fold_left map concat]. rewrite fold_left_app. apply IH.
Qed.

(** C10.  [deactivate] drops the status bar item and, without any
    remove command, performs the removal on every workspace folder: each
    of a folder's four hook files that carries the signature marker is
    deleted, and every node that does not carry it is preserved. *)
Theorem deactivate_removes_hooks
    (folders : list Fs.path) (ext : Extension) :
  globalStatusBarItem (deactivate (Some folders) ext) = None /\
  (forall workspacePath hookPath,
     In workspacePath folders ->
     In hookPath (hook_paths workspacePath) ->
     signed (files ext) hookPath = true ->
     files (deactivate (Some folders) ext) !! hookPath = None) /\
  (forall p : Fs.path,
     signed (files ext) p = false ->
     files (deactivate (Some folders) ext) !! p = files ext !! p) /\
  (forall p : Fs.path,
     (forall workspacePath,
        In workspacePath folders -> ~ In p (hook_paths workspacePath)) ->
     files (deactivate (Some folders) ext) !! p = files ext !! p).
Proof.
  unfold deactivate. cbn [globalStatusBarItem files].
  rewrite deactivate_is_a_sweep. repeat split.
  - intros w hookPath Hw Hin Hs. rewrite sweep_lookup, Hs.
    rewrite bool_decide_eq_true_2; [reflexivity|].
    apply list_elem_of_In, in_concat. exists (hook_paths w). split; [|exact Hin].
    now apply in_map.
  - intros p Hs. now rewrite sweep_lookup, Hs, andb_false_r.
  - intros p Hp. rewrite sweep_lookup.
    rewrite bool_decide_eq_false_2; [reflexivity|].
    rewrite list_elem_of_In, in_concat. intros (l & Hl & Hin).
    apply in_map_iff in Hl as (w & <- & Hw). exact (Hp w Hw Hin).
Qed.

Lemma deactivate_removes_hooks_witness :
  let installed := fst (fst (installGitHooks (fun _ => None) ["repo"] checkout)) in
  let ext := {| globalStatusBarItem := Some (updateStatusBar (Some ["repo"]) installed);
                files := installed |} in
  files (deactivate (Some [["repo"]]) ext) !! postCheckoutHook ["repo"] = None /\
  files (deactivate (Some [["repo"]]) ext) !! ["repo"; ".git"] = Some Fs.Dir.
Proof.
  intros installed ext.
  destruct (deactivate_removes_hooks [["repo"]] ext) as (_ & Hdel & Hkeep & _).
  split.
  - apply (Hdel ["repo"]); [now left | vm_compute; tauto | vm_compute; reflexivity].
  - rewrite Hkeep; vm_compute; reflexivity.
Defined.

(** ** The tokenizer on inert text *)

Module ShFacts.

Import Sh.

Lemma scan_app (l : lexer) (a b : list ascii) :
  scan l (a ++ b) = scan (scan l a) b.
Proof. unfold scan. apply fold_left_app. Qed.

Lemma append_empty_r (s : string) : s +:+ "" = s.
Proof.
  induction s as [|c s IH]; [reflexivity|].
  change (String c s +:+ "") with (String c (s +:+ "")). now rewrite IH.
Qed.

Lemma append_assoc (a b c : string) : (a +:+ b) +:+ c = a +:+ (b +:+ c).
Proof.
  induction a as [|x a IH]; [reflexivity|].
  change (String x ((a +:+ b) +:+ c) = String x (a +:+ (b +:+ c))).
  now rewrite IH.
Qed.

Lemma snoc_append (s : string) (c : ascii) (v : string) :
  snoc s c +:+ v = s +:+ String c v.
Proof. unfold snoc. now rewrite append_assoc. Qed.

Lemma expands_false (d : ascii) :
  expands d = false ->
  (nat_of_ascii d =? 40) = false /\ (nat_of_ascii d =? 123) = false /\
  is_name_start d = false /\ (is_digit d || is_special_param d) = false.
Proof.
  unfold expands. cbv zeta. intros H.
  repeat (apply orb_false_elim in H as [H ?]).
  repeat split; auto. apply orb_false_intro; auto.
Qed.

Lemma scan_cons (l : lexer) (c : ascii) (cs : list ascii) :
  scan l (c :: cs) = scan (step l c) cs.
Proof. reflexivity. Qed.

Lemma ascii_of_code (c : ascii) (n : nat) :
  nat_of_ascii c = n -> c = ascii_of_nat n.
Proof. intros <-. symmetry. apply ascii_nat_embedding. Qed.

Section DqSteps.

Variables (ts : list token) (ps : word) (ds : list dpart) (text : string).

Lemma step_dq_plain (c : ascii) :
  (nat_of_ascii c =? 34) = false -> (nat_of_ascii c =? 92) = false ->
  (nat_of_ascii c =? 36) = false -> (nat_of_ascii c =? 96) = false ->
  step (mkLexer InDq ts ps ds text "") c
  = mkLexer InDq ts ps ds (snoc text c) "".
Proof.
  intros H34 H92 H36 H96. unfold step, step_dq. cbn [lmode]. cbv zeta.
  now rewrite H34, H92, H36, H96.
Qed.

Lemma step_dq_backslash :
  step (mkLexer InDq ts ps ds text "") "\"
  = mkLexer DqEsc ts ps ds text "".
Proof. reflexivity. Qed.

Lemma step_dq_dollar :
  step (mkLexer InDq ts ps ds text "") "$"
  = mkLexer (Dollar true) ts ps ds text "".
Proof. reflexivity. Qed.

Lemma step_escaped (d : ascii) :
  step (mkLexer DqEsc ts ps ds text "") d
  = mkLexer InDq ts ps ds
      (let m := nat_of_ascii d in
       if (m =? 36) || (m =? 96) || (m =? 34) || (m =? 92) then snoc text d
       else if m =? 10 then text
       else snoc (snoc text "\") d) "".
Proof.
  unfold step. cbn [lmode toks parts dparts lit]. cbv zeta.
  destruct ((nat_of_ascii d =? 36) || (nat_of_ascii d =? 96)
            || (nat_of_ascii d =? 34) || (nat_of_ascii d =? 92));
    [reflexivity|].
  now destruct (nat_of_ascii d =? 10).
Qed.

Lemma step_dollar_literal (e : ascii) :
  expands e = false ->
  step (mkLexer (Dollar true) ts ps ds text "") e
  = step (mkLexer InDq ts ps ds (snoc text "$") "") e.
Proof.
  intros He. apply expands_false in He as (H40 & H123 & Hn & Hs).
  unfold step. cbn [lmode toks parts dparts lit]. cbv zeta.
  now rewrite H40, H123, Hn, Hs.
Qed.

End DqSteps.

(** Between double quotes, inert text followed by a character that does
    not continue an expansion is read as literal text. *)
Lemma scan_literal (cs : list ascii) :
  forall v, literal_dq cs = Some v ->
  forall d rest, expands d = false ->
  forall ts ps ds text,
    scan (mkLexer InDq ts ps ds text "") (cs ++ d :: rest)
    = scan (step (mkLexer InDq ts ps ds (text +:+ v) "") d) rest.
Proof.
  induction cs as [cs IH] using (induction_ltof1 _ (@length ascii)).
  unfold ltof in IH.
  intros v Hv d rest Hd ts ps ds text.
  destruct cs as [|c cs'].
  - injection Hv as <-. now rewrite append_empty_r.
  - cbn [literal_dq] in Hv. cbv zeta in Hv.
    cbn [app]. rewrite scan_cons.
    destruct (nat_of_ascii c =? 34) eqn:E34; [discriminate|].
    destruct (nat_of_ascii c =? 96) eqn:E96; [discriminate|].
    cbn [orb] in Hv.
    destruct (nat_of_ascii c =? 92) eqn:E92.
    + apply Nat.eqb_eq, ascii_of_code in E92. subst c.
      destruct cs' as [|d0 cs'']; [discriminate|].
      destruct (literal_dq cs'') as [v0|] eqn:Hv0; [|discriminate].
      injection Hv as <-.
      cbn [app]. rewrite scan_cons.
      change (ascii_of_nat 92) with "\"%char.
      rewrite step_dq_backslash, step_escaped. cbv zeta.
      rewrite (IH cs'' ltac:(simpl; lia) v0 Hv0 d rest Hd).
      destruct ((nat_of_ascii d0 =? 36) || (nat_of_ascii d0 =? 96)
                || (nat_of_ascii d0 =? 34) || (nat_of_ascii d0 =? 92)).
      * now rewrite snoc_append.
      * destruct (nat_of_ascii d0 =? 10); [reflexivity|].
        now rewrite !snoc_append.
    + destruct (nat_of_ascii c =? 36) eqn:E36.
      * apply Nat.eqb_eq, ascii_of_code in E36. subst c.
        change (ascii_of_nat 36) with "$"%char. rewrite step_dq_dollar.
        destruct cs' as [|d0 cs''].
        -- injection Hv as <-. cbn [app]. rewrite scan_cons.
           now rewrite step_dollar_literal.
        -- destruct (expands d0) eqn:Hd0; [discriminate|].
           destruct (literal_dq (d0 :: cs'')) as [v0|] eqn:Hv0; [|discriminate].
           injection Hv as <-.
           cbn [app]. rewrite scan_cons, step_dollar_literal by assumption.
           rewrite <- scan_cons.
           change (d0 :: cs'' ++ d :: rest) with ((d0 :: cs'') ++ d :: rest).
           rewrite (IH (d0 :: cs'') ltac:(simpl; lia) v0 Hv0 d rest Hd).
           now rewrite snoc_append.
      * destruct (literal_dq cs') as [v0|] eqn:Hv0; [|discriminate].
        injection Hv as <-.
        rewrite step_dq_plain by assumption.
        rewrite (IH cs' ltac:(simpl; lia) v0 Hv0 d rest Hd).
        now rewrite snoc_append.
Qed.

End ShFacts.

(** ** More fuel changes nothing *)

Module ShFuel.

Import Sh.

Lemma with_value_refines {A : Type} (o : outcome A) (k k' : A -> answer) :
  refines k k' ->
  forall a, with_value o k = Done a -> with_value o k' = Done a.
Proof. intros Hk a. destruct o; simpl; auto. Qed.

Section Level.

Variable ext : list (list string) -> list string -> string -> reply.
Variables run run' :
  list cmd -> shell -> string -> list (list string) ->
  (result -> answer) -> answer.
Hypothesis Hrun : run_refines run run'.

Lemma substitute_refines script sh stdin e k k' :
  refines k k' ->
  forall a, substitute run script sh stdin e k = Done a ->
            substitute run' script sh stdin e k' = Done a.
Proof.
  intros Hk a. unfold substitute. destruct (parse script); [|discriminate].
  apply Hrun. intros r b. apply Hk.
Qed.

Lemma expand_dq_refines ds :
  forall sh stdin e k k',
    refines k k' ->
    forall a, expand_dq run ds sh stdin e k = Done a ->
              expand_dq run' ds sh stdin e k' = Done a.
Proof.
  induction ds as [|d ds IH]; intros sh stdin e k k' Hk a; cbn [expand_dq].
  - apply Hk.
  - destruct d as [text|name|script].
    + now apply IH.
    + apply with_value_refines. intros v b. now apply IH.
    + apply substitute_refines. intros e' b. now apply IH.
Qed.

Lemma expand_refines splitting w :
  forall sh stdin e k k',
    refines k k' ->
    forall a, expand run splitting w sh stdin e k = Done a ->
              expand run' splitting w sh stdin e k' = Done a.
Proof.
  induction w as [|p w IH]; intros sh stdin e k k' Hk a; cbn [expand].
  - apply Hk.
  - destruct p as [text|text|ds|name|script].
    + now apply IH.
    + now apply IH.
    + apply expand_dq_refines. intros e' b. now apply IH.
    + destruct splitting; [discriminate|].
      apply with_value_refines. intros v b. now apply IH.
    + destruct splitting; [discriminate|].
      apply substitute_refines. intros e' b. now apply IH.
Qed.

Lemma expand_words_refines ws :
  forall sh stdin calls sub k k',
    refines3 k k' ->
    forall a, expand_words run ws sh stdin calls sub k = Done a ->
              expand_words run' ws sh stdin calls sub k' = Done a.
Proof.
  induction ws as [|w ws IH]; intros sh stdin calls sub k k' Hk a;
    cbn [expand_words].
  - apply Hk.
  - apply expand_refines. intros e b. apply IH.
    intros fields calls' sub' c. apply Hk.
Qed.

Lemma assign_all_refines assigns :
  forall sh stdin calls sub k k',
    refines3 k k' ->
    forall a, assign_all run assigns sh stdin calls sub k = Done a ->
              assign_all run' assigns sh stdin calls sub k' = Done a.
Proof.
  induction assigns as [|[name w] assigns IH];
    intros sh stdin calls sub k k' Hk a; cbn [assign_all].
  - apply Hk.
  - apply expand_refines. intros e b. now apply IH.
Qed.

Lemma call_refines body args sh stdin calls k k' :
  refines k k' ->
  forall a, call run body args sh stdin calls k = Done a ->
            call run' body args sh stdin calls k' = Done a.
Proof. intros Hk a. unfold call. apply Hrun. intros r b. apply Hk. Qed.

Lemma dispatch_refines name args sh stdin calls k k' :
  refines k k' ->
  forall a, dispatch ext run name args sh stdin calls k = Done a ->
            dispatch ext run' name args sh stdin calls k' = Done a.
Proof.
  intros Hk a. unfold dispatch.
  destruct (String.eqb name "exit").
  { apply with_value_refines. intros n b. apply Hk. }
  destruct (String.eqb name "return").
  { apply with_value_refines. intros n b. apply Hk. }
  destruct (String.eqb name "local").
  { apply with_value_refines. intros n b. apply Hk. }
  destruct (assoc name (funs sh)).
  { now apply call_refines. }
  destruct (String.eqb name "echo"); [apply Hk|].
  destruct (String.eqb name "[").
  { apply with_value_refines. intros n b. apply Hk. }
  destruct (String.eqb name "test").
  { apply with_value_refines. intros n b. apply Hk. }
  apply Hk.
Qed.

Lemma pipe_refines stages :
  forall sh stdin calls st k k',
    refines k k' ->
    forall a, pipe run stages sh stdin calls st k = Done a ->
              pipe run' stages sh stdin calls st k' = Done a.
Proof.
  induction stages as [|c stages IH]; intros sh stdin calls st k k' Hk a;
    cbn [pipe].
  - apply Hk.
  - apply Hrun. intros r b. now apply IH.
Qed.

Lemma exec1_refines c sh stdin calls k k' :
  refines k k' ->
  forall a, exec1 ext run c sh stdin calls k = Done a ->
            exec1 ext run' c sh stdin calls k' = Done a.
Proof.
  intros Hk a.
  destruct c as [assigns words redirs|bang stages|c1 c2|c1 c2|body|cond yes no
                |name body]; cbn [exec1].
  - destruct (forallb harmless redirs); [|discriminate].
    apply expand_words_refines. intros fields calls1 sub1 b.
    destruct fields as [|name args].
    + apply assign_all_refines. intros sh' calls2 sub2 b'. apply Hk.
    + destruct assigns; [|discriminate]. now apply dispatch_refines.
  - destruct stages as [|c' [|c'' stages]].
    + apply pipe_refines. intros r b. apply Hk.
    + apply Hrun. intros r b. apply Hk.
    + apply pipe_refines. intros r b. apply Hk.
  - apply Hrun. intros ra b.
    destruct (flow_of ra); try apply Hk.
    destruct (status ra); try apply Hk.
    apply Hrun. intros rb b'. apply Hk.
  - apply Hrun. intros ra b.
    destruct (flow_of ra); try apply Hk.
    destruct (status ra); try apply Hk.
    apply Hrun. intros rb b'. apply Hk.
  - now apply Hrun.
  - apply Hrun. intros rc b.
    destruct (flow_of rc); try apply Hk.
    destruct (status rc).
    + apply Hrun. intros rb b'. apply Hk.
    + destruct no; [apply Hk|]. apply Hrun. intros rb b'. apply Hk.
  - apply Hk.
Qed.

Lemma exec_list_refines cs :
  forall sh stdin calls st output k k',
    refines k k' ->
    forall a, exec_list ext run cs sh stdin calls st output k = Done a ->
              exec_list ext run' cs sh stdin calls st output k' = Done a.
Proof.
  induction cs as [|c cs IH]; intros sh stdin calls st output k k' Hk a;
    cbn [exec_list].
  - apply Hk.
  - apply exec1_refines. intros r b.
    destruct (flow_of r); try apply Hk. now apply IH.
Qed.

End Level.

Lemma exec_refines ext (n : nat) :
  forall m, n <= m -> run_refines (exec ext n) (exec ext m).
Proof.
  induction n as [|n IH]; intros m Hm cs sh stdin calls k k' Hk a;
    [discriminate|].
  destruct m as [|m]; [lia|]. cbn [exec].
  apply exec_list_refines; [|assumption]. apply IH. lia.
Qed.

(** A run that ends with some fuel ends in the same way with more. *)
Lemma more_fuel ext (n m : nat) script args stdin a :
  n <= m ->
  run_script ext n script args stdin = Done a ->
  run_script ext m script args stdin = Done a.
Proof.
  intros Hm. unfold run_script. destruct (parse script); [|discriminate].
  apply (exec_refines ext n m Hm). intros r b H. exact H.
Qed.

End ShFuel.

Module ShTactics.

Import Sh ShFacts.

Lemma scan_nil (l : lexer) : scan l [] = l.
Proof. reflexivity. Qed.

Lemma scan_hole (s : string) (v : string) :
  inert s = Some v ->
  forall d rest, expands d = false ->
  forall ts ps ds text,
    scan (scan (mkLexer InDq ts ps ds text "") (Str.chars s)) (d :: rest)
    = scan (step (mkLexer InDq ts ps ds (text +:+ v) "") d) rest.
Proof.
  intros Hv d rest Hd ts ps ds text. rewrite <- scan_app.
  now apply scan_literal.
Qed.

(** Replace a closed term by its value. *)
Ltac evaluate t :=
  let r := eval vm_compute in t in
  let H := fresh "Hval" in
  assert (H : t = r) by (vm_compute; reflexivity);
  rewrite H; clear H.

(** Split the text of a script into its pieces and spell out the
    characters of the fixed ones. *)
Ltac split_text :=
  rewrite ?chars_append, ?scan_app;
  change (Str.chars "") with (@nil ascii);
  rewrite ?scan_nil;
  repeat match goal with
         | |- context [Str.chars (tpl ?s)] => evaluate (Str.chars (tpl s))
         | |- context [Str.chars (Str.join ?s ?l)] =>
             evaluate (Str.chars (Str.join s l))
         | |- context [Str.chars (string_of_bool ?b)] =>
             evaluate (Str.chars (string_of_bool b))
         end.

(** Run the tokenizer over the fixed text at the start of the script. *)
Ltac scan_start :=
  match goal with
  | |- context [scan (fresh Top []) ?cs] => evaluate (scan (fresh Top []) cs)
  end.

(** Run the tokenizer over an inert piece and the fixed text after it. *)
Ltac scan_over H :=
  rewrite (scan_hole _ _ H) by reflexivity;
  match goal with
  | |- context [scan (step ?l ?d) ?rest] => evaluate (scan (step l d) rest)
  end.

(** Run the tokenizer over the next piece of fixed text. *)
Ltac scan_fixed :=
  match goal with
  | |- context [scan (mkLexer ?m ?a ?b ?c ?d ?e) (?x :: ?cs)] =>
      evaluate (scan (mkLexer m a b c d e) (x :: cs))
  end.

(** Run the tokenizer to the end of the script; [Hp] and [Hid] say that
    the embedded pattern and convention name are inert. *)
Ltac scan_all Hp Hid :=
  split_text; scan_start;
  repeat first [scan_fixed | scan_over Hp | scan_over Hid];
  match goal with
  | |- context [finish ?l] => evaluate (finish l)
  end;
  cbv iota beta.

End ShTactics.

Import Sh ShFacts ShTactics.


Ltac head_stuck t :=
  lazymatch t with
  | match ?x with _ => _ end => head_stuck x
  | _ => t
  end.

(** Decide the test at the head of the goal: by computation when it is
    closed, by cases otherwise. *)
Ltac decide_head s :=
  let r := eval vm_compute in s in
  lazymatch r with
  | true => change s with true
  | false => change s with false
  | _ => destruct s
  end.

(** Follow every path of a run: evaluate up to the next test on unknown
    data, split on it, and go on. *)
Ltac run_tree :=
  repeat (lazy -[same_text chomp reply_status reply_output echo_builtin];
          lazymatch goal with
          | |- match ?x with _ => _ end =>
              let s := head_stuck x in decide_head s
          end).

(** Tokenize, parse and run a script whose text is in the goal. *)
Ltac run_hook Hp Hid :=
  scan_all Hp Hid;
  match goal with
  | |- context [parse_list ?n ?ts] => evaluate (parse_list n ts)
  end;
  cbv iota beta;
  run_tree.

(** Each command of a list is one of those allowed. *)
Ltac allowed :=
  repeat lazymatch goal with
         | |- Forall _ [] => constructor
         | |- Forall _ (_ :: _) => constructor
         | |- _ \/ _ => first [left; reflexivity | right]
         | |- _ = _ => reflexivity
         end.

(** ** The hooks on inert configurations *)

Section Hooks.

Variable ext : list (list string) -> list string -> string -> reply.
Variables (config : Config) (p vp vid vcid : string).
Hypothesis Hp : inert p = Some vp.
Hypothesis Hid : inert (branchPattern config) = Some vid.
Hypothesis Hcid : inert (commitPattern config) = Some vcid.
Variables (args : list string) (stdin : string).

Ltac unfold_run :=
  unfold run_satisfies, warns_only, branch_gate, commit_gate, run_script,
    parse, tokenize, postCheckoutText, preCommitText, commitMsgText,
    branch_script_text, commit_script_text, hook_fuel.

Ltac leaves :=
  split; [first [reflexivity | left; reflexivity | right; reflexivity]
         | allowed].

Lemma post_checkout_custom_examples :
  enableBranchValidation config = true ->
  run_satisfies (warns_only vp)
    (run_script ext hook_fuel
       (postCheckoutText config
          (branch_script_text config p ["custom-pattern-example"]))
       args stdin).
Proof.
  intros Hen. unfold_run. rewrite Hen. run_hook Hp Hid; leaves.
Qed.

Lemma post_checkout_jira_examples :
  enableBranchValidation config = true ->
  run_satisfies (warns_only vp)
    (run_script ext hook_fuel
       (postCheckoutText config
          (branch_script_text config p jira_branch_examples))
       args stdin).
Proof.
  intros Hen. unfold_run. rewrite Hen. run_hook Hp Hid; leaves.
Qed.

Lemma post_checkout_disabled :
  enableBranchValidation config = false ->
  run_satisfies (warns_only vp)
    (run_script ext hook_fuel (postCheckoutText config "") args stdin).
Proof.
  intros Hen. unfold_run. rewrite Hen. run_hook Hid Hid; leaves.
Qed.

Lemma pre_commit_custom_examples :
  enableBranchValidation config = true ->
  run_satisfies (branch_gate vp)
    (run_script ext hook_fuel
       (preCommitText config
          (branch_script_text config p ["custom-pattern-example"]))
       args stdin).
Proof.
  intros Hen. unfold_run. rewrite Hen. run_hook Hp Hid; leaves.
Qed.

Lemma pre_commit_jira_examples :
  enableBranchValidation config = true ->
  run_satisfies (branch_gate vp)
    (run_script ext hook_fuel
       (preCommitText config
          (branch_script_text config p jira_branch_examples))
       args stdin).
Proof.
  intros Hen. unfold_run. rewrite Hen. run_hook Hp Hid; leaves.
Qed.

Lemma pre_commit_disabled :
  enableBranchValidation config = false ->
  run_satisfies (branch_gate vp)
    (run_script ext hook_fuel (preCommitText config "") args stdin).
Proof.
  intros Hen. unfold_run. rewrite Hen. run_hook Hid Hid; leaves.
Qed.

Lemma commit_msg_custom_examples :
  enableCommitValidation config = true ->
  run_satisfies (commit_gate args vp)
    (run_script ext hook_fuel
       (commitMsgText config
          (commit_script_text config p ["custom-pattern-example"]))
       args stdin).
Proof.
  intros Hen. unfold_run. rewrite Hen. run_hook Hp Hcid; leaves.
Qed.

Lemma commit_msg_jira_examples :
  enableCommitValidation config = true ->
  run_satisfies (commit_gate args vp)
    (run_script ext hook_fuel
       (commitMsgText config
          (commit_script_text config p jira_commit_examples))
       args stdin).
Proof.
  intros Hen. unfold_run. rewrite Hen. run_hook Hp Hcid; leaves.
Qed.

Lemma commit_msg_disabled :
  enableCommitValidation config = false ->
  run_satisfies (commit_gate args vp)
    (run_script ext hook_fuel (commitMsgText config "") args stdin).
Proof.
  intros Hen. unfold_run. rewrite Hen. run_hook Hcid Hcid; leaves.
Qed.

End Hooks.

Lemma satisfies_with_more_fuel ext P (n m : nat) script args stdin :
  n <= m ->
  run_satisfies P (run_script ext n script args stdin) ->
  run_satisfies P (run_script ext m script args stdin).
Proof.
  intros Hm H.
  destruct (run_script ext n script args stdin) as [a| |] eqn:Hrun;
    try contradiction.
  now rewrite (ShFuel.more_fuel ext n m script args stdin a Hm Hrun).
Qed.

Lemma satisfies_weaken (P Q : nat -> list (list string) -> Prop) o :
  (forall st calls, P st calls -> Q st calls) ->
  run_satisfies P o -> run_satisfies Q o.
Proof. intros HPQ. destruct o as [[[st output] calls]| |]; simpl; auto. Qed.

Lemma branch_examples_cases config exs :
  branch_hook_examples config = Own exs ->
  exs = ["custom-pattern-example"] \/ exs = jira_branch_examples.
Proof.
  unfold branch_hook_examples, get_property. cbn [own_property].
  destruct (String.eqb (branchPattern config) "custom"); [intros [= <-]; auto|].
  destruct (String.eqb "jira" (branchPattern config)); [intros [= <-]; auto|].
  destruct (is_prototype_key (branchPattern config)); [discriminate|].
  intros [= <-]; auto.
Qed.

Lemma commit_examples_cases config exs :
  commit_hook_examples config = Own exs ->
  exs = ["custom-pattern-example"] \/ exs = jira_commit_examples.
Proof.
  unfold commit_hook_examples, get_property. cbn [own_property].
  destruct (String.eqb (commitPattern config) "custom"); [intros [= <-]; auto|].
  destruct (String.eqb "jira" (commitPattern config)); [intros [= <-]; auto|].
  destruct (is_prototype_key (commitPattern config)); [discriminate|].
  intros [= <-]; auto.
Qed.

(** The text of the branch validation function, as the hooks embed it. *)
Lemma branch_validation_cases config validation :
  branch_validation_part config = Normal validation ->
  (enableBranchValidation config = false /\ validation = "") \/
  (enableBranchValidation config = true /\
   exists p exs,
     branch_hook_pattern config = Own p /\
     (exs = ["custom-pattern-example"] \/ exs = jira_branch_examples) /\
     validation = branch_script_text config p exs).
Proof.
  unfold branch_validation_part, generateBranchValidationScript.
  destruct (enableBranchValidation config); [|intros [= <-]; auto].
  destruct (branch_hook_pattern config) as [p| |]; try discriminate.
  destruct (branch_hook_examples config) as [exs| |] eqn:Hex; try discriminate.
  intros [= <-]. right. split; [reflexivity|]. exists p, exs.
  repeat split; auto. now apply branch_examples_cases with config.
Qed.

Lemma commit_validation_cases config validation :
  commit_validation_part config = Normal validation ->
  (enableCommitValidation config = false /\ validation = "") \/
  (enableCommitValidation config = true /\
   exists p exs,
     commit_hook_pattern config = Own p /\
     (exs = ["custom-pattern-example"] \/ exs = jira_commit_examples) /\
     validation = commit_script_text config p exs).
Proof.
  unfold commit_validation_part, generateCommitValidationScript.
  destruct (enableCommitValidation config); [|intros [= <-]; auto].
  destruct (commit_hook_pattern config) as [p| |]; try discriminate.
  destruct (commit_hook_examples config) as [exs| |] eqn:Hex; try discriminate.
  intros [= <-]. right. split; [reflexivity|]. exists p, exs.
  repeat split; auto. now apply commit_examples_cases with config.
Qed.

(** The post-checkout hook of a configuration whose embedded texts are
    inert, run with the fuel of the hooks. *)
Lemma post_checkout_run ext config text vp vid args stdin :
  postCheckoutContent config = Normal text ->
  inert (branchPattern config) = Some vid ->
  (enableBranchValidation config = true ->
   exists p, branch_hook_pattern config = Own p /\ inert p = Some vp) ->
  run_satisfies (warns_only vp) (run_script ext hook_fuel text args stdin).
Proof.
  intros Hc Hid Hpat. unfold postCheckoutContent, bind in Hc.
  destruct (branch_validation_part config) as [validation|] eqn:Hv;
    [|discriminate].
  injection Hc as <-.
  apply branch_validation_cases in Hv
    as [[Hen ->]|(Hen & p & exs & Hp & Hexs & ->)].
  - eapply post_checkout_disabled; eauto.
  - destruct (Hpat Hen) as (p' & Hp' & Hinert).
    rewrite Hp in Hp'. injection Hp' as <-.
    destruct Hexs as [-> | ->].
    + eapply post_checkout_custom_examples; eauto.
    + eapply post_checkout_jira_examples; eauto.
Qed.

Lemma pre_commit_run ext config text vp vid args stdin :
  preCommitContent config = Normal text ->
  inert (branchPattern config) = Some vid ->
  (enableBranchValidation config = true ->
   exists p, branch_hook_pattern config = Own p /\ inert p = Some vp) ->
  run_satisfies (branch_gate vp) (run_script ext hook_fuel text args stdin).
Proof.
  intros Hc Hid Hpat. unfold preCommitContent, bind in Hc.
  destruct (branch_validation_part config) as [validation|] eqn:Hv;
    [|discriminate].
  injection Hc as <-.
  apply branch_validation_cases in Hv
    as [[Hen ->]|(Hen & p & exs & Hp & Hexs & ->)].
  - eapply pre_commit_disabled; eauto.
  - destruct (Hpat Hen) as (p' & Hp' & Hinert).
    rewrite Hp in Hp'. injection Hp' as <-.
    destruct Hexs as [-> | ->].
    + eapply pre_commit_custom_examples; eauto.
    + eapply pre_commit_jira_examples; eauto.
Qed.

Lemma commit_msg_run ext config text vp vid args stdin :
  commitMsgContent config = Normal text ->
  inert (commitPattern config) = Some vid ->
  (enableCommitValidation config = true ->
   exists p, commit_hook_pattern config = Own p /\ inert p = Some vp) ->
  run_satisfies (commit_gate args vp) (run_script ext hook_fuel text args stdin).
Proof.
  intros Hc Hid Hpat. unfold commitMsgContent, bind in Hc.
  destruct (commit_validation_part config) as [validation|] eqn:Hv;
    [|discriminate].
  injection Hc as <-.
  apply commit_validation_cases in Hv
    as [[Hen ->]|(Hen & p & exs & Hp & Hexs & ->)].
  - eapply commit_msg_disabled; eauto.
  - destruct (Hpat Hen) as (p' & Hp' & Hinert).
    rewrite Hp in Hp'. injection Hp' as <-.
    destruct Hexs as [-> | ->].
    + eapply commit_msg_custom_examples; eauto.
    + eapply commit_msg_jira_examples; eauto.
Qed.

(** ** What the installed hooks do when git runs them *)

Import Sh ShFacts ShTactics.

Lemma default_branch_pattern_inert :
  inert jira_branch_pattern_text = Some jira_branch_pattern_text.
Proof. reflexivity. Qed.

Lemma default_commit_pattern_inert :
  inert jira_commit_pattern_text = Some jira_commit_pattern_text.
Proof. reflexivity. Qed.

(** X1.  The post-checkout hook never makes a checkout fail.  For every
    configuration whose convention name and embedded pattern are inert
    between double quotes, whatever the arguments, the input and the
    behaviour of the external commands, the rendered post-checkout script
    ends with status 0 and runs no external command besides [git branch],
    [git rev-parse] and [grep -qE] on the pattern. *)
Theorem post_checkout_never_blocks
    (ext : list (list string) -> list string -> string -> reply)
    (config : Config) (text vp vid : string) (args : list string)
    (stdin : string) (fuel : nat) :
  postCheckoutContent config = Normal text ->
  inert (branchPattern config) = Some vid ->
  (enableBranchValidation config = true ->
   exists p, branch_hook_pattern config = Own p /\ inert p = Some vp) ->
  hook_fuel <= fuel ->
  run_satisfies (warns_only vp) (run_script ext fuel text args stdin).
Proof.
  intros Hc Hid Hp Hfuel.
  apply satisfies_with_more_fuel with hook_fuel; [assumption|].
  now apply post_checkout_run with config vid.
Qed.

Lemma post_checkout_never_blocks_witness :
  run_satisfies (warns_only jira_branch_pattern_text)
    (run_script on_main 40 (rendered (postCheckoutContent defaultConfig))
       ["0000"; "1111"; "1"] "").
Proof.
  apply (post_checkout_never_blocks on_main defaultConfig
           (rendered (postCheckoutContent defaultConfig))
           jira_branch_pattern_text "jira").
  - reflexivity.
  - reflexivity.
  - intros _. exists jira_branch_pattern_text. split; reflexivity.
  - unfold hook_fuel. lia.
Defined.

(** X2.  The pre-commit hook ends with status 0 or 1 and runs no external
    command besides [git branch], [git rev-parse] and [grep -qE] on the
    pattern, for every configuration whose convention name and embedded
    pattern are inert between double quotes. *)
Theorem pre_commit_allows_or_blocks
    (ext : list (list string) -> list string -> string -> reply)
    (config : Config) (text vp vid : string) (args : list string)
    (stdin : string) (fuel : nat) :
  preCommitContent config = Normal text ->
  inert (branchPattern config) = Some vid ->
  (enableBranchValidation config = true ->
   exists p, branch_hook_pattern config = Own p /\ inert p = Some vp) ->
  hook_fuel <= fuel ->
  run_satisfies (branch_gate vp) (run_script ext fuel text args stdin).
Proof.
  intros Hc Hid Hp Hfuel.
  apply satisfies_with_more_fuel with hook_fuel; [assumption|].
  now apply pre_commit_run with config vid.
Qed.

Lemma pre_commit_allows_or_blocks_witness :
  run_satisfies (branch_gate jira_branch_pattern_text)
    (run_script on_main 40 (rendered (preCommitContent defaultConfig)) [] "").
Proof.
  apply (pre_commit_allows_or_blocks on_main defaultConfig
           (rendered (preCommitContent defaultConfig))
           jira_branch_pattern_text "jira").
  - reflexivity.
  - reflexivity.
  - intros _. exists jira_branch_pattern_text. split; reflexivity.
  - unfold hook_fuel. lia.
Defined.

(** X3.  The commit-msg hook ends with status 0 or 1 and runs no external
    command besides [cat] on its first argument and [grep -qE] on the
    pattern, for every configuration whose convention name and embedded
    pattern are inert between double quotes. *)
Theorem commit_msg_allows_or_blocks
    (ext : list (list string) -> list string -> string -> reply)
    (config : Config) (text vp vid : string) (args : list string)
    (stdin : string) (fuel : nat) :
  commitMsgContent config = Normal text ->
  inert (commitPattern config) = Some vid ->
  (enableCommitValidation config = true ->
   exists p, commit_hook_pattern config = Own p /\ inert p = Some vp) ->
  hook_fuel <= fuel ->
  run_satisfies (commit_gate args vp) (run_script ext fuel text args stdin).
Proof.
  intros Hc Hid Hp Hfuel.
  apply satisfies_with_more_fuel with hook_fuel; [assumption|].
  now apply commit_msg_run with config vid.
Qed.

Lemma commit_msg_allows_or_blocks_witness :
  run_satisfies (commit_gate [".git/COMMIT_EDITMSG"] jira_commit_pattern_text)
    (run_script on_main 40 (rendered (commitMsgContent defaultConfig))
       [".git/COMMIT_EDITMSG"] "").
Proof.
  apply (commit_msg_allows_or_blocks on_main defaultConfig
           (rendered (commitMsgContent defaultConfig))
           jira_commit_pattern_text "jira").
  - reflexivity.
  - reflexivity.
  - intros _. exists jira_commit_pattern_text. split; reflexivity.
  - unfold hook_fuel. lia.
Defined.

(** ** The hooks as gates *)

Lemma chomp_newline (s : string) : chomp (s +:+ newline) = chomp s.
Proof.
  unfold chomp, newline. rewrite chars_append, rev_app_distr. reflexivity.
Qed.

Lemma same_text_ne (a b : string) : a <> b -> same_text a b = false.
Proof. intros H. now apply String.eqb_neq. Qed.

Lemma truthy_nonempty (s : string) : s <> "" -> Str.truthy s = true.
Proof. destruct s; [congruence|reflexivity]. Qed.

Ltac decide_head_eq s :=
  let r := eval vm_compute in s in
  lazymatch r with
  | true => change s with true
  | false => change s with false
  | _ => let E := fresh "Hcase" in destruct s eqn:E
  end.

(** Follow every path of a run, using [tac] to rewrite with what is
    known of the external commands. *)
Ltac run_tree_with tac :=
  repeat (lazy -[same_text chomp reply_status reply_output echo_builtin
                 newline];
          first
            [ progress tac
            | lazymatch goal with
              | |- match ?x with _ => _ end =>
                  let s := head_stuck x in decide_head_eq s
              | |- match ?x with _ => _ end = _ =>
                  let s := head_stuck x in decide_head_eq s
              end ]).

Ltac known_with Hgit Hline Hnonempty Hattached :=
  rewrite ?Hgit; cbn [reply_output reply_status];
  rewrite ?chomp_newline, ?Hline;
  lazymatch type of Hnonempty with
  | ?b <> _ =>
      change (match b with "" => false | String _ _ => true end)
        with (Str.truthy b);
      rewrite ?(truthy_nonempty b Hnonempty), ?(same_text_ne b "HEAD" Hattached)
  end.

Ltac finish_run :=
  lazy -[same_text chomp reply_status reply_output echo_builtin newline];
  first [reflexivity | split; reflexivity | congruence].

(** Tokenize and parse the script of the goal, then follow its run. *)
Ltac run_gate Hp Hid tac :=
  scan_all Hp Hid;
  match goal with
  | |- context [parse_list ?n ?ts] => evaluate (parse_list n ts)
  end;
  cbv iota beta;
  run_tree_with tac;
  finish_run.

Ltac unfold_hook :=
  unfold run_satisfies, run_script, parse, tokenize, postCheckoutText,
    preCommitText, commitMsgText, branch_script_text, commit_script_text,
    hook_fuel.

Section Gates.

Variable ext : list (list string) -> list string -> string -> reply.
Variables (config : Config) (p vp vid b : string).
Hypothesis Hp : inert p = Some vp.
Hypothesis Hid : inert (branchPattern config) = Some vid.
Hypothesis Hcid : inert (commitPattern config) = Some vid.
Variables (args : list string) (stdin : string).

Section Attached.

Hypothesis Hgit : on_branch ext b.
Hypothesis Hline : chomp b = b.
Hypothesis Hnonempty : b <> "".
Hypothesis Hattached : b <> "HEAD".

Ltac known := known_with Hgit Hline Hnonempty Hattached.

Lemma pre_commit_gate_custom_examples :
  enableBranchValidation config = true ->
  exit_status
    (run_script ext hook_fuel
       (preCommitText config
          (branch_script_text config p ["custom-pattern-example"]))
       args stdin)
  = Some (blocked_unless
            (grep_status ext [["git"; "branch"; "--show-current"]] vp b)).
Proof. intros Hen. unfold_hook. rewrite Hen. run_gate Hp Hid known. Qed.

Lemma pre_commit_gate_jira_examples :
  enableBranchValidation config = true ->
  exit_status
    (run_script ext hook_fuel
       (preCommitText config (branch_script_text config p jira_branch_examples))
       args stdin)
  = Some (blocked_unless
            (grep_status ext [["git"; "branch"; "--show-current"]] vp b)).
Proof. intros Hen. unfold_hook. rewrite Hen. run_gate Hp Hid known. Qed.

End Attached.

Section Detached.

Hypothesis Hgit : on_branch ext "".

Ltac known := rewrite ?Hgit; cbn [reply_output reply_status].




End Detached.

Ltac nothing := idtac.





Lemma post_checkout_idle :
  enableBranchValidation config = false ->
  run_satisfies idle
    (run_script ext hook_fuel (postCheckoutText config "") args stdin).
Proof. intros Hen. unfold_hook. rewrite Hen. run_gate Hp Hid nothing. Qed.

Section FileCheckout.

Hypothesis Hflag : nth 2 args "" <> "1".

Ltac not_a_branch :=
  solve [ exfalso; unfold same_text in *;
          match goal with
          | H : String.eqb _ _ = true |- _ =>
              apply String.eqb_eq in H; exact (Hflag H)
          end ].

Lemma post_checkout_file_custom_examples :
  enableBranchValidation config = true ->
  run_satisfies idle
    (run_script ext hook_fuel
       (postCheckoutText config
          (branch_script_text config p ["custom-pattern-example"]))
       args stdin).
Proof. intros Hen. unfold_hook. rewrite Hen. run_gate Hp Hid not_a_branch. Qed.

Lemma post_checkout_file_jira_examples :
  enableBranchValidation config = true ->
  run_satisfies idle
    (run_script ext hook_fuel
       (postCheckoutText config (branch_script_text config p jira_branch_examples))
       args stdin).
Proof. intros Hen. unfold_hook. rewrite Hen. run_gate Hp Hid not_a_branch. Qed.

End FileCheckout.

End Gates.

Lemma exit_status_with_more_fuel ext (n m : nat) script args stdin st :
  n <= m ->
  exit_status (run_script ext n script args stdin) = Some st ->
  exit_status (run_script ext m script args stdin) = Some st.
Proof.
  intros Hm H.
  destruct (run_script ext n script args stdin) as [a| |] eqn:Hrun;
    try discriminate.
  now rewrite (ShFuel.more_fuel ext n m script args stdin a Hm Hrun).
Qed.

(** X4.  The pre-commit hook blocks exactly on a mismatch.  With branch
    validation on, on a branch [b] (as [git branch --show-current] prints
    it: not empty, not ending in a newline, not [HEAD]), the hook ends
    with status 0 when [grep -qE] finds the pattern in the output of
    [echo b], and with status 1 otherwise. *)
Theorem pre_commit_blocks_exactly_on_mismatch
    (ext : list (list string) -> list string -> string -> reply)
    (config : Config) (text p vp vid b : string) (args : list string)
    (stdin : string) (fuel : nat) :
  preCommitContent config = Normal text ->
  enableBranchValidation config = true ->
  inert (branchPattern config) = Some vid ->
  branch_hook_pattern config = Own p ->
  inert p = Some vp ->
  on_branch ext b ->
  chomp b = b -> b <> "" -> b <> "HEAD" ->
  hook_fuel <= fuel ->
  exit_status (run_script ext fuel text args stdin)
  = Some (blocked_unless
            (grep_status ext [["git"; "branch"; "--show-current"]] vp b)).
Proof.
  intros Hc Hen Hid Hpat Hp Hgit Hline Hne Hhead Hfuel.
  apply exit_status_with_more_fuel with hook_fuel; [assumption|].
  unfold preCommitContent, bind in Hc.
  destruct (branch_validation_part config) as [validation|] eqn:Hv;
    [|discriminate].
  injection Hc as <-.
  apply branch_validation_cases in Hv
    as [[Hoff _]|(_ & p' & exs & Hp' & Hexs & ->)]; [congruence|].
  rewrite Hpat in Hp'. injection Hp' as <-.
  destruct Hexs as [-> | ->].
  - eapply pre_commit_gate_custom_examples; eauto.
  - eapply pre_commit_gate_jira_examples; eauto.
Qed.

Lemma pre_commit_blocks_exactly_on_mismatch_witness :
  exit_status
    (run_script on_main 40 (rendered (preCommitContent defaultConfig)) [] "")
  = Some 1.
Proof.
  apply (pre_commit_blocks_exactly_on_mismatch on_main defaultConfig
           (rendered (preCommitContent defaultConfig))
           jira_branch_pattern_text jira_branch_pattern_text "jira" "main").
  - reflexivity.
  - reflexivity.
  - reflexivity.
  - reflexivity.
  - reflexivity.
  - intros calls stdin. reflexivity.
  - reflexivity.
  - discriminate.
  - discriminate.
  - unfold hook_fuel. lia.
Defined.






(** X8.  After a checkout of files (third argument other than 1) the
    post-checkout hook does nothing: it ends with status 0 without
    running any external command, whatever the configuration. *)
Theorem post_checkout_ignores_file_checkouts
    (ext : list (list string) -> list string -> string -> reply)
    (config : Config) (text vp vid : string) (args : list string)
    (stdin : string) (fuel : nat) :
  postCheckoutContent config = Normal text ->
  inert (branchPattern config) = Some vid ->
  (enableBranchValidation config = true ->
   exists p, branch_hook_pattern config = Own p /\ inert p = Some vp) ->
  nth 2 args "" <> "1" ->
  hook_fuel <= fuel ->
  run_satisfies idle (run_script ext fuel text args stdin).
Proof.
  intros Hc Hid Hpat Hflag Hfuel.
  apply satisfies_with_more_fuel with hook_fuel; [assumption|].
  unfold postCheckoutContent, bind in Hc.
  destruct (branch_validation_part config) as [validation|] eqn:Hv;
    [|discriminate].
  injection Hc as <-.
  apply branch_validation_cases in Hv
    as [[Hen ->]|(Hen & p & exs & Hp & Hexs & ->)].
  - eapply post_checkout_idle; eauto.
  - destruct (Hpat Hen) as (p' & Hp' & Hinert).
    rewrite Hp in Hp'. injection Hp' as <-.
    destruct Hexs as [-> | ->].
    + eapply post_checkout_file_custom_examples; eauto.
    + eapply post_checkout_file_jira_examples; eauto.
Qed.

Lemma post_checkout_ignores_file_checkouts_witness :
  run_satisfies idle
    (run_script on_main 40 (rendered (postCheckoutContent defaultConfig))
       ["0000"; "1111"; "0"] "").
Proof.
  apply (post_checkout_ignores_file_checkouts on_main defaultConfig
           (rendered (postCheckoutContent defaultConfig))
           jira_branch_pattern_text "jira").
  - reflexivity.
  - reflexivity.
  - intros _. exists jira_branch_pattern_text. split; reflexivity.
  - discriminate.
  - unfold hook_fuel. lia.
Defined.


(** X9.  The generators embed a custom pattern as it is, without escaping it:
    a pattern that closes the double quotes it is put between becomes
    script text.  With the custom pattern [wip"; touch /tmp/pwned; exit 3; "]
    the post-checkout hook of a branch checkout runs [touch /tmp/pwned]
    and ends with status 3. *)
Theorem custom_pattern_is_not_escaped :
  exists (config : Config) (text : string),
    branchPattern config = "custom" /\
    customBranchPattern config = tpl "wip~; touch /tmp/pwned; exit 3; ~" /\
    postCheckoutContent config = Normal text /\
    forall fuel,
      hook_fuel <= fuel ->
      run_script on_main fuel text ["0000"; "1111"; "1"] ""
      = Done (3, "", [["git"; "branch"; "--show-current"];
                      ["touch"; "/tmp/pwned"]]).
Proof.
  exists quoting_config, (rendered (postCheckoutContent quoting_config)).
  split; [reflexivity|]. split; [reflexivity|]. split; [reflexivity|].
  intros fuel Hfuel. apply ShFuel.more_fuel with hook_fuel; [assumption|].
  vm_compute. reflexivity.
Qed.

(** ** What the built-in rules accept *)

Module RegexShape.

Lemma rmatch_chr c k pos s :
  rmatch (Chr c) k pos s = true <-> exists t, s = c :: t /\ k (S pos) t = true.
Proof.
  cbn [rmatch]. destruct s as [|a t].
  - split; [discriminate|]. intros (t & H & _). discriminate.
  - rewrite andb_true_iff, Ascii.eqb_eq. split.
    + intros [-> H]. eauto.
    + intros (t' & [= -> ->] & H). auto.
Qed.

Lemma lit_cons c w : Regex.lit (String c w) = Seq (Chr c) (Regex.lit w).
Proof. reflexivity. Qed.

(** A literal matches exactly itself. *)
Lemma rmatch_lit w : forall k pos s,
  rmatch (Regex.lit w) k pos s = true <->
  exists s', s = Str.chars w ++ s' /\ k (pos + length (Str.chars w)) s' = true.
Proof.
  induction w as [|c w IH]; intros k pos s.
  - cbn. rewrite Nat.add_0_r. split; [eauto|]. now intros (s' & -> & H).
  - rewrite lit_cons. cbn [rmatch]. fold (rmatch (Chr c)).
    change (match s with
            | [] => false
            | a :: t => Ascii.eqb a c && rmatch (Regex.lit w) k (S pos) t
            end) with (rmatch (Chr c) (rmatch (Regex.lit w) k) pos s).
    rewrite rmatch_chr. split.
    + intros (t & -> & H). apply IH in H as (s' & -> & H).
      exists s'. split; [reflexivity|].
      cbn [Str.chars list_ascii_of_string length].
      now rewrite <- Nat.add_succ_comm.
    + intros (s' & -> & H). exists (Str.chars w ++ s'). split; [reflexivity|].
      apply IH. exists s'. split; [reflexivity|].
      cbn [Str.chars list_ascii_of_string length] in H.
      now rewrite <- Nat.add_succ_comm in H.
Qed.

(** An alternation of literals matches one of them. *)
Lemma rmatch_alts_lits ws : forall k pos s,
  rmatch (alts (map Regex.lit ws)) k pos s = true <->
  exists w s',
    In w ws /\ s = Str.chars w ++ s' /\
    k (pos + length (Str.chars w)) s' = true.
Proof.
  induction ws as [|w ws IH]; intros k pos s.
  - cbn. destruct s; cbn; split; try discriminate;
      intros (w & s' & [] & _).
  - destruct ws as [|w' ws].
    + cbn [map alts]. rewrite rmatch_lit. split.
      * intros (s' & -> & H). exists w, s'. cbn. auto.
      * intros (w0 & s' & [<-|[]] & -> & H). eauto.
    + change (alts (map Regex.lit (w :: w' :: ws)))
        with (Alt (Regex.lit w) (alts (map Regex.lit (w' :: ws)))).
      cbn [rmatch]. rewrite orb_true_iff, rmatch_lit, IH. split.
      * intros [(s' & -> & H)|(w0 & s' & Hin & -> & H)].
        -- exists w, s'. split; [now left|auto].
        -- exists w0, s'. split; [now right|auto].
      * intros (w0 & s' & [<-|Hin] & -> & H); [left|right]; eauto.
Qed.

(** A quantified one-character pattern matches between [lo] and [budget]
    characters that satisfy it. *)
Lemma iterate_one_char_iff P : forall budget lo k pos s,
  iterate (one_char P) budget lo k pos s = true <->
  exists m s',
    s = m ++ s' /\ forallb P m = true /\ lo <= length m <= budget /\
    k (pos + length m) s' = true.
Proof.
  induction budget as [|b IH]; intros lo k pos s.
  - cbn [iterate]. rewrite orb_false_r, andb_true_iff, Nat.eqb_eq. split.
    + intros [-> H]. exists [], s. rewrite Nat.add_0_r. cbn. auto with arith.
    + intros (m & s' & -> & _ & [Hlo Hhi] & H).
      destruct m; [|cbn in Hhi; lia]. cbn in *.
      rewrite Nat.add_0_r in H. split; [lia|assumption].
  - cbn [iterate]. rewrite orb_true_iff, andb_true_iff, Nat.eqb_eq. split.
    + intros [[-> H]|H].
      * exists [], s. rewrite Nat.add_0_r. cbn. repeat split; auto with arith.
      * unfold one_char in H at 1. destruct s as [|a t]; [discriminate|].
        apply andb_prop in H as [Ha H]. apply andb_prop in H as [_ H].
        apply IH in H as (m & s' & -> & Hm & [Hlo Hhi] & H).
        exists (a :: m), s'. cbn. rewrite Ha, Hm.
        repeat split; [lia|lia|]. now rewrite <- Nat.add_succ_comm.
    + intros (m & s' & -> & Hm & [Hlo Hhi] & H). destruct m as [|a m].
      * left. cbn in *. rewrite Nat.add_0_r in H. split; [lia|assumption].
      * right. cbn in Hm. apply andb_prop in Hm as [Ha Hm].
        cbn [app one_char]. rewrite Ha. cbn [andb].
        replace (pos <? S pos) with true by (symmetry; apply Nat.ltb_lt; lia).
        rewrite orb_true_r. cbn [andb]. apply IH.
        exists m, s'. cbn in Hlo, Hhi, H.
        repeat split; [assumption|lia|lia|].
        now rewrite <- Nat.add_succ_comm in H.
Qed.

(** [[...]+] *)
Lemma rmatch_plus_class ranges k pos s :
  rmatch (plus (Class ranges)) k pos s = true <->
  exists m s',
    s = m ++ s' /\ forallb (in_class ranges) m = true /\ m <> [] /\
    k (pos + length m) s' = true.
Proof.
  change (rmatch (plus (Class ranges)) k pos s)
    with (iterate (one_char (in_class ranges)) (1 + length s) 1 k pos s).
  rewrite iterate_one_char_iff. split.
  - intros (m & s' & -> & Hm & [Hlo _] & H). exists m, s'.
    repeat split; auto. intros ->. cbn in Hlo. lia.
  - intros (m & s' & -> & Hm & Hne & H). exists m, s'.
    repeat split; auto.
    + destruct m; [congruence|cbn; lia].
    + rewrite length_app. lia.
Qed.


Lemma rmatch_eol pos s : rmatch Eol accept pos s = true <-> s = [].
Proof. destruct s; cbn; unfold accept; split; congruence. Qed.

Lemma chars_of_list (m : list ascii) : Str.chars (string_of_list_ascii m) = m.
Proof. apply list_ascii_of_string_of_list_ascii. Qed.

Lemma string_of_chars (s : string) : string_of_list_ascii (Str.chars s) = s.
Proof. apply string_of_list_ascii_of_string. Qed.

Lemma chars_inj (a b : string) : Str.chars a = Str.chars b -> a = b.
Proof.
  intros H. rewrite <- (string_of_chars a), <- (string_of_chars b).
  now rewrite H.
Qed.

Lemma chars_nonempty (s : string) : s <> "" <-> Str.chars s <> [].
Proof.
  destruct s; cbn; split; intros H E; try discriminate E; now apply H.
Qed.


End RegexShape.

Import RegexShape.

Lemma rmatch_seq r1 r2 k pos s :
  rmatch (Seq r1 r2) k pos s = rmatch r1 (rmatch r2 k) pos s.
Proof. reflexivity. Qed.

Lemma every_chars ranges (m : list ascii) :
  forallb (in_class ranges) m = true -> m <> [] ->
  some_of ranges (string_of_list_ascii m).
Proof.
  intros Hm Hne. split.
  - apply chars_nonempty. now rewrite chars_of_list.
  - unfold every. now rewrite chars_of_list.
Qed.

Lemma some_of_chars ranges (s : string) :
  some_of ranges s ->
  forallb (in_class ranges) (Str.chars s) = true /\ Str.chars s <> [].
Proof. intros [Hne Hs]. split; [exact Hs|now apply chars_nonempty]. Qed.

Lemma jira_branch_matches subject :
  test jira_branch_regex subject = true <-> jira_branch_shape subject.
Proof.
  unfold jira_branch_regex. rewrite RegexFacts.seqs_cons by discriminate.
  rewrite RegexFacts.test_anchored. cbn [seqs].
  change (alts [Regex.lit "feature"; Regex.lit "bugfix"; Regex.lit "hotfix";
                Regex.lit "release"; Regex.lit "chore"])
    with (alts (map Regex.lit ["feature"; "bugfix"; "hotfix"; "release"; "chore"])).
  split.
  - intros H.
    rewrite rmatch_seq in H.
    apply rmatch_alts_lits in H as (kind & s1 & Hkind & Hs & H).
    rewrite rmatch_seq in H. apply rmatch_chr in H as (s2 & -> & H).
    rewrite rmatch_seq in H.
    apply rmatch_plus_class in H as (key & s3 & -> & Hkey & Hkey' & H).
    rewrite rmatch_seq in H. apply rmatch_chr in H as (s4 & -> & H).
    rewrite rmatch_seq in H.
    apply rmatch_plus_class in H as (number & s5 & -> & Hnum & Hnum' & H).
    rewrite rmatch_seq in H. apply rmatch_chr in H as (s6 & -> & H).
    rewrite rmatch_seq in H.
    apply rmatch_plus_class in H as (slug & s7 & -> & Hslug & Hslug' & H).
    apply rmatch_eol in H as ->.
    exists kind, (string_of_list_ascii key), (string_of_list_ascii number),
      (string_of_list_ascii slug).
    split; [|split; [exact Hkind|]].
    + apply chars_inj. rewrite !chars_append, !chars_of_list, Hs.
      rewrite app_nil_r. reflexivity.
    + repeat split; try (now apply every_chars);
        first [ apply chars_nonempty; now rewrite chars_of_list
              | unfold every; now rewrite chars_of_list ].
  - intros (kind & key & number & slug & -> & Hkind & Hkey & Hnum & Hslug).
    apply some_of_chars in Hkey as [Hkey Hkey'].
    apply some_of_chars in Hnum as [Hnum Hnum'].
    apply some_of_chars in Hslug as [Hslug Hslug'].
    rewrite !chars_append.
    rewrite rmatch_seq. apply rmatch_alts_lits.
    eexists kind, _. split; [exact Hkind|]. split; [reflexivity|].
    rewrite rmatch_seq. apply rmatch_chr.
    eexists. split; [reflexivity|].
    rewrite rmatch_seq. apply rmatch_plus_class.
    eexists (Str.chars key), _. split; [reflexivity|].
    split; [exact Hkey|]. split; [exact Hkey'|].
    rewrite rmatch_seq. apply rmatch_chr.
    eexists. split; [reflexivity|].
    rewrite rmatch_seq. apply rmatch_plus_class.
    eexists (Str.chars number), _. split; [reflexivity|].
    split; [exact Hnum|]. split; [exact Hnum'|].
    rewrite rmatch_seq. apply rmatch_chr.
    eexists. split; [reflexivity|].
    rewrite rmatch_seq. apply rmatch_plus_class.
    eexists (Str.chars slug), []. split; [now rewrite app_nil_r|].
    split; [exact Hslug|]. split; [exact Hslug'|].
    now apply rmatch_eol.
Qed.


(** X10.  In-process validation of a branch name under the built-in rule
    accepts exactly the names [kind/KEY-number-slug]: a kind among
    feature, bugfix, hotfix, release and chore, a key of capital letters,
    a number of digits, and a slug of small letters, digits and dashes,
    none of them empty. *)
Theorem jira_branch_names_accepted
    (RegExp_new : string -> option regex) (config : Config) (subject : string) :
  validateBranchName RegExp_new config subject "jira" = ([], Normal true)
  <-> jira_branch_shape subject.
Proof.
  change (validateBranchName RegExp_new config subject "jira")
    with (@nil notice, Normal (test jira_branch_regex subject)).
  rewrite <- jira_branch_matches. split.
  - now intros [= ->].
  - now intros ->.
Qed.


(** ** The commands *)

Lemma commands_of_app (a b : list effect) :
  commands_of (a ++ b) = commands_of a ++ commands_of b.
Proof.
  induction a as [|e a IH]; [reflexivity|].
  destruct e; cbn [app commands_of]; now rewrite IH.
Qed.

Lemma commands_of_shown (notices : list notice) :
  commands_of (map shown notices) = [].
Proof.
  induction notices as [|n notices IH]; [reflexivity|].
  destruct n; exact IH.
Qed.

Lemma commands_of_offer pick message :
  commands_of (offer_settings pick message) = [].
Proof.
  unfold offer_settings. cbn [commands_of].
  destruct (pick _ _) as [selection|]; [|reflexivity].
  now destruct (String.eqb selection _).
Qed.

Lemma commands_of_branch_error pick branchName pattern :
  commands_of (fst (showBranchValidationError pick branchName pattern)) = [].
Proof.
  unfold showBranchValidationError.
  destruct (getBranchExamples pattern);
    [apply commands_of_offer| |];
    destruct (inherited_length pattern) as [[|n]|];
    first [apply commands_of_offer | reflexivity].
Qed.

Lemma commands_of_commit_error pick message pattern :
  commands_of (fst (showCommitValidationError pick message pattern)) = [].
Proof.
  unfold showCommitValidationError.
  destruct (getCommitExamples pattern);
    [apply commands_of_offer| |];
    destruct (inherited_length pattern) as [[|n]|];
    first [apply commands_of_offer | reflexivity].
Qed.

Lemma truthy_not_empty (s : string) : Str.truthy s = true -> s <> "".
Proof. destruct s; [discriminate|congruence]. Qed.

(** What [createBranch] runs, case by case. *)
Lemma createBranch_commands RegExp_new exec input pick workspaceFolders config later :
  commands_of
    (fst (createBranch RegExp_new exec input pick workspaceFolders config later))
  = [] \/
  exists branchName notices workspacePath,
    commands_of
      (fst (createBranch RegExp_new exec input pick workspaceFolders config later))
    = ["git checkout -b " +:+ branchName] /\
    getWorkspacePath workspaceFolders = Some workspacePath /\
    enableBranchValidation config = true /\
    branchName <> "" /\
    validateBranchName RegExp_new later branchName (branchPattern config)
    = (notices, Normal true).
Proof.
  unfold createBranch.
  destruct (getWorkspacePath workspaceFolders) as [workspacePath|];
    [|now left].
  destruct (enableBranchValidation config); [|now left]. cbn [negb].
  destruct (input _ _) as [branchName|]; [|now left].
  destruct (Str.truthy branchName) eqn:Hname; [|now left]. cbn [negb].
  destruct (validateBranchName RegExp_new later branchName (branchPattern config))
    as [notices [[|]|e]] eqn:Hvalid.
  - right. exists branchName, notices, workspacePath.
    split; [|repeat split; auto using truthy_not_empty].
    cbn [fst]. rewrite commands_of_app. cbn [commands_of].
    rewrite commands_of_shown. cbn [app].
    now destruct (executeGitCommand _ _ _).
  - left.
    pose proof (commands_of_branch_error pick branchName (branchPattern config))
      as Herr.
    destruct (showBranchValidationError _ _ _) as [effects completed].
    cbn [fst] in *. rewrite commands_of_app, Herr. cbn [commands_of].
    now rewrite commands_of_shown.
  - left. cbn [fst commands_of]. apply commands_of_shown.
Qed.



(** What [validateCommit] runs, case by case. *)
Lemma validateCommit_commands RegExp_new exec input pick workspaceFolders config later :
  commands_of
    (fst (validateCommit RegExp_new exec input pick workspaceFolders config later))
  = [] \/
  exists commitMessage notices workspacePath,
    commands_of
      (fst (validateCommit RegExp_new exec input pick workspaceFolders config later))
    = [tpl "git commit -m ~" +:+ commitMessage +:+ tpl "~"] /\
    getWorkspacePath workspaceFolders = Some workspacePath /\
    enableCommitValidation config = true /\
    commitMessage <> "" /\
    validateCommitMessage RegExp_new later commitMessage (commitPattern config)
    = (notices, Normal true).
Proof.
  unfold validateCommit.
  destruct (enableCommitValidation config); [|now left]. cbn [negb].
  destruct (input _ _) as [commitMessage|]; [|now left].
  destruct (Str.truthy commitMessage) eqn:Hname; [|now left]. cbn [negb].
  destruct (validateCommitMessage RegExp_new later commitMessage
              (commitPattern config))
    as [notices [[|]|e]] eqn:Hvalid.
  - destruct (getWorkspacePath workspaceFolders) as [workspacePath|].
    + right. exists commitMessage, notices, workspacePath.
      split; [|repeat split; auto using truthy_not_empty].
      cbn [fst]. rewrite commands_of_app. cbn [commands_of].
      rewrite commands_of_shown. cbn [app].
      now destruct (executeGitCommand _ _ _).
    + left. cbn [fst]. rewrite commands_of_app. cbn [commands_of].
      now rewrite commands_of_shown.
  - left.
    pose proof (commands_of_commit_error pick commitMessage (commitPattern config))
      as Herr.
    destruct (showCommitValidationError _ _ _) as [effects completed].
    cbn [fst] in *. rewrite commands_of_app, Herr. cbn [commands_of].
    now rewrite commands_of_shown.
  - left. cbn [fst commands_of]. apply commands_of_shown.
Qed.

(** *** The command lines in the shell *)

Lemma step_plain (c : ascii) :
  plain_char c = true ->
  forall ts ps text,
    step (mkLexer Top ts ps [] text "") c = mkLexer Top ts ps [] (snoc text c) "".
Proof.
  intros H ts ps text.
  destruct c as [[] [] [] [] [] [] [] []]; try discriminate H; reflexivity.
Qed.

Lemma scan_plain (cs : list ascii) :
  forallb plain_char cs = true ->
  forall ts ps text,
    scan (mkLexer Top ts ps [] text "") cs
    = mkLexer Top ts ps [] (text +:+ string_of_list_ascii cs) "".
Proof.
  induction cs as [|c cs IH]; intros H ts ps text.
  - cbn. now rewrite append_empty_r.
  - cbn [forallb] in H. apply andb_prop in H as [Hc Hcs].
    rewrite scan_cons, step_plain by assumption. rewrite IH by assumption.
    cbn [string_of_list_ascii]. now rewrite snoc_append.
Qed.

Lemma git_checkout_runs_once ext (fuel : nat) (n : string) args stdin :
  n <> "" ->
  forallb plain_char (Str.chars n) = true ->
  commands_run (run_script ext (S fuel) ("git checkout -b " +:+ n) args stdin)
  = Some [["git"; "checkout"; "-b"; n]].
Proof.
  intros Hne Hplain.
  unfold run_script, parse, tokenize.
  rewrite chars_append, scan_app.
  evaluate (scan (fresh Top []) (Str.chars "git checkout -b ")).
  rewrite scan_plain by assumption.
  rewrite RegexShape.string_of_chars.
  destruct n as [|c n]; [congruence|].
  lazy -[reply_status reply_output]. reflexivity.
Qed.

Lemma in_class_weaken (rs rs' : list (ascii * ascii)) (c : ascii) :
  (forall r, In r rs -> In r rs') ->
  in_class rs c = true -> in_class rs' c = true.
Proof.
  unfold in_class. intros Hsub H.
  apply existsb_exists in H as (r & Hin & Hr).
  apply existsb_exists. exists r. auto.
Qed.

Lemma some_of_plain (rs : list (ascii * ascii)) (s : string) :
  (forall r, In r rs ->
             In r [upper; lower; digit; dash; ("/"%char, "/"%char)]) ->
  some_of rs s -> forallb plain_char (Str.chars s) = true.
Proof.
  intros Hsub [_ H]. unfold every in H. rewrite forallb_forall in *.
  intros c Hc. unfold plain_char. eapply in_class_weaken; eauto.
Qed.

(** The names that the built-in rule accepts are made of plain
    characters. *)
Lemma jira_branch_plain (n : string) :
  jira_branch_shape n -> n <> "" /\ forallb plain_char (Str.chars n) = true.
Proof.
  intros (kind & key & number & slug & -> & Hkind & Hkey & Hnum & Hslug).
  split.
  - cbn in Hkind.
    repeat (destruct Hkind as [<-|Hkind]; [discriminate|]). destruct Hkind.
  - rewrite !chars_append, !forallb_app.
    rewrite (some_of_plain [upper] key), (some_of_plain [digit] number),
      (some_of_plain [lower; digit; dash] slug); auto;
      try (cbn; intros r Hr; tauto).
    cbn in Hkind.
    repeat (destruct Hkind as [<-|Hkind]; [reflexivity|]). destruct Hkind.
Qed.

Lemma valid_jira_branch RegExp_new config n notices :
  validateBranchName RegExp_new config n "jira" = (notices, Normal true) ->
  jira_branch_shape n.
Proof.
  change (validateBranchName RegExp_new config n "jira")
    with (@nil notice, Normal (test jira_branch_regex n)).
  intros [= <- H]. now apply jira_branch_matches.
Qed.

(** X13.  Under the built-in rule, what [createBranch] hands to the shell is
    one call of git.  Every command line that it runs is
    [git checkout -b] followed by a name [kind/KEY-number-slug], and the
    shell, on that line, runs the single external command [git] with the
    arguments [checkout], [-b] and the name. *)
Theorem createBranch_jira_runs_one_git_command
    (RegExp_new : string -> option regex)
    (exec : string -> Fs.path -> exec_result)
    (input : string -> string -> option string)
    (pick : string -> list string -> option string)
    (workspaceFolders : option (list Fs.path)) (config later : Config)
    (command : string) :
  branchPattern config = "jira" ->
  In command
     (commands_of
        (fst (createBranch RegExp_new exec input pick workspaceFolders
                           config later))) ->
  exists branchName,
    command = "git checkout -b " +:+ branchName /\
    jira_branch_shape branchName /\
    forall ext fuel args stdin,
      commands_run (run_script ext (S fuel) command args stdin)
      = Some [["git"; "checkout"; "-b"; branchName]].
Proof.
  intros Hjira Hin.
  destruct (createBranch_commands RegExp_new exec input pick workspaceFolders
              config later)
    as [Hnone|(branchName & notices & workspacePath & Hone & _ & _ & _ & Hv)].
  - rewrite Hnone in Hin. destruct Hin.
  - rewrite Hone in Hin. destruct Hin as [<-|[]].
    rewrite Hjira in Hv. apply valid_jira_branch in Hv.
    exists branchName. split; [reflexivity|]. split; [assumption|].
    intros ext fuel args stdin.
    apply jira_branch_plain in Hv as [Hne Hplain].
    now apply git_checkout_runs_once.
Qed.

Lemma createBranch_jira_runs_one_git_command_witness :
  exists branchName,
    "git checkout -b feature/APC-1-x" = "git checkout -b " +:+ branchName /\
    jira_branch_shape branchName /\
    forall ext fuel args stdin,
      commands_run
        (run_script ext (S fuel) "git checkout -b feature/APC-1-x" args stdin)
      = Some [["git"; "checkout"; "-b"; branchName]].
Proof.
  apply (createBranch_jira_runs_one_git_command (fun _ => None)
           (fun _ _ => ExecOutput "") (fun _ _ => Some "feature/APC-1-x")
           (fun _ _ => None) (Some [["repo"]]) defaultConfig defaultConfig).
  - reflexivity.
  - vm_compute. left. reflexivity.
Defined.

Lemma quiet_inert (s : string) : quiet s = true -> inert s = Some s.
Proof.
  unfold quiet, inert, Str.chars.
  induction s as [|c s IH]; [reflexivity|].
  cbn [list_ascii_of_string forallb]. intros H.
  apply andb_prop in H as [Hc Hs]. specialize (IH Hs).
  cbn [literal_dq]. cbv zeta. rewrite IH.
  destruct c as [[] [] [] [] [] [] [] []]; try discriminate Hc; reflexivity.
Qed.

Lemma git_commit_runs_once ext (fuel : nat) (m v : string) args stdin :
  inert m = Some v ->
  commands_run
    (run_script ext (S fuel) (tpl "git commit -m ~" +:+ m +:+ tpl "~") args stdin)
  = Some [["git"; "commit"; "-m"; v]].
Proof.
  intros Hm. unfold run_script, parse, tokenize.
  scan_all Hm Hm.
  lazy -[reply_status reply_output]. reflexivity.
Qed.

(** X14.  [validateCommit] creates a commit only with a message that
    in-process validation has accepted: it runs at most one command
    line, [git commit -m] followed by the message between double quotes,
    with commit validation on and a workspace folder open.  When the
    message holds no double quote, back quote, dollar or backslash, the
    shell runs on that line the single external command [git] with the
    arguments [commit], [-m] and the message itself. *)
Theorem validateCommit_runs_git_for_valid_messages_only
    (RegExp_new : string -> option regex)
    (exec : string -> Fs.path -> exec_result)
    (input : string -> string -> option string)
    (pick : string -> list string -> option string)
    (workspaceFolders : option (list Fs.path)) (config later : Config)
    (command : string) :
  In command
     (commands_of
        (fst (validateCommit RegExp_new exec input pick workspaceFolders
                             config later))) ->
  exists commitMessage notices,
    command = tpl "git commit -m ~" +:+ commitMessage +:+ tpl "~" /\
    commands_of
      (fst (validateCommit RegExp_new exec input pick workspaceFolders
                           config later)) = [command] /\
    getWorkspacePath workspaceFolders <> None /\
    enableCommitValidation config = true /\
    validateCommitMessage RegExp_new later commitMessage (commitPattern config)
    = (notices, Normal true) /\
    (quiet commitMessage = true ->
     forall ext fuel args stdin,
       commands_run (run_script ext (S fuel) command args stdin)
       = Some [["git"; "commit"; "-m"; commitMessage]]).
Proof.
  intros Hin.
  destruct (validateCommit_commands RegExp_new exec input pick workspaceFolders
              config later)
    as [Hnone|(message & notices & workspacePath & Hone & Hws & Hen & _ & Hv)].
  - rewrite Hnone in Hin. destruct Hin.
  - rewrite Hone in Hin. destruct Hin as [<-|[]].
    exists message, notices. repeat split; auto.
    + now rewrite Hws.
    + intros Hquiet ext fuel args stdin.
      apply git_commit_runs_once. now apply quiet_inert.
Qed.

Lemma validateCommit_runs_git_for_valid_messages_only_witness :
  exists commitMessage notices,
    tpl "git commit -m ~[APC-1] fix(ui): align~"
    = tpl "git commit -m ~" +:+ commitMessage +:+ tpl "~" /\
    commands_of
      (fst (validateCommit (fun _ => None) (fun _ _ => ExecOutput "")
              (fun _ _ => Some "[APC-1] fix(ui): align") (fun _ _ => None)
              (Some [["repo"]]) defaultConfig defaultConfig))
    = [tpl "git commit -m ~[APC-1] fix(ui): align~"] /\
    getWorkspacePath (Some [["repo"]]) <> None /\
    enableCommitValidation defaultConfig = true /\
    validateCommitMessage (fun _ => None) defaultConfig commitMessage
      (commitPattern defaultConfig) = (notices, Normal true) /\
    (quiet commitMessage = true ->
     forall ext fuel args stdin,
       commands_run
         (run_script ext (S fuel) (tpl "git commit -m ~[APC-1] fix(ui): align~")
            args stdin)
       = Some [["git"; "commit"; "-m"; commitMessage]]).
Proof.
  apply (validateCommit_runs_git_for_valid_messages_only (fun _ => None)
           (fun _ _ => ExecOutput "") (fun _ _ => Some "[APC-1] fix(ui): align")
           (fun _ _ => None) (Some [["repo"]]) defaultConfig defaultConfig).
  vm_compute. left. reflexivity.
Defined.

(** X15.  The message is put between double quotes as it is.  The message
    [[APC-1] fix(ui): a"; touch /tmp/pwned; echo "] is accepted by the
    built-in rule, and on the command line that [validateCommit] then
    runs the shell runs [touch /tmp/pwned] after [git commit]. *)
Theorem validateCommit_message_is_not_escaped :
  exists commitMessage command : string,
    validateCommitMessage (fun _ => None) defaultConfig commitMessage "jira"
    = ([], Normal true) /\
    (forall exec pick,
       commands_of
         (fst (validateCommit (fun _ => None) exec (fun _ _ => Some commitMessage)
                 pick (Some [["repo"]]) defaultConfig defaultConfig))
       = [command]) /\
    forall fuel,
      commands_run (run_script on_main (S fuel) command [] "")
      = Some [["git"; "commit"; "-m"; "[APC-1] fix(ui): a"];
              ["touch"; "/tmp/pwned"]].
Proof.
  exists (tpl "[APC-1] fix(ui): a~; touch /tmp/pwned; echo ~"),
         (tpl "git commit -m ~[APC-1] fix(ui): a~; touch /tmp/pwned; echo ~~").
  split; [lazy; reflexivity|]. split.
  - intros exec pick. unfold validateCommit.
    cbn [enableCommitValidation defaultConfig negb].
    change (Str.truthy (tpl "[APC-1] fix(ui): a~; touch /tmp/pwned; echo ~"))
      with true. cbn [negb].
    change (validateCommitMessage (fun _ => None) defaultConfig
              (tpl "[APC-1] fix(ui): a~; touch /tmp/pwned; echo ~")
              (commitPattern defaultConfig))
      with (@nil notice, @Normal bool true).
    cbn [getWorkspacePath map app fst commands_of].
    now destruct (executeGitCommand _ _ _).
  - intros fuel. unfold run_script.
    evaluate (parse (tpl "git commit -m ~[APC-1] fix(ui): a~; touch /tmp/pwned; echo ~~")).
    lazy. reflexivity.
Qed.

(** *** Reading the current branch *)




Lemma jira_branch_outer_whitespace (b : string) :
  test jira_branch_regex b = true ->
  Str.leading_whitespace b || Str.trailing_whitespace b = false.
Proof.
  intros H.
  destruct (Str.leading_whitespace b || Str.trailing_whitespace b) eqn:Hws;
    [|reflexivity].
  apply jira_branch_rejects_outer_whitespace in Hws. congruence.
Qed.



(** *** The hook commands and the status bar *)

(** X17.  After the install command has reported success the status bar shows
    that the hooks are active; after the remove command, with a
    workspace folder open, it shows that they are not, and the message
    that the hooks were removed is shown whatever was found. *)
Theorem hook_commands_refresh_status_bar
    (JSON_parse : string -> option (string -> jsvalue))
    (workspaceFolders : option (list Fs.path)) (fs : Fs.t) :
  (forall fs' item,
     installHooks JSON_parse workspaceFolders fs
     = (fs', [install_ok], Normal tt, Some item) ->
     text item = "$(check-all) VB: Active") /\
  (forall workspacePath,
     getWorkspacePath workspaceFolders = Some workspacePath ->
     exists item,
       removeHooks workspaceFolders fs
       = (removeGitHooks workspacePath fs, [remove_done], Some item) /\
       text item = "$(circle-outline) VB: Ready").
Proof.
  split.
  - intros fs' item. unfold installHooks.
    destruct (getWorkspacePath workspaceFolders) as [workspacePath|] eqn:Hws;
      [|discriminate].
    destruct (installGitHooks JSON_parse workspacePath fs)
      as [[fs1 notices] [[]|e]] eqn:Hinst; [|discriminate].
    intros [= -> -> <-]. unfold updateStatusBar.
    rewrite hooksInstalled_signed.
    rewrite (install_signs_hooks JSON_parse workspacePath fs fs' Hinst);
      [reflexivity|].
    unfold hook_paths. now left.
  - intros workspacePath Hws. unfold removeHooks. rewrite Hws.
    eexists. split; [reflexivity|]. unfold updateStatusBar.
    rewrite hooksInstalled_signed. unfold removeGitHooks.
    rewrite sweep_signed.
    rewrite (bool_decide_eq_true_2 (preCommitHook workspacePath ∈ _))
      by apply list_elem_of_here.
    now rewrite andb_false_r.
Qed.

Lemma hook_commands_refresh_status_bar_witness :
  exists item,
    removeHooks (Some [["repo"]]) checkout
    = (removeGitHooks ["repo"] checkout, [remove_done], Some item) /\
    text item = "$(circle-outline) VB: Ready".
Proof.
  destruct (hook_commands_refresh_status_bar (fun _ => None) (Some [["repo"]])
              checkout) as [_ H].
  apply H. reflexivity.
Defined.

(** ** Installing and removing, on disk *)

Module FsSteps.

Import Fs.

Lemma ancestors_snoc (p : path) (x : string) :
  ancestors (p ++ [x]) = ancestors p ++ [p].
Proof.
  induction p as [|y p IH]; [reflexivity|].
  cbn [app ancestors]. rewrite IH, map_app. reflexivity.
Qed.

Lemma reachable_snoc (fs : t) (p : path) (x : string) :
  reachable fs (p ++ [x]) = reachable fs p && is_dir fs p.
Proof.
  unfold reachable. rewrite ancestors_snoc, forallb_app. cbn [forallb].
  now rewrite andb_true_r.
Qed.

(** The ancestors of a path are its proper prefixes. *)
Lemma ancestors_prefix (p a : path) :
  In a (ancestors p) <-> exists rest, rest <> [] /\ p = a ++ rest.
Proof.
  revert a. induction p as [|x p IH]; intros a.
  - cbn. split; [tauto|]. intros (rest & Hne & H).
    destruct a; destruct rest; try discriminate. congruence.
  - cbn [ancestors]. split.
    + intros [<-|Ha].
      * exists (x :: p). split; [discriminate|reflexivity].
      * apply in_map_iff in Ha as (a' & <- & Ha').
        apply IH in Ha' as (rest & Hne & ->). now exists rest.
    + intros (rest & Hne & H). destruct a as [|y a]; [now left|].
      right. injection H as -> ->. apply in_map_iff. exists a.
      split; [reflexivity|]. apply IH. now exists rest.
Qed.

(** [mkdirSync] only adds directories, at paths that held nothing. *)
Lemma mkdir_each_lookup (dirs : list path) : forall (fs : t) (q : path),
  (mkdir_each dirs fs).1 !! q = fs !! q \/
  (fs !! q = None /\ (mkdir_each dirs fs).1 !! q = Some Dir /\ In q dirs).
Proof.
  induction dirs as [|d dirs IH]; intros fs q; [now left|].
  cbn [mkdir_each]. destruct d as [|x d].
  - destruct (IH fs q) as [H|(H1 & H2 & H3)]; [now left|].
    right. repeat split; auto. now right.
  - destruct (fs !! (x :: d)) as [[c m|]|] eqn:Hd.
    + now left.
    + destruct (IH fs q) as [H|(H1 & H2 & H3)]; [now left|].
      right. repeat split; auto. now right.
    + destruct (IH (<[x :: d := Dir]> fs) q) as [H|(H1 & H2 & H3)].
      * destruct (decide (q = x :: d)) as [->|Hne].
        -- right. rewrite H, lookup_insert_eq. repeat split; auto. now left.
        -- left. now rewrite H, lookup_insert_ne.
      * destruct (decide (q = x :: d)) as [->|Hne].
        -- now rewrite lookup_insert_eq in H1.
        -- rewrite lookup_insert_ne in H1 by congruence.
           right. repeat split; auto. now right.
Qed.

Lemma writeFileSync_other p content mode fs q :
  q <> p -> (writeFileSync p content mode fs).1 !! q = fs !! q.
Proof.
  intros Hne. unfold writeFileSync. destruct (reachable fs p); [|reflexivity].
  destruct p as [|x p]; [now destruct (fs !! [])|].
  destruct (fs !! (x :: p)) as [[c m|]|]; cbn [fst];
    rewrite ?lookup_insert_ne by congruence; reflexivity.
Qed.

(** A write that succeeds: the file holds the content, with the mode it
    had, or the mode given when it is new. *)
Lemma writeFileSync_spec p content fs fs' :
  writeFileSync p content 493 fs = (fs', Normal tt) ->
  reachable fs p = true /\
  fs' = <[p := File content (hook_mode fs p)]> fs /\
  (forall a, is_dir fs' a = is_dir fs a).
Proof.
  intros H. pose proof (FsFacts.writeFileSync_ok _ _ _ _ _ H) as (Hr & _ & Hd).
  split; [exact Hr|]. split; [|exact Hd].
  unfold writeFileSync in H. rewrite Hr in H. unfold hook_mode.
  destruct p as [|x p]; [destruct (fs !! []) as [[]|]; discriminate|].
  destruct (fs !! (x :: p)) as [[c m|]|]; congruence.
Qed.

End FsSteps.

Import FsSteps.

Lemma hook_not_in_chain (workspacePath hookPath : Fs.path) :
  In hookPath (hook_paths workspacePath) ->
  ~ In hookPath (hook_chain workspacePath).
Proof.
  intros Hin Hchain.
  assert (Hlen : length hookPath = S (length (hooksDir workspacePath))).
  { unfold hook_paths, preCommitHook, commitMsgHook, postCheckoutHook,
      prePushHook in Hin. cbn in Hin.
    repeat (destruct Hin as [<-|Hin];
            [rewrite length_app; cbn; lia|]). destruct Hin. }
  unfold hook_chain in Hchain. apply in_app_or in Hchain as [Ha|[<-|[]]].
  - apply FsFacts.ancestors_shorter in Ha. lia.
  - lia.
Qed.

(** The first step of the [try] block: the hooks directory is created
    when it is not there. *)
Lemma ensure_dir_lookup (workspacePath : Fs.path) (fs : Fs.t) (q : Fs.path) :
  let fs0 := (if Fs.existsSync fs (hooksDir workspacePath) then fs_skip fs
              else Fs.mkdirSync (hooksDir workspacePath) fs).1 in
  fs0 !! q = fs !! q \/
  (fs !! q = None /\ fs0 !! q = Some Fs.Dir /\ In q (hook_chain workspacePath)).
Proof.
  cbv zeta. destruct (Fs.existsSync fs (hooksDir workspacePath)); [now left|].
  apply mkdir_each_lookup.
Qed.

Lemma hook_mode_ext (fs fs' : Fs.t) (p : Fs.path) :
  fs' !! p = fs !! p -> hook_mode fs' p = hook_mode fs p.
Proof. unfold hook_mode. now intros ->. Qed.

Lemma hook_paths_ne (workspacePath : Fs.path) :
  preCommitHook workspacePath <> commitMsgHook workspacePath /\
  preCommitHook workspacePath <> postCheckoutHook workspacePath /\
  preCommitHook workspacePath <> prePushHook workspacePath /\
  commitMsgHook workspacePath <> postCheckoutHook workspacePath /\
  commitMsgHook workspacePath <> prePushHook workspacePath /\
  postCheckoutHook workspacePath <> prePushHook workspacePath.
Proof.
  repeat split; intros H; apply app_inv_head in H; discriminate.
Qed.

(** The [try] block of [installGitHooks], when it runs to its end. *)
Lemma write_hooks_spec (workspacePath : Fs.path)
    (preCommit commitMsg prePush postCheckout : string) (fs fs' : Fs.t) :
  write_hooks workspacePath (preCommit, commitMsg, prePush, postCheckout) fs
  = (fs', Normal tt) ->
  exists fs0,
    (forall q,
       fs0 !! q = fs !! q \/
       (fs !! q = None /\ fs0 !! q = Some Fs.Dir /\
        In q (hook_chain workspacePath))) /\
    Fs.reachable fs0 (preCommitHook workspacePath) = true /\
    (forall a, Fs.is_dir fs' a = Fs.is_dir fs0 a) /\
    fs' = <[prePushHook workspacePath :=
              Fs.File prePush (hook_mode fs (prePushHook workspacePath))]>
          (<[postCheckoutHook workspacePath :=
               Fs.File postCheckout
                       (hook_mode fs (postCheckoutHook workspacePath))]>
           (<[commitMsgHook workspacePath :=
                Fs.File commitMsg (hook_mode fs (commitMsgHook workspacePath))]>
            (<[preCommitHook workspacePath :=
                 Fs.File preCommit (hook_mode fs (preCommitHook workspacePath))]>
             fs0))).
Proof.
  unfold write_hooks, fs_bind.
  pose proof (ensure_dir_lookup workspacePath fs) as H0. cbv zeta in H0.
  destruct (if Fs.existsSync fs (hooksDir workspacePath) then fs_skip fs
            else Fs.mkdirSync (hooksDir workspacePath) fs) as [fs0 [[]|]];
    [|discriminate].
  cbn [fst] in H0.
  destruct (Fs.writeFileSync (preCommitHook workspacePath) preCommit 493 fs0)
    as [fs1 [[]|]] eqn:H1; [|discriminate].
  destruct (Fs.writeFileSync (commitMsgHook workspacePath) commitMsg 493 fs1)
    as [fs2 [[]|]] eqn:H2; [|discriminate].
  destruct (Fs.writeFileSync (postCheckoutHook workspacePath) postCheckout 493 fs2)
    as [fs3 [[]|]] eqn:H3; [|discriminate].
  intros H4.
  destruct (hook_paths_ne workspacePath) as (N12 & N13 & N14 & N23 & N24 & N34).
  apply writeFileSync_spec in H1 as (R1 & E1 & D1).
  apply writeFileSync_spec in H2 as (R2 & E2 & D2).
  apply writeFileSync_spec in H3 as (R3 & E3 & D3).
  apply writeFileSync_spec in H4 as (R4 & E4 & D4).
  assert (Hfresh : forall h, In h (hook_paths workspacePath) ->
                             fs0 !! h = fs !! h).
  { intros h Hh. destruct (H0 h) as [H|(_ & _ & Hc)]; [exact H|].
    now apply hook_not_in_chain in Hh. }
  assert (M1 : hook_mode fs0 (preCommitHook workspacePath)
               = hook_mode fs (preCommitHook workspacePath)).
  { apply hook_mode_ext, Hfresh. unfold hook_paths. cbn. tauto. }
  assert (M2 : hook_mode fs1 (commitMsgHook workspacePath)
               = hook_mode fs (commitMsgHook workspacePath)).
  { rewrite <- (hook_mode_ext fs fs0)
      by (apply Hfresh; unfold hook_paths; cbn; tauto).
    apply hook_mode_ext. rewrite E1. apply lookup_insert_ne. congruence. }
  assert (M3 : hook_mode fs2 (postCheckoutHook workspacePath)
               = hook_mode fs (postCheckoutHook workspacePath)).
  { rewrite <- (hook_mode_ext fs fs0)
      by (apply Hfresh; unfold hook_paths; cbn; tauto).
    apply hook_mode_ext. rewrite E2, E1.
    rewrite !lookup_insert_ne by congruence. reflexivity. }
  assert (M4 : hook_mode fs3 (prePushHook workspacePath)
               = hook_mode fs (prePushHook workspacePath)).
  { rewrite <- (hook_mode_ext fs fs0)
      by (apply Hfresh; unfold hook_paths; cbn; tauto).
    apply hook_mode_ext. rewrite E3, E2, E1.
    rewrite !lookup_insert_ne by congruence. reflexivity. }
  rewrite M1 in E1. rewrite M2 in E2. rewrite M3 in E3. rewrite M4 in E4.
  exists fs0. split; [exact H0|]. split; [exact R1|]. split.
  - intros a. now rewrite D4, D3, D2, D1.
  - now rewrite E4, E3, E2, E1.
Qed.

(** Outside the four hook files, the [try] block only adds directories
    on the way to the hooks directory, however it ends. *)
Lemma write_hooks_frame (workspacePath : Fs.path)
    (contents : string * string * string * string) (fs : Fs.t) (q : Fs.path) :
  ~ In q (hook_paths workspacePath) ->
  (write_hooks workspacePath contents fs).1 !! q = fs !! q \/
  (fs !! q = None /\
   (write_hooks workspacePath contents fs).1 !! q = Some Fs.Dir /\
   In q (hook_chain workspacePath)).
Proof.
  intros Hq. destruct contents as [[[preCommit commitMsg] prePush] postCheckout].
  assert (Hne : q <> preCommitHook workspacePath /\
                q <> commitMsgHook workspacePath /\
                q <> postCheckoutHook workspacePath /\
                q <> prePushHook workspacePath).
  { unfold hook_paths in Hq. cbn in Hq. repeat split; intros ->; tauto. }
  destruct Hne as (N1 & N2 & N3 & N4).
  unfold write_hooks, fs_bind.
  pose proof (ensure_dir_lookup workspacePath fs q) as H0. cbv zeta in H0.
  destruct (if Fs.existsSync fs (hooksDir workspacePath) then fs_skip fs
            else Fs.mkdirSync (hooksDir workspacePath) fs) as [fs0 [[]|]];
    cbn [fst] in H0; [|exact H0].
  pose proof (writeFileSync_other (preCommitHook workspacePath) preCommit 493
                fs0 q N1) as L1.
  destruct (Fs.writeFileSync (preCommitHook workspacePath) preCommit 493 fs0)
    as [fs1 [[]|]]; cbn [fst] in L1; [|cbn [fst]; now rewrite L1].
  pose proof (writeFileSync_other (commitMsgHook workspacePath) commitMsg 493
                fs1 q N2) as L2.
  destruct (Fs.writeFileSync (commitMsgHook workspacePath) commitMsg 493 fs1)
    as [fs2 [[]|]]; cbn [fst] in L2; [|cbn [fst]; now rewrite L2, L1].
  pose proof (writeFileSync_other (postCheckoutHook workspacePath) postCheckout
                493 fs2 q N3) as L3.
  destruct (Fs.writeFileSync (postCheckoutHook workspacePath) postCheckout 493 fs2)
    as [fs3 [[]|]]; cbn [fst] in L3; [|cbn [fst]; now rewrite L3, L2, L1].
  rewrite (writeFileSync_other (prePushHook workspacePath) prePush 493 fs3 q N4).
  now rewrite L3, L2, L1.
Qed.

(** X18.  An installation touches nothing but the hooks.  However it ends,
    every node other than the four hook files is as before, except that
    the directories on the way to the hooks directory that were missing
    may have been created. *)
Theorem install_touches_only_hooks
    (JSON_parse : string -> option (string -> jsvalue))
    (workspacePath : Fs.path) (fs : Fs.t) (q : Fs.path) :
  ~ In q (hook_paths workspacePath) ->
  (installGitHooks JSON_parse workspacePath fs).1.1 !! q = fs !! q \/
  (fs !! q = None /\
   (installGitHooks JSON_parse workspacePath fs).1.1 !! q = Some Fs.Dir /\
   In q (hook_chain workspacePath)).
Proof.
  intros Hq. unfold installGitHooks.
  destruct (hook_contents _) as [contents|e]; [|now left].
  pose proof (write_hooks_frame workspacePath contents fs q Hq) as H.
  now destruct (write_hooks workspacePath contents fs) as [fs' [[]|e]].
Qed.

Lemma install_touches_only_hooks_witness :
  (installGitHooks (fun _ => None) ["repo"] worktree).1.1 !! ["repo"; ".git"]
  = worktree !! ["repo"; ".git"] \/
  (worktree !! ["repo"; ".git"] = None /\
   (installGitHooks (fun _ => None) ["repo"] worktree).1.1 !! ["repo"; ".git"]
   = Some Fs.Dir /\
   In ["repo"; ".git"] (hook_chain ["repo"])).
Proof.
  apply (install_touches_only_hooks (fun _ => None) ["repo"] worktree
           ["repo"; ".git"]).
  vm_compute. intros [H|[H|[H|[H|[]]]]]; discriminate H.
Defined.

(** The four files of a file system that the [try] block has written. *)
Lemma written_hooks_lookup (workspacePath : Fs.path)
    (pc cm pp po : string) (m1 m2 m3 m4 : N) (fs0 : Fs.t) :
  let fs' :=
    <[prePushHook workspacePath := Fs.File pp m4]>
      (<[postCheckoutHook workspacePath := Fs.File po m3]>
         (<[commitMsgHook workspacePath := Fs.File cm m2]>
            (<[preCommitHook workspacePath := Fs.File pc m1]> fs0))) in
  fs' !! preCommitHook workspacePath = Some (Fs.File pc m1) /\
  fs' !! commitMsgHook workspacePath = Some (Fs.File cm m2) /\
  fs' !! postCheckoutHook workspacePath = Some (Fs.File po m3) /\
  fs' !! prePushHook workspacePath = Some (Fs.File pp m4).
Proof.
  destruct (hook_paths_ne workspacePath) as (N12 & N13 & N14 & N23 & N24 & N34).
  cbv zeta. repeat split.
  - rewrite !lookup_insert_ne by congruence. apply lookup_insert_eq.
  - rewrite !lookup_insert_ne by congruence. apply lookup_insert_eq.
  - rewrite !lookup_insert_ne by congruence. apply lookup_insert_eq.
  - apply lookup_insert_eq.
Qed.

(** X19.  A successful installation replaces whatever the four hook files
    held by the scripts generated for the configuration of the
    workspace.  A file that was there keeps its mode; a new one gets
    [0o755]. *)
Theorem install_writes_generated_hooks
    (JSON_parse : string -> option (string -> jsvalue))
    (workspacePath : Fs.path) (fs fs' : Fs.t) :
  installGitHooks JSON_parse workspacePath fs = (fs', [install_ok], Normal tt) ->
  exists preCommit commitMsg prePush postCheckout : string,
    hook_contents (getHookConfig JSON_parse workspacePath fs)
    = Normal (preCommit, commitMsg, prePush, postCheckout) /\
    fs' !! preCommitHook workspacePath
    = Some (Fs.File preCommit (hook_mode fs (preCommitHook workspacePath))) /\
    fs' !! commitMsgHook workspacePath
    = Some (Fs.File commitMsg (hook_mode fs (commitMsgHook workspacePath))) /\
    fs' !! postCheckoutHook workspacePath
    = Some (Fs.File postCheckout
                    (hook_mode fs (postCheckoutHook workspacePath))) /\
    fs' !! prePushHook workspacePath
    = Some (Fs.File prePush (hook_mode fs (prePushHook workspacePath))).
Proof.
  unfold installGitHooks.
  destruct (hook_contents _) as [[[[pc cm] pp] po]|] eqn:Hc; [|discriminate].
  destruct (write_hooks _ _ fs) as [fs1 [[]|e]] eqn:Hw; [|discriminate].
  intros [= <-].
  apply write_hooks_spec in Hw as (fs0 & _ & _ & _ & ->).
  exists pc, cm, pp, po. split; [reflexivity|].
  apply written_hooks_lookup.
Qed.

(** X20.  After an installation that reports success and a removal, none of
    the four hook files is left, whatever they held before the
    installation. *)
Theorem install_then_remove_leaves_no_hook
    (JSON_parse : string -> option (string -> jsvalue))
    (workspacePath : Fs.path) (fs fs' : Fs.t) (hookPath : Fs.path) :
  installGitHooks JSON_parse workspacePath fs = (fs', [install_ok], Normal tt) ->
  In hookPath (hook_paths workspacePath) ->
  removeGitHooks workspacePath fs' !! hookPath = None.
Proof.
  intros Hinst Hin. unfold removeGitHooks. rewrite sweep_lookup.
  rewrite (install_signs_hooks JSON_parse workspacePath fs fs' Hinst hookPath Hin).
  rewrite bool_decide_eq_true_2; [reflexivity|]. now apply list_elem_of_In.
Qed.

(** X21.  Removing twice is removing once. *)
Theorem remove_is_idempotent (workspacePath : Fs.path) (fs : Fs.t) :
  removeGitHooks workspacePath (removeGitHooks workspacePath fs)
  = removeGitHooks workspacePath fs.
Proof.
  apply map_eq. intros q. unfold removeGitHooks.
  rewrite (sweep_lookup (hook_paths workspacePath)
             (fold_left remove_hook (hook_paths workspacePath) fs)).
  rewrite sweep_signed.
  destruct (bool_decide (q ∈ hook_paths workspacePath));
    [now rewrite andb_false_r|reflexivity].
Qed.

Lemma install_writes_generated_hooks_witness :
  exists preCommit commitMsg prePush postCheckout : string,
    hook_contents (getHookConfig (fun _ => None) ["repo"] checkout)
    = Normal (preCommit, commitMsg, prePush, postCheckout) /\
    (installGitHooks (fun _ => None) ["repo"] checkout).1.1
      !! preCommitHook ["repo"]
    = Some (Fs.File preCommit (hook_mode checkout (preCommitHook ["repo"]))) /\
    (installGitHooks (fun _ => None) ["repo"] checkout).1.1
      !! commitMsgHook ["repo"]
    = Some (Fs.File commitMsg (hook_mode checkout (commitMsgHook ["repo"]))) /\
    (installGitHooks (fun _ => None) ["repo"] checkout).1.1
      !! postCheckoutHook ["repo"]
    = Some (Fs.File postCheckout
                    (hook_mode checkout (postCheckoutHook ["repo"]))) /\
    (installGitHooks (fun _ => None) ["repo"] checkout).1.1
      !! prePushHook ["repo"]
    = Some (Fs.File prePush (hook_mode checkout (prePushHook ["repo"]))).
Proof.
  apply (install_writes_generated_hooks (fun _ => None) ["repo"] checkout).
  vm_cast_no_check
    (@eq_refl _ (installGitHooks (fun _ => None) ["repo"] checkout)).
Defined.

Lemma install_then_remove_leaves_no_hook_witness :
  removeGitHooks ["repo"] (installGitHooks (fun _ => None) ["repo"] checkout).1.1
    !! commitMsgHook ["repo"] = None.
Proof.
  apply (install_then_remove_leaves_no_hook (fun _ => None) ["repo"] checkout
           (installGitHooks (fun _ => None) ["repo"] checkout).1.1
           (commitMsgHook ["repo"])).
  - vm_cast_no_check
      (@eq_refl _ (installGitHooks (fun _ => None) ["repo"] checkout)).
  - right. left. reflexivity.
Defined.

(** *** Conventions for which the generators throw *)

Lemma is_prototype_key_custom : is_prototype_key "custom" = false.
Proof. reflexivity. Qed.

Lemma is_prototype_key_jira : is_prototype_key "jira" = false.
Proof. reflexivity. Qed.

Lemma generateBranchValidationScript_throws (config : Config) :
  if is_prototype_key (branchPattern config)
  then generateBranchValidationScript config
       = Throw (TypeError "exampleList.map is not a function")
  else exists text, generateBranchValidationScript config = Normal text.
Proof.
  unfold generateBranchValidationScript, branch_hook_pattern,
    branch_hook_examples, get_property, or_default.
  cbn [own_property].
  destruct (String.eqb_spec (branchPattern config) "custom") as [->|Hc].
  - rewrite is_prototype_key_custom. cbn [andb].
    destruct (Str.truthy (customBranchPattern config)); eauto.
  - cbn [andb].
    destruct (String.eqb_spec "jira" (branchPattern config)) as [<-|Hj].
    + rewrite is_prototype_key_jira. eauto.
    + destruct (is_prototype_key (branchPattern config)); eauto.
Qed.

Lemma generateCommitValidationScript_throws (config : Config) :
  if is_prototype_key (commitPattern config)
  then generateCommitValidationScript config
       = Throw (TypeError "exampleList.map is not a function")
  else exists text, generateCommitValidationScript config = Normal text.
Proof.
  unfold generateCommitValidationScript, commit_hook_pattern,
    commit_hook_examples, get_property, or_default.
  cbn [own_property].
  destruct (String.eqb_spec (commitPattern config) "custom") as [->|Hc].
  - rewrite is_prototype_key_custom. cbn [andb].
    destruct (Str.truthy (customCommitPattern config)); eauto.
  - cbn [andb].
    destruct (String.eqb_spec "jira" (commitPattern config)) as [<-|Hj].
    + rewrite is_prototype_key_jira. eauto.
    + destruct (is_prototype_key (commitPattern config)); eauto.
Qed.

(** The four template literals throw exactly for an unusable
    convention. *)
Lemma hook_contents_throws (config : Config) :
  if unusable_convention config
  then hook_contents config
       = Throw (TypeError "exampleList.map is not a function")
  else exists contents, hook_contents config = Normal contents.
Proof.
  pose proof (generateBranchValidationScript_throws config) as Hb.
  pose proof (generateCommitValidationScript_throws config) as Hc.
  unfold unusable_convention, hook_contents, preCommitContent, commitMsgContent,
    prePushContent, postCheckoutContent, branch_validation_part,
    commit_validation_part, bind.
  destruct (enableBranchValidation config), (enableCommitValidation config),
    (is_prototype_key (branchPattern config)),
    (is_prototype_key (commitPattern config));
    cbn [andb orb];
    repeat match goal with
           | H : exists _, _ = Normal _ |- _ => destruct H as [? ->]
           | H : _ = Throw _ |- _ => rewrite H
           end; eauto.
Qed.

Lemma writeFileSync_throws p content mode fs fs' e :
  Fs.writeFileSync p content mode fs = (fs', Throw e) ->
  exists code, e = FsError code.
Proof.
  unfold Fs.writeFileSync. destruct (Fs.reachable fs p).
  - destruct p as [|x p].
    + destruct (fs !! []) as [[]|]; intros [= <- <-]; eauto.
    + destruct (fs !! (x :: p)) as [[c m|]|]; intros [= <- <-]; eauto.
  - intros [= <- <-]. eauto.
Qed.

Lemma mkdir_each_throws dirs : forall fs fs' e,
  Fs.mkdir_each dirs fs = (fs', Throw e) -> exists code, e = FsError code.
Proof.
  induction dirs as [|d dirs IH]; intros fs fs' e; [discriminate|].
  cbn [Fs.mkdir_each]. destruct d as [|x d]; [apply IH|].
  destruct (fs !! (x :: d)) as [[c m|]|]; [|apply IH|apply IH].
  intros [= <- <-]. eauto.
Qed.

Lemma write_hooks_throws workspacePath contents fs fs' e :
  write_hooks workspacePath contents fs = (fs', Throw e) ->
  exists code, e = FsError code.
Proof.
  destruct contents as [[[preCommit commitMsg] prePush] postCheckout].
  unfold write_hooks, fs_bind.
  destruct (if Fs.existsSync fs (hooksDir workspacePath) then fs_skip fs
            else Fs.mkdirSync (hooksDir workspacePath) fs)
    as [fs0 [[]|e0]] eqn:H0.
  - destruct (Fs.writeFileSync (preCommitHook workspacePath) _ _ fs0)
      as [fs1 [[]|e1]] eqn:H1;
      [|intros [= <- <-]; eapply writeFileSync_throws; eauto].
    destruct (Fs.writeFileSync (commitMsgHook workspacePath) _ _ fs1)
      as [fs2 [[]|e2]] eqn:H2;
      [|intros [= <- <-]; eapply writeFileSync_throws; eauto].
    destruct (Fs.writeFileSync (postCheckoutHook workspacePath) _ _ fs2)
      as [fs3 [[]|e3]] eqn:H3;
      [|intros [= <- <-]; eapply writeFileSync_throws; eauto].
    intros H4. eapply writeFileSync_throws; eauto.
  - intros [= <- <-].
    destruct (Fs.existsSync fs (hooksDir workspacePath)); [discriminate|].
    eapply mkdir_each_throws; eauto.
Qed.

(** X22.  [installGitHooks] lets an exception escape exactly when a validation
    that is switched on has, as its convention, a name that every object
    inherits ([constructor], [toString], ...): the templates are
    evaluated outside the [try] block, and nothing is written.  For every
    other configuration it returns after showing one message: the
    success, or the failure of a file-system call. *)
Theorem install_throws_on_inherited_convention
    (JSON_parse : string -> option (string -> jsvalue))
    (workspacePath : Fs.path) (fs : Fs.t) :
  (unusable_convention (getHookConfig JSON_parse workspacePath fs) = true /\
   installGitHooks JSON_parse workspacePath fs
   = (fs, [], Throw (TypeError "exampleList.map is not a function"))) \/
  (unusable_convention (getHookConfig JSON_parse workspacePath fs) = false /\
   exists fs' shown,
     installGitHooks JSON_parse workspacePath fs = (fs', [shown], Normal tt) /\
     (shown = install_ok \/ exists code, shown = install_failed (FsError code))).
Proof.
  unfold installGitHooks.
  pose proof (hook_contents_throws (getHookConfig JSON_parse workspacePath fs))
    as Hc.
  destruct (unusable_convention _).
  - left. split; [reflexivity|]. now rewrite Hc.
  - right. split; [reflexivity|]. destruct Hc as [contents ->].
    destruct (write_hooks workspacePath contents fs) as [fs' [[]|e]] eqn:Hw.
    + exists fs', install_ok. auto.
    + apply write_hooks_throws in Hw as [code ->].
      exists fs', (install_failed (FsError code)). eauto.
Qed.

(** *** Installing twice *)

Lemma writeFileSync_same (p : Fs.path) (content : string) (mode mode' : N)
    (fs : Fs.t) :
  p <> [] ->
  Fs.reachable fs p = true ->
  fs !! p = Some (Fs.File content mode') ->
  Fs.writeFileSync p content mode fs = (fs, Normal tt).
Proof.
  intros Hne Hr Hp. unfold Fs.writeFileSync. rewrite Hr.
  destruct p as [|x p]; [congruence|]. rewrite Hp.
  now rewrite insert_id.
Qed.

(** A prefix common to the settings file and to the hooks directory is
    a prefix of the workspace folder. *)
Lemma common_prefix (workspacePath a r1 r2 : Fs.path) :
  a ++ r1 = workspacePath ++ [".vscode"; "settings.json"] ->
  a ++ r2 = workspacePath ++ [".git"; "hooks"] ->
  exists r, workspacePath = a ++ r.
Proof.
  revert a. induction workspacePath as [|x ws IH]; intros a H1 H2.
  - destruct a as [|y a]; [now exists []|].
    cbn in H1, H2. congruence.
  - destruct a as [|y a]; [now exists (x :: ws)|].
    cbn [app] in H1, H2.
    assert (Hy : y = x) by congruence. subst y.
    assert (H1' : a ++ r1 = ws ++ [".vscode"; "settings.json"]) by congruence.
    assert (H2' : a ++ r2 = ws ++ [".git"; "hooks"]) by congruence.
    destruct (IH a H1' H2') as [r ->]. now exists r.
Qed.

Lemma in_hook_chain (workspacePath a : Fs.path) :
  In a (hook_chain workspacePath) ->
  exists r, a ++ r = workspacePath ++ [".git"; "hooks"].
Proof.
  unfold hook_chain, hooksDir. intros H.
  apply in_app_or in H as [H|[<-|[]]].
  - apply ancestors_prefix in H as (r & _ & ->). now exists r.
  - exists []. apply app_nil_r.
Qed.

Lemma forallb_agree {A : Type} (f g : A -> bool) (l : list A) :
  (forall a, In a l -> f a = g a) -> forallb f l = forallb g l.
Proof.
  induction l as [|x l IH]; intros H; [reflexivity|].
  cbn [forallb]. rewrite (H x) by now left.
  rewrite IH; [reflexivity|]. intros a Ha. apply H. now right.
Qed.

Lemma getHookConfig_ext (JSON_parse : string -> option (string -> jsvalue))
    (workspacePath : Fs.path) (fs fs' : Fs.t) :
  (forall a, In a (Fs.ancestors (workspacePath ++ [".vscode"; "settings.json"])) ->
             Fs.is_dir fs' a = Fs.is_dir fs a) ->
  fs' !! (workspacePath ++ [".vscode"; "settings.json"])
  = fs !! (workspacePath ++ [".vscode"; "settings.json"]) ->
  getHookConfig JSON_parse workspacePath fs'
  = getHookConfig JSON_parse workspacePath fs.
Proof.
  intros Hd Hl. unfold getHookConfig, Fs.existsSync, Fs.readFileSync, Fs.present.
  assert (Hr : Fs.reachable fs' (workspacePath ++ [".vscode"; "settings.json"])
               = Fs.reachable fs (workspacePath ++ [".vscode"; "settings.json"])).
  { unfold Fs.reachable. apply forallb_agree.
    intros a Ha. apply Hd. exact Ha. }
  rewrite Hr.
  destruct (workspacePath ++ [".vscode"; "settings.json"]) as [|y sp];
    [reflexivity|].
  now rewrite Hl.
Qed.

(** X23.  Installing again changes nothing.  In a workspace folder that
    exists, after an installation that reported success a second one
    reports success and leaves the file system as the first one left
    it. *)
Theorem install_is_idempotent
    (JSON_parse : string -> option (string -> jsvalue))
    (workspacePath : Fs.path) (fs fs' : Fs.t) :
  Fs.reachable fs (workspacePath ++ [".git"]) = true ->
  installGitHooks JSON_parse workspacePath fs = (fs', [install_ok], Normal tt) ->
  installGitHooks JSON_parse workspacePath fs' = (fs', [install_ok], Normal tt).
Proof.
  intros Hws Hinst.
  unfold installGitHooks in Hinst.
  destruct (hook_contents (getHookConfig JSON_parse workspacePath fs))
    as [[[[pc cm] pp] po]|] eqn:Hc; [|discriminate].
  destruct (write_hooks workspacePath (pc, cm, pp, po) fs)
    as [fs1 [[]|e]] eqn:Hw; [|discriminate].
  injection Hinst as ->.
  apply write_hooks_spec in Hw as (fs0 & H0 & R1 & D & E).
  pose proof (written_hooks_lookup workspacePath pc cm pp po
                (hook_mode fs (preCommitHook workspacePath))
                (hook_mode fs (commitMsgHook workspacePath))
                (hook_mode fs (postCheckoutHook workspacePath))
                (hook_mode fs (prePushHook workspacePath)) fs0) as HL.
  cbv zeta in HL. rewrite <- E in HL. destruct HL as (L1 & L2 & L3 & L4).
  (* the configuration read the second time is the same *)
  assert (Hcfg : getHookConfig JSON_parse workspacePath fs'
                 = getHookConfig JSON_parse workspacePath fs).
  { apply getHookConfig_ext.
    - intros a Ha. rewrite D.
      destruct a as [|y a]; [reflexivity|].
      destruct (H0 (y :: a)) as [Heq|(Hnone & _ & Hchain)].
      + unfold Fs.is_dir. now rewrite Heq.
      + exfalso.
        apply ancestors_prefix in Ha as (r1 & _ & Hr1).
        apply in_hook_chain in Hchain as [r2 Hr2].
        destruct (common_prefix workspacePath (y :: a) r1 r2) as [r Hr]; auto.
        assert (Hanc : In (y :: a) (Fs.ancestors (workspacePath ++ [".git"]))).
        { apply ancestors_prefix. exists (r ++ [".git"]).
          split; [now destruct r|]. rewrite Hr at 1. now rewrite <- app_assoc. }
        unfold Fs.reachable in Hws. rewrite forallb_forall in Hws.
        apply Hws in Hanc. unfold Fs.is_dir in Hanc. now rewrite Hnone in Hanc.
    - rewrite E.
      rewrite !lookup_insert_ne
        by (unfold preCommitHook, commitMsgHook, postCheckoutHook, prePushHook,
              hooksDir; rewrite <- app_assoc; intros H;
            apply app_inv_head in H; discriminate).
      destruct (H0 (workspacePath ++ [".vscode"; "settings.json"]))
        as [Heq|(_ & _ & Hchain)]; [exact Heq|].
      apply in_hook_chain in Hchain as [r2 Hr2].
      rewrite <- app_assoc in Hr2. apply app_inv_head in Hr2. discriminate. }
  (* the hooks directory is there *)
  assert (Hreach : forall p, Fs.reachable fs' p = Fs.reachable fs0 p).
  { intros p. now apply FsFacts.reachable_ext. }
  assert (Hdir : Fs.existsSync fs' (hooksDir workspacePath) = true).
  { unfold preCommitHook in R1. rewrite reachable_snoc in R1.
    apply andb_prop in R1 as [Rd Hd]. rewrite <- D in Hd.
    unfold Fs.existsSync. rewrite Hreach, Rd. cbn [andb].
    unfold Fs.is_dir in Hd. unfold Fs.present.
    destruct (hooksDir workspacePath); [reflexivity|].
    now destruct (fs' !! (s :: l)). }
  assert (R : forall h, In h (hook_paths workspacePath) ->
                        Fs.reachable fs' h = true).
  { intros h Hh. rewrite Hreach.
    unfold preCommitHook in R1. rewrite reachable_snoc in R1.
    unfold hook_paths, preCommitHook, commitMsgHook, postCheckoutHook,
      prePushHook in Hh. cbn in Hh.
    repeat (destruct Hh as [<-|Hh]; [now rewrite reachable_snoc|]).
    destruct Hh. }
  assert (I1 : In (preCommitHook workspacePath) (hook_paths workspacePath))
    by (unfold hook_paths; cbn; tauto).
  assert (I2 : In (commitMsgHook workspacePath) (hook_paths workspacePath))
    by (unfold hook_paths; cbn; tauto).
  assert (I3 : In (postCheckoutHook workspacePath) (hook_paths workspacePath))
    by (unfold hook_paths; cbn; tauto).
  assert (I4 : In (prePushHook workspacePath) (hook_paths workspacePath))
    by (unfold hook_paths; cbn; tauto).
  unfold installGitHooks. rewrite Hcfg, Hc.
  unfold write_hooks, fs_bind. rewrite Hdir. unfold fs_skip.
  rewrite (writeFileSync_same _ pc 493 _ fs'
             (hook_path_not_root workspacePath _ I1) (R _ I1) L1).
  rewrite (writeFileSync_same _ cm 493 _ fs'
             (hook_path_not_root workspacePath _ I2) (R _ I2) L2).
  rewrite (writeFileSync_same _ po 493 _ fs'
             (hook_path_not_root workspacePath _ I3) (R _ I3) L3).
  rewrite (writeFileSync_same _ pp 493 _ fs'
             (hook_path_not_root workspacePath _ I4) (R _ I4) L4).
  reflexivity.
Qed.

Lemma install_is_idempotent_witness :
  installGitHooks (fun _ => None) ["repo"]
    (installGitHooks (fun _ => None) ["repo"] checkout).1.1
  = ((installGitHooks (fun _ => None) ["repo"] checkout).1.1,
     [install_ok], Normal tt).
Proof.
  apply (install_is_idempotent (fun _ => None) ["repo"] checkout).
  - vm_cast_no_check (@eq_refl bool true).
  - vm_cast_no_check
      (@eq_refl _ (installGitHooks (fun _ => None) ["repo"] checkout)).
Defined.

(** *** The configuration of the hooks *)

(** X24.  The hooks validate unless the workspace settings say [false].
    [getHookConfig] switches branch validation off exactly when
    [.vscode/settings.json] can be read and parsed and holds the boolean
    [false] under [validateBranch.enableBranchValidation]; a missing or
    broken file, a missing key, or the string ["false"] leave it on. *)
Theorem hook_validation_is_on_unless_false
    (JSON_parse : string -> option (string -> jsvalue))
    (workspacePath : Fs.path) (fs : Fs.t) :
  enableBranchValidation (getHookConfig JSON_parse workspacePath fs) = false
  <->
  exists text settings,
    Fs.readFileSync fs (workspacePath ++ [".vscode"; "settings.json"])
    = Normal text /\
    JSON_parse text = Some settings /\
    settings "validateBranch.enableBranchValidation" = JBool false.
Proof.
  unfold getHookConfig. split.
  - destruct (Fs.existsSync fs _); [|discriminate].
    destruct (Fs.readFileSync fs _) as [text|e]; [|discriminate].
    destruct (JSON_parse text) as [settings|] eqn:Hparse; [|discriminate].
    cbn [enableBranchValidation]. intros H. exists text, settings.
    repeat split; auto.
    destruct (settings "validateBranch.enableBranchValidation") as [|[]|];
      try discriminate H. reflexivity.
  - intros (text & settings & Hread & Hparse & Hoff).
    assert (Hex : Fs.existsSync fs (workspacePath ++ [".vscode"; "settings.json"])
                  = true).
    { unfold Fs.readFileSync in Hread. unfold Fs.existsSync, Fs.present.
      destruct (Fs.reachable fs _); [|discriminate]. cbn [andb].
      destruct (workspacePath ++ [".vscode"; "settings.json"]) as [|x p];
        [reflexivity|].
      destruct (fs !! (x :: p)) as [[c m|]|]; try discriminate. reflexivity. }
    rewrite Hex, Hread, Hparse. cbn [enableBranchValidation].
    now rewrite Hoff.
Qed.

(** ** The test runner *)

(** X25.  Every assertion of the test runner holds: the nine tests pass, none
    fails, and the script exits with status 0. *)
Theorem test_runner_passes :
  TestRunner.counters = (9, 0) /\ TestRunner.exit_code = 0.
Proof.
  assert (H : TestRunner.counters = (9, 0)) by (lazy; reflexivity).
  split; [exact H|]. unfold TestRunner.exit_code. now rewrite H.
Qed.

(** *** Patterns without an end anchor *)

Lemma iterate_extends (t : list ascii) (step : cont -> cont) :
  (forall k k', extends t k k' -> extends t (step k) (step k')) ->
  forall budget budget' lo k k',
    budget <= budget' ->
    extends t k k' ->
    extends t (iterate step budget lo k) (iterate step budget' lo k').
Proof.
  intros Hstep. induction budget as [|b IH];
    intros budget' lo k k' Hb Hk pos s H.
  - cbn [iterate] in H. rewrite orb_false_r in H.
    apply andb_prop in H as [Hlo H].
    destruct budget'; cbn [iterate]; rewrite Hlo, (Hk _ _ H); reflexivity.
  - destruct budget' as [|b']; [lia|]. cbn [iterate] in *.
    apply orb_prop in H as [H|H].
    + apply andb_prop in H as [Hlo H]. now rewrite Hlo, (Hk _ _ H).
    + apply orb_true_iff. right. revert H. apply Hstep.
      intros pos' s' H'. apply andb_prop in H' as [Hprog H'].
      rewrite Hprog. cbn [andb]. revert H'. apply IH; [lia|assumption].
Qed.

Lemma rmatch_extends (t : list ascii) (r : regex) :
  eol_free r = true ->
  forall k k', extends t k k' -> extends t (rmatch r k) (rmatch r k').
Proof.
  induction r as [|c| |ranges|r1 IH1 r2 IH2|r1 IH1 r2 IH2|lo hi r1 IH1| |];
    intros Hr k k' Hk pos s H; cbn [eol_free] in Hr; cbn [rmatch] in *.
  - now apply Hk.
  - destruct s as [|a s]; [discriminate|]. apply andb_prop in H as [Ha H].
    cbn [app]. now rewrite Ha, (Hk _ _ H).
  - destruct s as [|a s]; [discriminate|]. apply andb_prop in H as [Ha H].
    cbn [app]. now rewrite Ha, (Hk _ _ H).
  - destruct s as [|a s]; [discriminate|]. apply andb_prop in H as [Ha H].
    cbn [app]. now rewrite Ha, (Hk _ _ H).
  - apply andb_prop in Hr as [Hr1 Hr2].
    revert H. apply IH1; [assumption|]. now apply IH2.
  - apply andb_prop in Hr as [Hr1 Hr2]. apply orb_prop in H as [H|H].
    + now rewrite (IH1 Hr1 k k' Hk _ _ H).
    + rewrite (IH2 Hr2 k k' Hk _ _ H). apply orb_true_r.
  - revert H. apply iterate_extends; [now apply IH1| |assumption].
    destruct hi; [lia|]. rewrite length_app. lia.
  - apply andb_prop in H as [Hpos H]. now rewrite Hpos, (Hk _ _ H).
  - discriminate.
Qed.

Lemma anchored_start_only (r : regex) (s t : string) :
  eol_free r = true ->
  test (Seq Bol r) s = true -> test (Seq Bol r) (s +:+ t) = true.
Proof.
  intros Hr. rewrite !RegexFacts.test_anchored, chars_append.
  apply rmatch_extends; [assumption|]. intros pos s' _. reflexivity.
Qed.

(** X26.  The commit patterns of the test runner do not bound the
    description: they have no end anchor, so every message that extends
    an accepted one is accepted, whatever its length. *)
Theorem runner_commit_patterns_are_prefix_rules (message more : string) :
  (test TestRunner.conventional_commit message = true ->
   test TestRunner.conventional_commit (message +:+ more) = true) /\
  (test TestRunner.angular_commit message = true ->
   test TestRunner.angular_commit (message +:+ more) = true).
Proof.
  split; apply anchored_start_only; reflexivity.
Qed.

(** *** The runner's jira rule and the extension's *)

Lemma class_not_terminator (c : ascii) :
  in_class [lower; digit; dash] c = true -> is_line_terminator c = false.
Proof.
  destruct c as [[] [] [] [] [] [] [] []]; intros H;
    try discriminate H; reflexivity.
Qed.

(** X27.  The jira pattern of the test runner is not the one of the
    extension.  It accepts every name [kind/KEY-number-slug] of the
    extension whose kind is feature, bugfix or hotfix, and rejects every
    name whose kind is release or chore. *)
Theorem runner_jira_rule_is_not_the_extension_rule :
  (forall kind key number slug : string,
     In kind ["feature"; "bugfix"; "hotfix"] ->
     some_of [upper] key -> some_of [digit] number ->
     some_of [lower; digit; dash] slug ->
     test TestRunner.jira_branch
          (kind +:+ "/" +:+ key +:+ "-" +:+ number +:+ "-" +:+ slug) = true) /\
  (forall kind rest : string,
     In kind ["release"; "chore"] ->
     test TestRunner.jira_branch (kind +:+ "/" +:+ rest) = false).
Proof.
  split.
  - intros kind key number slug Hkind Hkey Hnum Hslug.
    unfold TestRunner.jira_branch.
    rewrite RegexFacts.seqs_cons by discriminate.
    rewrite RegexFacts.test_anchored. cbn [seqs].
    change (alts [Regex.lit "feature"; Regex.lit "bugfix"; Regex.lit "hotfix"])
      with (alts (map Regex.lit ["feature"; "bugfix"; "hotfix"])).
    apply some_of_chars in Hkey as [Hkey Hkey'].
    apply some_of_chars in Hnum as [Hnum Hnum'].
    apply some_of_chars in Hslug as [Hslug Hslug'].
    rewrite !chars_append.
    rewrite rmatch_seq. apply RegexShape.rmatch_alts_lits.
    eexists kind, _. split; [exact Hkind|]. split; [reflexivity|].
    rewrite rmatch_seq. apply RegexShape.rmatch_chr.
    eexists. split; [reflexivity|].
    rewrite rmatch_seq. apply RegexShape.rmatch_plus_class.
    eexists (Str.chars key), _. split; [reflexivity|].
    split; [exact Hkey|]. split; [exact Hkey'|].
    rewrite rmatch_seq. apply RegexShape.rmatch_chr.
    eexists. split; [reflexivity|].
    rewrite rmatch_seq. apply RegexShape.rmatch_plus_class.
    eexists (Str.chars number), _. split; [reflexivity|].
    split; [exact Hnum|]. split; [exact Hnum'|].
    rewrite rmatch_seq. apply RegexShape.rmatch_chr.
    eexists. split; [reflexivity|].
    rewrite rmatch_seq.
    change (rmatch TestRunner.some_chars)
      with (fun k pos s =>
              iterate (one_char (fun c => negb (is_line_terminator c)))
                      (1 + length s) 1 k pos s).
    cbv beta. apply RegexShape.iterate_one_char_iff.
    exists (Str.chars slug), []. split; [now rewrite app_nil_r|]. split.
    + rewrite forallb_forall in *. intros c Hc.
      now rewrite (class_not_terminator c (Hslug c Hc)).
    + split; [|reflexivity].
      destruct (Str.chars slug); [congruence|cbn; lia].
  - intros kind rest Hkind. unfold TestRunner.jira_branch.
    rewrite RegexFacts.seqs_cons by discriminate.
    rewrite RegexFacts.test_anchored. cbn [seqs].
    destruct Hkind as [<-|[<-|[]]]; reflexivity.
Qed.

Lemma runner_jira_rule_is_not_the_extension_rule_witness :
  test TestRunner.jira_branch "feature/APC-2876-user-auth" = true /\
  test TestRunner.jira_branch "release/APC-9999-v2-release" = false.
Proof.
  destruct runner_jira_rule_is_not_the_extension_rule as [Hyes Hno].
  split.
  - apply (Hyes "feature" "APC" "2876" "user-auth").
    + now left.
    + split; [discriminate|reflexivity].
    + split; [discriminate|reflexivity].
    + split; [discriminate|reflexivity].
  - apply (Hno "release" "APC-9999-v2-release"). now left.
Defined.
